(** * ember-data-sails: the socket service, the CSRF coordination of the base
  adapter and the subscription batching of the socket adapter; then the
  serializer's embedded records, the store's subscriptions, [ajax], the URL
  of the CSRF token and the logger.

  The JavaScript of [addon/] is embedded as pure functions over explicit
  state records.  Host facilities (Ember's run loop, RSVP promises, the
  Ember Data store, the raw socket of sails.io.js) appear as small explicit
  models: a promise table with registered reactions, a debounce timer, a map
  of loaded records and a log of what was handed to the socket. *)

From Stdlib Require Import ZArith QArith Qround.
From stdpp Require Import gmap strings list pretty.

#[local] Set Warnings "-register-all".
Local Open Scope Z_scope.
Local Open Scope string_scope.
Local Open Scope list_scope.

(** ** JavaScript values *)

Module Js.

(** Numbers are the integral ones (identifiers, status codes, counters). *)
Inductive JsVal :=
| JUndefined
| JNull
| JBool (b : bool)
| JNum (n : Z)
| JStr (s : string)
| JArr (xs : list JsVal)
| JObj (fields : list (string * JsVal)).

(** An object is its list of own properties, in insertion order. *)
Abbreviation Obj := (list (string * JsVal)).

(** ToBoolean. *)
Definition truthy (v : JsVal) : bool :=
  match v with
  | JUndefined | JNull => false
  | JBool b => b
  | JNum n => negb (Z.eqb n 0)
  | JStr s => negb (String.eqb s "")
  | JArr _ | JObj _ => true
  end.

(** [o[k]] on an object: [undefined] when the property is absent. *)
Fixpoint obj_get (o : Obj) (k : string) : JsVal :=
  match o with
  | [] => JUndefined
  | (k', v) :: o' => if String.eqb k' k then v else obj_get o' k
  end.

(** The names every object literal inherits from [Object.prototype].
    Reading one of them from an object that has no such property of its own
    gives a function, or the prototype itself for [__proto__]: a truthy
    value, which has none of the properties the source reads next
    ([method], [map], [id]). *)
Definition inherited : list string :=
  ["constructor"; "toString"; "toLocaleString"; "valueOf"; "hasOwnProperty";
   "isPrototypeOf"; "propertyIsEnumerable"; "__proto__"; "__defineGetter__";
   "__defineSetter__"; "__lookupGetter__"; "__lookupSetter__"].

(** [o[k] = v]: overwrite in place, or append a new property. *)
Fixpoint obj_set (o : Obj) (k : string) (v : JsVal) : Obj :=
  match o with
  | [] => [(k, v)]
  | (k', v') :: o' =>
      if String.eqb k' k then (k', v) :: o' else (k', v') :: obj_set o' k v
  end.

(** [Object.keys(o)]. *)
Definition keys (o : Obj) : list string := map fst o.

(** ToBoolean of [o[k]] for an object literal [o]: its own property when it
    has one, what it inherits otherwise. *)
Definition truthy_at (o : Obj) (k : string) : bool :=
  if bool_decide (k ∈ keys o) then truthy (obj_get o k)
  else bool_decide (k ∈ inherited).

(** [v.k]: reading a property of [null] or [undefined] throws a TypeError
    ([None]); a primitive has no own property. *)
Definition get (v : JsVal) (k : string) : option JsVal :=
  match v with
  | JUndefined | JNull => None
  | JObj o => Some (obj_get o k)
  | _ => Some JUndefined
  end.

(** [typeof v === 'undefined']. *)
Definition is_undefined (v : JsVal) : bool :=
  match v with JUndefined => true | _ => false end.

(** ['' + v]: ToString; an array joins its elements with commas. *)
Fixpoint to_string (v : JsVal) : string :=
  match v with
  | JUndefined => "undefined"
  | JNull => "null"
  | JBool true => "true"
  | JBool false => "false"
  | JNum n => pretty n
  | JStr s => s
  | JArr xs =>
      (fix join (xs : list JsVal) : string :=
         match xs with
         | [] => ""
         | x :: xs' =>
             let sx := match x with
                       | JUndefined | JNull => ""
                       | _ => to_string x
                       end in
             match xs' with
             | [] => sx
             | _ => sx +:+ "," +:+ join xs'
             end
         end) xs
  | JObj _ => "[object Object]"
  end.

(** A record identifier, [{String|Number}] in the source's JSDoc. *)
Inductive RecordId :=
| IdNum (n : Z)
| IdStr (s : string).

Definition id_val (i : RecordId) : JsVal :=
  match i with IdNum n => JNum n | IdStr s => JStr s end.

(** [Number.isSafeInteger]: the integers a number holds exactly. *)
Definition safe_integer (n : Z) : bool :=
  Z.leb (Z.abs n) 9007199254740991.


(** An identifier JavaScript can hold: a string, or a safe integer. *)
Definition safe_id (i : RecordId) : bool :=
  match i with IdNum n => safe_integer n | IdStr _ => true end.

(** ['' + id]: a safe integer prints as its decimal digits.  (A larger
    number is rounded to the nearest double and printed from its shortest
    digits, in exponent form from 1e21 on; such identifiers are kept out by
    [safe_id].) *)
Definition id_to_string (i : RecordId) : string :=
  match i with IdNum n => pretty n | IdStr s => s end.

(** [Math.round]: the nearest integer, ties towards plus infinity. *)
Definition Math_round (q : Q) : Z := Qfloor (q + (1 # 2)).

(** What a synchronous call yields: a value or a thrown exception. *)
Inductive Thrown :=
| TypeError
| ErrorMsg (msg : string).

Inductive Outcome (A : Type) :=
| Returns (a : A)
| Throws (t : Thrown).
Arguments Returns {A} a.
Arguments Throws {A} t.

(** A settled promise. *)
Inductive Settled :=
| Fulfilled (v : JsVal)
| Rejected (e : JsVal).

End Js.
Import Js.

(** ** services/sails-socket.js: SailsSocketService *)

Module SailsSocketService.

(** *** Answers to socket requests *)

(** The JSON WebSocket Response of sails.io.js. *)
Record JWR := { statusCode : Z; body : JsVal }.

(** What the promise of [request] is settled with; a rejection carries
    [jwr || data]. *)
Inductive Answer :=
| Resolve (data : JsVal)
| RejectJwr (jwr : JWR)
| RejectData (data : JsVal)
| RejectDestroyed.

(** The callback [request] pushes onto the arguments of [socket[method]]:
    [(data, jwr) => ...]; [jwr] is [None] when it is missing. *)
Definition on_response (data : JsVal) (jwr : option JWR) : Answer :=
  match jwr with
  | None => RejectData data
  | Some j =>
      if Z.eqb (Math_round (inject_Z (statusCode j) / inject_Z 100)) 2
      then Resolve data
      else RejectJwr j
  end.


(** *** The raw socket, as far as the service touches it *)

(** A listener attached with [addEventListener]: the bound
    [_handleSocketConnect], [_handleSocketDisconnect], or
    [_handleSocketMessage] bound to its event. *)
Inductive RawListener :=
| LConnect
| LDisconnect
| LMessage (event : string).

#[global] Instance RawListener_eq_dec : EqDecision RawListener.
Proof. solve_decision. Defined.

Record RawSocket := {
  serial : nat;
  connected : bool;
  connecting : bool;
  attached : list RawListener;
}.

(** The SailsSocket that [io.sails.connect] returns; its [_raw] is missing
    until socket.io has built it. *)
Record SailsSocket := { _raw : option RawSocket }.

(** *** Callers of the service *)

(** What an application handler may do to the service while an event is
    being triggered. *)
Inductive Call :=
| CRequest (id : nat)
| CListenFor (event : string) (listen : option bool).

(** Handlers of the service's own events: the one-shot [didConnect] callback
    of [_connectedSocket], or a handler of the application. *)
Inductive Handler :=
| HFlushWaiting
| HExternal (calls : list Call).

(** Work handed to the run loop with [next] or [later]. *)
Inductive Task :=
| TGive (cb : nat) (error : bool)
| TReady
| TConnect
| TLoad
| TWaitObject.

#[global] Instance Task_eq_dec : EqDecision Task.
Proof. solve_decision. Defined.

Record State := {
  alive : bool;
  isInitialized : bool;
  isConnected : bool;
  pendingOperationCount : Z;
  _listeners : gmap string bool;
  _sailsSocket : option SailsSocket;
  _waitingForSockets : option (list nat);
  subscribers : list (string * Handler * bool);
  tasks : list Task;
  ioReady : bool;
  fired : list string;
  connects : nat;
  sent : list nat;
  answers : list (nat * Answer);
  crashed : bool;
}.

(** Field updates: [this.f = x]. *)

Definition set_alive (x : bool) (s : State) : State :=
  {| alive := x; isInitialized := isInitialized s;
     isConnected := isConnected s;
     pendingOperationCount := pendingOperationCount s;
     _listeners := _listeners s; _sailsSocket := _sailsSocket s;
     _waitingForSockets := _waitingForSockets s;
     subscribers := subscribers s; tasks := tasks s; ioReady := ioReady s;
     fired := fired s; connects := connects s; sent := sent s;
     answers := answers s; crashed := crashed s |}.

Definition set_isInitialized (x : bool) (s : State) : State :=
  {| alive := alive s; isInitialized := x; isConnected := isConnected s;
     pendingOperationCount := pendingOperationCount s;
     _listeners := _listeners s; _sailsSocket := _sailsSocket s;
     _waitingForSockets := _waitingForSockets s;
     subscribers := subscribers s; tasks := tasks s; ioReady := ioReady s;
     fired := fired s; connects := connects s; sent := sent s;
     answers := answers s; crashed := crashed s |}.

Definition set_isConnected (x : bool) (s : State) : State :=
  {| alive := alive s; isInitialized := isInitialized s; isConnected := x;
     pendingOperationCount := pendingOperationCount s;
     _listeners := _listeners s; _sailsSocket := _sailsSocket s;
     _waitingForSockets := _waitingForSockets s;
     subscribers := subscribers s; tasks := tasks s; ioReady := ioReady s;
     fired := fired s; connects := connects s; sent := sent s;
     answers := answers s; crashed := crashed s |}.

Definition set_pendingOperationCount (x : Z) (s : State) : State :=
  {| alive := alive s; isInitialized := isInitialized s;
     isConnected := isConnected s; pendingOperationCount := x;
     _listeners := _listeners s; _sailsSocket := _sailsSocket s;
     _waitingForSockets := _waitingForSockets s;
     subscribers := subscribers s; tasks := tasks s; ioReady := ioReady s;
     fired := fired s; connects := connects s; sent := sent s;
     answers := answers s; crashed := crashed s |}.

Definition set__listeners (x : gmap string bool) (s : State) : State :=
  {| alive := alive s; isInitialized := isInitialized s;
     isConnected := isConnected s;
     pendingOperationCount := pendingOperationCount s; _listeners := x;
     _sailsSocket := _sailsSocket s;
     _waitingForSockets := _waitingForSockets s;
     subscribers := subscribers s; tasks := tasks s; ioReady := ioReady s;
     fired := fired s; connects := connects s; sent := sent s;
     answers := answers s; crashed := crashed s |}.

Definition set__sailsSocket (x : option SailsSocket) (s : State) : State :=
  {| alive := alive s; isInitialized := isInitialized s;
     isConnected := isConnected s;
     pendingOperationCount := pendingOperationCount s;
     _listeners := _listeners s; _sailsSocket := x;
     _waitingForSockets := _waitingForSockets s;
     subscribers := subscribers s; tasks := tasks s; ioReady := ioReady s;
     fired := fired s; connects := connects s; sent := sent s;
     answers := answers s; crashed := crashed s |}.

Definition set__waitingForSockets (x : option (list nat)) (s : State) : State :=
  {| alive := alive s; isInitialized := isInitialized s;
     isConnected := isConnected s;
     pendingOperationCount := pendingOperationCount s;
     _listeners := _listeners s; _sailsSocket := _sailsSocket s;
     _waitingForSockets := x; subscribers := subscribers s; tasks := tasks s;
     ioReady := ioReady s; fired := fired s; connects := connects s;
     sent := sent s; answers := answers s; crashed := crashed s |}.

Definition set_subscribers (x : list (string * Handler * bool)) (s : State) : State :=
  {| alive := alive s; isInitialized := isInitialized s;
     isConnected := isConnected s;
     pendingOperationCount := pendingOperationCount s;
     _listeners := _listeners s; _sailsSocket := _sailsSocket s;
     _waitingForSockets := _waitingForSockets s; subscribers := x;
     tasks := tasks s; ioReady := ioReady s; fired := fired s;
     connects := connects s; sent := sent s; answers := answers s;
     crashed := crashed s |}.

Definition set_tasks (x : list Task) (s : State) : State :=
  {| alive := alive s; isInitialized := isInitialized s;
     isConnected := isConnected s;
     pendingOperationCount := pendingOperationCount s;
     _listeners := _listeners s; _sailsSocket := _sailsSocket s;
     _waitingForSockets := _waitingForSockets s;
     subscribers := subscribers s; tasks := x; ioReady := ioReady s;
     fired := fired s; connects := connects s; sent := sent s;
     answers := answers s; crashed := crashed s |}.

Definition set_ioReady (x : bool) (s : State) : State :=
  {| alive := alive s; isInitialized := isInitialized s;
     isConnected := isConnected s;
     pendingOperationCount := pendingOperationCount s;
     _listeners := _listeners s; _sailsSocket := _sailsSocket s;
     _waitingForSockets := _waitingForSockets s;
     subscribers := subscribers s; tasks := tasks s; ioReady := x;
     fired := fired s; connects := connects s; sent := sent s;
     answers := answers s; crashed := crashed s |}.

Definition set_fired (x : list string) (s : State) : State :=
  {| alive := alive s; isInitialized := isInitialized s;
     isConnected := isConnected s;
     pendingOperationCount := pendingOperationCount s;
     _listeners := _listeners s; _sailsSocket := _sailsSocket s;
     _waitingForSockets := _waitingForSockets s;
     subscribers := subscribers s; tasks := tasks s; ioReady := ioReady s;
     fired := x; connects := connects s; sent := sent s;
     answers := answers s; crashed := crashed s |}.

Definition set_connects (x : nat) (s : State) : State :=
  {| alive := alive s; isInitialized := isInitialized s;
     isConnected := isConnected s;
     pendingOperationCount := pendingOperationCount s;
     _listeners := _listeners s; _sailsSocket := _sailsSocket s;
     _waitingForSockets := _waitingForSockets s;
     subscribers := subscribers s; tasks := tasks s; ioReady := ioReady s;
     fired := fired s; connects := x; sent := sent s; answers := answers s;
     crashed := crashed s |}.

Definition set_sent (x : list nat) (s : State) : State :=
  {| alive := alive s; isInitialized := isInitialized s;
     isConnected := isConnected s;
     pendingOperationCount := pendingOperationCount s;
     _listeners := _listeners s; _sailsSocket := _sailsSocket s;
     _waitingForSockets := _waitingForSockets s;
     subscribers := subscribers s; tasks := tasks s; ioReady := ioReady s;
     fired := fired s; connects := connects s; sent := x;
     answers := answers s; crashed := crashed s |}.

Definition set_answers (x : list (nat * Answer)) (s : State) : State :=
  {| alive := alive s; isInitialized := isInitialized s;
     isConnected := isConnected s;
     pendingOperationCount := pendingOperationCount s;
     _listeners := _listeners s; _sailsSocket := _sailsSocket s;
     _waitingForSockets := _waitingForSockets s;
     subscribers := subscribers s; tasks := tasks s; ioReady := ioReady s;
     fired := fired s; connects := connects s; sent := sent s; answers := x;
     crashed := crashed s |}.

Definition set_crashed (x : bool) (s : State) : State :=
  {| alive := alive s; isInitialized := isInitialized s;
     isConnected := isConnected s;
     pendingOperationCount := pendingOperationCount s;
     _listeners := _listeners s; _sailsSocket := _sailsSocket s;
     _waitingForSockets := _waitingForSockets s;
     subscribers := subscribers s; tasks := tasks s; ioReady := ioReady s;
     fired := fired s; connects := connects s; sent := sent s;
     answers := answers s; crashed := x |}.

(** The constructor. *)
Definition init : State :=
  {| alive := true; isInitialized := false; isConnected := false;
     pendingOperationCount := 0; _listeners := ∅; _sailsSocket := None;
     _waitingForSockets := None; subscribers := []; tasks := [];
     ioReady := false; fired := []; connects := 0; sent := []; answers := [];
     crashed := false |}.

(** *** Methods *)

(** [isAlive(this)]. *)
Definition isAlive (s : State) : bool := alive s.

(** [incrementProperty('pendingOperationCount', d)]. *)
Definition incPending (d : Z) (s : State) : State :=
  set_pendingOperationCount (pendingOperationCount s + d) s.

(** An uncaught TypeError (a property read on [null] or [undefined]). *)
Definition crash (s : State) : State := set_crashed true s.

(** [this._sailsSocket._raw]. *)
Definition raw_of (s : State) : option RawSocket :=
  match _sailsSocket s with
  | Some sock => _raw sock
  | None => None
  end.

Definition set_raw (r : RawSocket) (s : State) : State :=
  set__sailsSocket (Some {| _raw := Some r |}) s.

Definition addEventListener (l : RawListener) (r : RawSocket) : RawSocket :=
  {| serial := serial r; connected := connected r; connecting := connecting r;
     attached := attached r ++ [l] |}.

Fixpoint remove_first (l : RawListener) (ls : list RawListener) : list RawListener :=
  match ls with
  | [] => []
  | l' :: ls' => if decide (l' = l) then ls' else l' :: remove_first l ls'
  end.

Definition removeEventListener (l : RawListener) (r : RawSocket) : RawSocket :=
  {| serial := serial r; connected := connected r; connecting := connecting r;
     attached := remove_first l (attached r) |}.

Definition set_connection (c g : bool) (r : RawSocket) : RawSocket :=
  {| serial := serial r; connected := c; connecting := g;
     attached := attached r |}.

(** A call of a method of [this._sailsSocket._raw]. *)
Definition with_raw (f : RawSocket -> RawSocket) (s : State) : State :=
  match raw_of s with
  | Some r => set_raw (f r) s
  | None => crash s
  end.

(** [next(this, ...)] and [later(..., 10)]. *)
Definition schedule (t : Task) (s : State) : State :=
  set_tasks (tasks s ++ [t]) s.

(** [listenFor(event, listen)]; [listen] is [None] for [null]/[undefined].
    [_listeners] is an object literal: for an [event] that is a name of
    [Object.prototype] and no property of its own, [this._listeners[event]]
    is truthy.  Such an event is never added; asked to stop, the service
    finds nothing of its own to delete and calls [removeEventListener] with
    the [undefined] its [meta.method] is. *)
Definition listenFor (event : string) (listen : option bool) (s : State)
  : bool * State :=
  let listen := default true listen in
  match listen, _listeners s !! event with
  | true, None =>
      if bool_decide (event ∈ inherited) then (false, s)
      else if isConnected s then
        (true, with_raw (addEventListener (LMessage event))
                 (set__listeners (<[event := true]> (_listeners s)) s))
      else (true, set__listeners (<[event := false]> (_listeners s)) s)
  | false, Some _ =>
      if isConnected s then
        (true, with_raw (removeEventListener (LMessage event))
                 (set__listeners (delete event (_listeners s)) s))
      else (true, set__listeners (delete event (_listeners s)) s)
  | false, None =>
      if bool_decide (event ∈ inherited) then
        if isConnected s
        then (true, with_raw (removeEventListener (LMessage event)) s)
        else (true, s)
      else (false, s)
  | true, Some _ => (false, s)
  end.

(** The callback [request] gives to [_connectedSocket], called with
    [(error, socket)]: it sends, or gives up. *)
Definition give (cb : nat) (error : bool) (s : State) : State :=
  if isAlive s && negb error then set_sent (sent s ++ [cb]) s
  else set_answers (answers s ++ [(cb, RejectDestroyed)]) (incPending (-1) s).

(** The server's answer reaches the callback pushed by [request]. *)
Definition respond (cb : nat) (data : JsVal) (jwr : option JWR) (s : State)
  : State :=
  set_answers (answers s ++ [(cb, on_response data jwr)]) (incPending (-1) s).

(** [waitObject] of [_handleSocketReady] and of [_reconnect] (the same
    body). *)
Definition waitObject (s : State) : State :=
  match _sailsSocket s with
  | None => crash s
  | Some sock =>
      match _raw sock with
      | Some r =>
          let s' :=
            set_raw (addEventListener LDisconnect (addEventListener LConnect r)) s in
          if connected r then schedule TConnect s' else s'
      | None => schedule TWaitObject s
      end
  end.

(** The raw socket sails.io.js builds on [reconnect()]: the client library
    replaces [_raw] by a new socket.io socket, which is connecting and has
    no listener yet, before [reconnect()] returns. *)
Definition fresh_raw (n : nat) : RawSocket :=
  {| serial := n; connected := false; connecting := true; attached := [] |}.

Definition _reconnect (s : State) : State :=
  match _sailsSocket s with
  | None => crash s
  | Some sock =>
      match _raw sock with
      | Some r =>
          if negb (connected r) && negb (connecting r)
          then waitObject (set_raw (fresh_raw (S (serial r))) s)
          else s
      | None => s
      end
  end.

(** [this._loaded] is never set. *)
Definition _load (s : State) : State :=
  if ioReady s then schedule TReady s else schedule TLoad s.

(** [one(name, handler)] and [on(name, handler)]. *)
Definition subscribe (name : string) (h : Handler) (once : bool) (s : State)
  : State :=
  set_subscribers (subscribers s ++ [(name, h, once)]) s.

Definition _connectedSocket (cb : nat) (s : State) : State :=
  if negb (isAlive s) then schedule (TGive cb true) s
  else if isConnected s then schedule (TGive cb false) s
  else
    let waiting := default [] (_waitingForSockets s) ++ [cb] in
    let s := set__waitingForSockets (Some waiting) s in
    if (1 <? length waiting)%nat then s
    else
      let s := subscribe "didConnect" HFlushWaiting true s in
      if isInitialized s then _reconnect s else _load s.

Definition request (id : nat) (s : State) : State :=
  _connectedSocket id (incPending 1 s).

Definition do_call (c : Call) (s : State) : State :=
  match c with
  | CRequest id => request id s
  | CListenFor event listen => (listenFor event listen s).2
  end.

(** The [didConnect] callback registered by [_connectedSocket]. *)
Definition flushWaiting (s : State) : State :=
  foldl (fun s cb => give cb false s)
        (set__waitingForSockets None s)
        (default [] (_waitingForSockets s)).

Definition run_handler (h : Handler) (s : State) : State :=
  match h with
  | HFlushWaiting => flushWaiting s
  | HExternal calls => foldl (fun s c => do_call c s) s calls
  end.

Definition named (name : string) (e : string * Handler * bool) : bool :=
  String.eqb e.1.1 name.

(** [trigger(name)]: [sendEvent] drops the one-shot handlers, then calls
    every handler of the event. *)
Definition trigger (name : string) (s : State) : State :=
  let hs := filter (fun e => named name e = true) (subscribers s) in
  let keep := filter (fun e => (named name e && e.2) = false) (subscribers s) in
  foldl (fun s e => run_handler e.1.2 s)
        (set_subscribers keep (set_fired (fired s ++ [name]) s))
        hs.

(** The events [_bindListeners] has to attach. *)
Definition unbound (s : State) : list string :=
  (map_to_list (filter (fun kv => kv.2 = false) (_listeners s))).*1.

Definition bound (s : State) : list string :=
  (map_to_list (filter (fun kv => kv.2 = true) (_listeners s))).*1.

Definition _bindListeners (s : State) : State :=
  match unbound s with
  | [] => s
  | evs =>
      match raw_of s with
      | None => crash s
      | Some r =>
          set_raw (foldl (fun r ev => addEventListener (LMessage ev) r) r evs)
                  (set__listeners ((fun _ => true) <$> _listeners s) s)
      end
  end.

Definition _unbindListeners (s : State) : State :=
  match bound s with
  | [] => s
  | evs =>
      match raw_of s with
      | None => crash s
      | Some r =>
          set_raw (foldl (fun r ev => removeEventListener (LMessage ev) r) r evs)
                  (set__listeners ((fun _ => false) <$> _listeners s) s)
      end
  end.

(** [event + (message && message.verb ? '.' + message.verb : '')]. *)
Definition message_event_name (event : string) (message : JsVal) : string :=
  match message with
  | JObj o =>
      if truthy (obj_get o "verb")
      then event +:+ "." +:+ to_string (obj_get o "verb")
      else event
  | _ => event
  end.

Definition _handleSocketMessage (event : string) (message : JsVal) (s : State)
  : State :=
  if negb (isAlive s) then s
  else trigger (message_event_name event message) s.

(** [io.sails.connect(this.socketUrl)]: the SailsSocket returned has no
    [_raw] yet; the client library creates it on a later turn, which is why
    [waitObject] polls for it. *)
Definition io_sails_connect (s : State) : State :=
  set__sailsSocket (Some {| _raw := None |}) (set_connects (S (connects s)) s).

Definition _handleSocketReady (s : State) : State :=
  if negb (isAlive s) then s
  else waitObject (io_sails_connect
         (trigger "didInitialize" (set_isInitialized true s))).

Definition _handleSocketConnect (s : State) : State :=
  if negb (isAlive s) then s
  else trigger "didConnect" (set_isConnected true (_bindListeners s)).

Definition _handleSocketDisconnect (s : State) : State :=
  if negb (isAlive s) then s
  else _unbindListeners (trigger "didDisconnect" (set_isConnected false s)).

(** [willDestroy]; the framework has marked the service as destroying. *)
Definition willDestroy (s : State) : State :=
  let s := set_alive false s in
  if isConnected s then
    match raw_of s with
    | Some r => set_raw (set_connection false false r) s
    | None => crash s
    end
  else s.

(** *** The event loop *)

Inductive Input :=
| DoRequest (id : nat)
| DoListenFor (event : string) (listen : option bool)
| DoOn (name : string) (calls : list Call) (once : bool)
| RunTask (i : nat)
| EnvIoReady
| EnvRawCreated
| EnvRawConnect
| EnvRawDisconnect
| EnvRawConnecting (b : bool)
| EnvRawMessage (event : string) (message : JsVal)
| EnvResponse (id : nat) (data : JsVal) (jwr : option JWR)
| Destroy.

Definition run_task (t : Task) (s : State) : State :=
  match t with
  | TGive cb error => give cb error s
  | TReady => _handleSocketReady s
  | TConnect => _handleSocketConnect s
  | TLoad => _load s
  | TWaitObject => waitObject s
  end.

(** The raw socket emits an event: each listener attached for it runs. *)
Definition emit (l : RawListener) (f : State -> State) (s : State) : State :=
  match raw_of s with
  | Some r => Nat.iter (count_occ RawListener_eq_dec (attached r) l) f s
  | None => s
  end.

Definition step (i : Input) (s : State) : State :=
  match i with
  | DoRequest id => request id s
  | DoListenFor event listen => (listenFor event listen s).2
  | DoOn name calls once => subscribe name (HExternal calls) once s
  | RunTask i =>
      match tasks s !! i with
      | Some t => run_task t (set_tasks (delete i (tasks s)) s)
      | None => s
      end
  | EnvIoReady => set_ioReady true s
  | EnvRawCreated =>
      match _sailsSocket s with
      | Some {| _raw := None |} => set_raw (fresh_raw 0) s
      | _ => s
      end
  | EnvRawConnect =>
      match raw_of s with
      | Some r => emit LConnect _handleSocketConnect
                    (set_raw (set_connection true false r) s)
      | None => s
      end
  | EnvRawDisconnect =>
      match raw_of s with
      | Some r => emit LDisconnect _handleSocketDisconnect
                    (set_raw (set_connection false false r) s)
      | None => s
      end
  | EnvRawConnecting b =>
      match raw_of s with
      | Some r => set_raw (set_connection (connected r) b r) s
      | None => s
      end
  | EnvRawMessage event message =>
      emit (LMessage event) (_handleSocketMessage event message) s
  | EnvResponse id data jwr => respond id data jwr s
  | Destroy => willDestroy s
  end.

Definition run (inputs : list Input) (s : State) : State :=
  foldl (fun s i => step i s) s inputs.

(** *** Invariants of the life cycle *)

(** The initialisations under way: [_load] polling, or
    [_handleSocketReady] due. *)
Definition pending_init (s : State) : nat :=
  (count_occ Task_eq_dec (tasks s) TReady
   + count_occ Task_eq_dec (tasks s) TLoad)%nat.

(** Not initialized: no socket, nothing connected or fired; initialized:
    [didInitialize] was fired first and [io.sails.connect] ran once. *)
Definition life_cycle (s : State) : Prop :=
  if isInitialized s then
    (exists l, fired s = "didInitialize" :: l) /\
    _sailsSocket s <> None /\ connects s = 1%nat /\ pending_init s = 0%nat
  else
    isConnected s = false /\ _sailsSocket s = None /\ (TConnect ∉ tasks s) /\
    fired s = [] /\ connects s = 0%nat /\ (pending_init s <= 1)%nat /\
    (_waitingForSockets s = None -> pending_init s = 0%nat).

(** Every registered listener is marked as the connection is, and attached
    to the current raw socket while the service is connected. *)
Definition listeners_follow (s : State) : Prop :=
  (forall ev b, _listeners s !! ev = Some b -> b = isConnected s) /\
  (isConnected s = true ->
   exists r, raw_of s = Some r /\
     forall ev, is_Some (_listeners s !! ev) -> LMessage ev ∈ attached r) /\
  (TConnect ∈ tasks s -> raw_of s <> None).

Definition invariant (s : State) : Prop :=
  life_cycle s /\ _waitingForSockets s <> Some [] /\ listeners_follow s.

(** While [_handleSocketReady] triggers [didInitialize]. *)
Definition readying (s : State) : Prop :=
  isInitialized s = true /\ isConnected s = false /\ _sailsSocket s = None /\
  (TConnect ∉ tasks s) /\ pending_init s = 0%nat /\ connects s = 0%nat /\
  (exists l, fired s = "didInitialize" :: l) /\
  _waitingForSockets s <> Some [] /\
  (forall ev b, _listeners s !! ev = Some b -> b = false).

(** While [_handleSocketDisconnect] triggers [didDisconnect]. *)
Definition disconnecting (s : State) : Prop :=
  life_cycle s /\ _waitingForSockets s <> Some [] /\
  isConnected s = false /\ raw_of s <> None.

(** An input that uses the socket. *)
Definition uses_socket (i : Input) : bool :=
  match i with DoRequest _ => true | _ => false end.

(** Initialized, with the invariant: where every [trigger] finds the
    service. *)
Definition warm (s : State) : Prop := isInitialized s = true /\ invariant s.

(** What the handlers of an event leave alone. *)
Definition status (a b : bool) (s : State) : Prop :=
  isInitialized s = a /\ isConnected s = b.

Definition initialized (s : State) : Prop := isInitialized s = true.

(** Nothing has happened: the service before its first request. *)
Definition quiet (s : State) : Prop :=
  isInitialized s = false /\ isConnected s = false /\ _sailsSocket s = None /\
  tasks s = [] /\ connects s = 0%nat.

End SailsSocketService.

(** ** adapters/sails-base.js and adapters/sails-socket.js *)

Module SailsAdapter.

(** *** Error payloads (sails-base.js) *)

(** [v.k], for a [v] known not to be [null] or [undefined]. *)
Definition prop (v : JsVal) (k : string) : JsVal :=
  default JUndefined (get v k).

(** [isErrorObject(data)]. *)
Definition isErrorObject (data : JsVal) : bool :=
  truthy data && truthy (prop data "error") && truthy (prop data "model")
  && truthy (prop data "summary") && truthy (prop data "status").

(** The own enumerable properties [Object.keys] walks; [None] is the
    TypeError on [null] and [undefined]. *)
Definition own_entries (v : JsVal) : option Obj :=
  match v with
  | JUndefined | JNull => None
  | JBool _ | JNum _ => Some []
  | JStr s =>
      Some (imap (fun i c => (pretty i, JStr (String c EmptyString)))
                 (String.list_ascii_of_string s))
  | JArr xs => Some (imap (fun i x => (pretty i, x)) xs)
  | JObj o => Some o
  end.

(** [errs.map(err => err.message)]: only an array has [map]. *)
Definition messages (errs : JsVal) : Outcome JsVal :=
  match errs with
  | JArr es =>
      match mapM (fun e => get e "message") es with
      | Some ms => Returns (JArr ms)
      | None => Throws TypeError
      end
  | _ => Throws TypeError
  end.

(** [formatError(error)]: the [reduce] over the keys of
    [error.invalidAttributes]. *)
Definition formatError (error : JsVal) : Outcome Obj :=
  match get error "invalidAttributes" with
  | None => Throws TypeError
  | Some ia =>
      match own_entries ia with
      | None => Throws TypeError
      | Some entries =>
          foldl (fun memo property =>
                   match memo with
                   | Throws t => Throws t
                   | Returns m =>
                       match messages (obj_get entries property) with
                       | Returns ms => Returns (obj_set m property ms)
                       | Throws t => Throws t
                       end
                   end)
                (Returns []) (keys entries)
      end
  end.

(** The messages of one invalid attribute. *)
Definition attribute_messages (kv : string * JsVal) : string * JsVal :=
  match kv.2 with
  | JArr es => (kv.1, JArr ((fun e => prop e "message") <$> es))
  | _ => (kv.1, JUndefined)
  end.

(** Every attribute holds an array of error objects, none of them [null]
    or [undefined]; the names of the attributes are distinct, as the
    properties of an object are, and none is [__proto__], which
    [memo[property] = ...] would not add to [memo]. *)
Definition well_shaped (ia : Obj) : Prop :=
  NoDup (keys ia) /\ ("__proto__" ∉ keys ia) /\
  Forall (fun kv => exists es, kv.2 = JArr es /\
                      Forall (fun e => is_Some (get e "message")) es) ia.

(** What a failed request is turned into: the host's [InvalidError], a
    plain [Error] built from the payload, or the error the [ajaxError] of the
    parent class made. *)
Inductive AdapterError :=
| InvalidError (errors : Obj)
| GenericError (data : JsVal)
| ParentError (error : JsVal).

Section Parsing.

(** [JSON.parse]; [None] when it throws. *)
Variable JSON_parse : string -> option JsVal.

(** [super.ajaxError]: the error the method of the parent class returns, or
    [None] when the parent class has no such method.  The [RESTAdapter] of
    [@ember-data/adapter/rest], which [SailsBase] extends, has none: the call
    is then a TypeError. *)
Variable super_ajaxError : option JsVal.

(** [ajaxError(jqXHR)], from [jqXHR.responseText]. *)
Definition ajaxError (responseText : JsVal) : Outcome AdapterError :=
  match super_ajaxError with
  | None => Throws TypeError
  | Some error =>
      let data := match JSON_parse (to_string responseText) with
                  | Some d => d
                  | None => responseText
                  end in
      match get data "errors" with
      | None => Throws TypeError
      | Some errors =>
          if truthy errors then
            match formatError data with
            | Returns e => Returns (InvalidError e)
            | Throws t => Throws t
            end
          else if truthy data then Returns (GenericError data)
          else Returns (ParentError error)
      end
  end.

End Parsing.

(** How the promise of [ajax] ends. *)
Inductive AjaxResult :=
| AjaxResolved (response : JsVal)
| AjaxInvalid (errors : Obj)
| AjaxRejected (reason : JsVal)
| AjaxThrew (t : Thrown).

(** The [then]/[catch] pair of [processRequest] in [ajax], applied to the
    way [_request] settled. *)
Definition processRequest (settled : Settled) : AjaxResult :=
  match settled with
  | Fulfilled response =>
      if isErrorObject response then
        if truthy (prop response "errors") then
          match formatError response with
          | Returns e => AjaxInvalid e
          | Throws t => AjaxThrew t
          end
        else AjaxRejected response
      else AjaxResolved response
  | Rejected error => AjaxRejected error
  end.

(** *** The adapter, its store and its run loop *)

(** A record of the store: its data and the [dirtyType] of its local
    changes ([undefined] for a clean record). *)
Record StoreRecord := { data : Obj; dirtyType : JsVal }.

(** The handlers [_listenToSocket] binds, each with its model type. *)
Inductive BoundHandler :=
| HCreated (type : string)
| HUpdated (type : string)
| HDeleted (type : string).

(** A call of [sailsSocket.request(method, url, data)]. *)
Record SocketCall := { call_method : string; call_url : JsVal; call_data : Obj }.

(** Callbacks registered on promises. *)
Inductive Reaction :=
| OnToken (src dst : nat)
| OnFetchError (src dst : nat)
| OnFetchDone (src dst : nat)
| OnSubscribeReady (src : nat) (method endpoint : JsVal) (payload : nat).

Record World := {
  useCSRF : bool;
  csrfToken : JsVal;
  _csrfTokenLoadingPromise : option nat;
  _scheduledSubscriptions : option Obj;
  subscribeMethod : JsVal;
  subscribeEndpoint : JsVal;
  sailsSocket : SailsSocketService.State;
  handlers : list (string * BoundHandler);
  outbox : list SocketCall;
  loaded : gmap (string * string) StoreRecord;
  pushed : list (string * Obj);
  promises : list (option Settled);
  reactions : list Reaction;
  actions : list (string * list JsVal);
  debounced : option nat;
  fetches : list nat;
  heap : gmap nat Obj;
}.

Definition set_useCSRF (x : bool) (w : World) : World :=
  {| useCSRF := x; csrfToken := csrfToken w;
     _csrfTokenLoadingPromise := _csrfTokenLoadingPromise w;
     _scheduledSubscriptions := _scheduledSubscriptions w;
     subscribeMethod := subscribeMethod w;
     subscribeEndpoint := subscribeEndpoint w; sailsSocket := sailsSocket w;
     handlers := handlers w; outbox := outbox w; loaded := loaded w;
     pushed := pushed w; promises := promises w; reactions := reactions w;
     actions := actions w; debounced := debounced w; fetches := fetches w;
     heap := heap w |}.

Definition set_csrfToken (x : JsVal) (w : World) : World :=
  {| useCSRF := useCSRF w; csrfToken := x;
     _csrfTokenLoadingPromise := _csrfTokenLoadingPromise w;
     _scheduledSubscriptions := _scheduledSubscriptions w;
     subscribeMethod := subscribeMethod w;
     subscribeEndpoint := subscribeEndpoint w; sailsSocket := sailsSocket w;
     handlers := handlers w; outbox := outbox w; loaded := loaded w;
     pushed := pushed w; promises := promises w; reactions := reactions w;
     actions := actions w; debounced := debounced w; fetches := fetches w;
     heap := heap w |}.

Definition set__csrfTokenLoadingPromise (x : option nat) (w : World) : World :=
  {| useCSRF := useCSRF w; csrfToken := csrfToken w;
     _csrfTokenLoadingPromise := x;
     _scheduledSubscriptions := _scheduledSubscriptions w;
     subscribeMethod := subscribeMethod w;
     subscribeEndpoint := subscribeEndpoint w; sailsSocket := sailsSocket w;
     handlers := handlers w; outbox := outbox w; loaded := loaded w;
     pushed := pushed w; promises := promises w; reactions := reactions w;
     actions := actions w; debounced := debounced w; fetches := fetches w;
     heap := heap w |}.

Definition set__scheduledSubscriptions (x : option Obj) (w : World) : World :=
  {| useCSRF := useCSRF w; csrfToken := csrfToken w;
     _csrfTokenLoadingPromise := _csrfTokenLoadingPromise w;
     _scheduledSubscriptions := x; subscribeMethod := subscribeMethod w;
     subscribeEndpoint := subscribeEndpoint w; sailsSocket := sailsSocket w;
     handlers := handlers w; outbox := outbox w; loaded := loaded w;
     pushed := pushed w; promises := promises w; reactions := reactions w;
     actions := actions w; debounced := debounced w; fetches := fetches w;
     heap := heap w |}.

Definition set_subscribeMethod (x : JsVal) (w : World) : World :=
  {| useCSRF := useCSRF w; csrfToken := csrfToken w;
     _csrfTokenLoadingPromise := _csrfTokenLoadingPromise w;
     _scheduledSubscriptions := _scheduledSubscriptions w;
     subscribeMethod := x; subscribeEndpoint := subscribeEndpoint w;
     sailsSocket := sailsSocket w; handlers := handlers w;
     outbox := outbox w; loaded := loaded w; pushed := pushed w;
     promises := promises w; reactions := reactions w; actions := actions w;
     debounced := debounced w; fetches := fetches w; heap := heap w |}.

Definition set_subscribeEndpoint (x : JsVal) (w : World) : World :=
  {| useCSRF := useCSRF w; csrfToken := csrfToken w;
     _csrfTokenLoadingPromise := _csrfTokenLoadingPromise w;
     _scheduledSubscriptions := _scheduledSubscriptions w;
     subscribeMethod := subscribeMethod w; subscribeEndpoint := x;
     sailsSocket := sailsSocket w; handlers := handlers w;
     outbox := outbox w; loaded := loaded w; pushed := pushed w;
     promises := promises w; reactions := reactions w; actions := actions w;
     debounced := debounced w; fetches := fetches w; heap := heap w |}.

Definition set_sailsSocket (x : SailsSocketService.State) (w : World) : World :=
  {| useCSRF := useCSRF w; csrfToken := csrfToken w;
     _csrfTokenLoadingPromise := _csrfTokenLoadingPromise w;
     _scheduledSubscriptions := _scheduledSubscriptions w;
     subscribeMethod := subscribeMethod w;
     subscribeEndpoint := subscribeEndpoint w; sailsSocket := x;
     handlers := handlers w; outbox := outbox w; loaded := loaded w;
     pushed := pushed w; promises := promises w; reactions := reactions w;
     actions := actions w; debounced := debounced w; fetches := fetches w;
     heap := heap w |}.

Definition set_handlers (x : list (string * BoundHandler)) (w : World) : World :=
  {| useCSRF := useCSRF w; csrfToken := csrfToken w;
     _csrfTokenLoadingPromise := _csrfTokenLoadingPromise w;
     _scheduledSubscriptions := _scheduledSubscriptions w;
     subscribeMethod := subscribeMethod w;
     subscribeEndpoint := subscribeEndpoint w; sailsSocket := sailsSocket w;
     handlers := x; outbox := outbox w; loaded := loaded w;
     pushed := pushed w; promises := promises w; reactions := reactions w;
     actions := actions w; debounced := debounced w; fetches := fetches w;
     heap := heap w |}.

Definition set_outbox (x : list SocketCall) (w : World) : World :=
  {| useCSRF := useCSRF w; csrfToken := csrfToken w;
     _csrfTokenLoadingPromise := _csrfTokenLoadingPromise w;
     _scheduledSubscriptions := _scheduledSubscriptions w;
     subscribeMethod := subscribeMethod w;
     subscribeEndpoint := subscribeEndpoint w; sailsSocket := sailsSocket w;
     handlers := handlers w; outbox := x; loaded := loaded w;
     pushed := pushed w; promises := promises w; reactions := reactions w;
     actions := actions w; debounced := debounced w; fetches := fetches w;
     heap := heap w |}.

Definition set_loaded (x : gmap (string * string) StoreRecord) (w : World) : World :=
  {| useCSRF := useCSRF w; csrfToken := csrfToken w;
     _csrfTokenLoadingPromise := _csrfTokenLoadingPromise w;
     _scheduledSubscriptions := _scheduledSubscriptions w;
     subscribeMethod := subscribeMethod w;
     subscribeEndpoint := subscribeEndpoint w; sailsSocket := sailsSocket w;
     handlers := handlers w; outbox := outbox w; loaded := x;
     pushed := pushed w; promises := promises w; reactions := reactions w;
     actions := actions w; debounced := debounced w; fetches := fetches w;
     heap := heap w |}.

Definition set_pushed (x : list (string * Obj)) (w : World) : World :=
  {| useCSRF := useCSRF w; csrfToken := csrfToken w;
     _csrfTokenLoadingPromise := _csrfTokenLoadingPromise w;
     _scheduledSubscriptions := _scheduledSubscriptions w;
     subscribeMethod := subscribeMethod w;
     subscribeEndpoint := subscribeEndpoint w; sailsSocket := sailsSocket w;
     handlers := handlers w; outbox := outbox w; loaded := loaded w;
     pushed := x; promises := promises w; reactions := reactions w;
     actions := actions w; debounced := debounced w; fetches := fetches w;
     heap := heap w |}.

Definition set_promises (x : list (option Settled)) (w : World) : World :=
  {| useCSRF := useCSRF w; csrfToken := csrfToken w;
     _csrfTokenLoadingPromise := _csrfTokenLoadingPromise w;
     _scheduledSubscriptions := _scheduledSubscriptions w;
     subscribeMethod := subscribeMethod w;
     subscribeEndpoint := subscribeEndpoint w; sailsSocket := sailsSocket w;
     handlers := handlers w; outbox := outbox w; loaded := loaded w;
     pushed := pushed w; promises := x; reactions := reactions w;
     actions := actions w; debounced := debounced w; fetches := fetches w;
     heap := heap w |}.

Definition set_reactions (x : list Reaction) (w : World) : World :=
  {| useCSRF := useCSRF w; csrfToken := csrfToken w;
     _csrfTokenLoadingPromise := _csrfTokenLoadingPromise w;
     _scheduledSubscriptions := _scheduledSubscriptions w;
     subscribeMethod := subscribeMethod w;
     subscribeEndpoint := subscribeEndpoint w; sailsSocket := sailsSocket w;
     handlers := handlers w; outbox := outbox w; loaded := loaded w;
     pushed := pushed w; promises := promises w; reactions := x;
     actions := actions w; debounced := debounced w; fetches := fetches w;
     heap := heap w |}.

Definition set_actions (x : list (string * list JsVal)) (w : World) : World :=
  {| useCSRF := useCSRF w; csrfToken := csrfToken w;
     _csrfTokenLoadingPromise := _csrfTokenLoadingPromise w;
     _scheduledSubscriptions := _scheduledSubscriptions w;
     subscribeMethod := subscribeMethod w;
     subscribeEndpoint := subscribeEndpoint w; sailsSocket := sailsSocket w;
     handlers := handlers w; outbox := outbox w; loaded := loaded w;
     pushed := pushed w; promises := promises w; reactions := reactions w;
     actions := x; debounced := debounced w; fetches := fetches w;
     heap := heap w |}.

Definition set_debounced (x : option nat) (w : World) : World :=
  {| useCSRF := useCSRF w; csrfToken := csrfToken w;
     _csrfTokenLoadingPromise := _csrfTokenLoadingPromise w;
     _scheduledSubscriptions := _scheduledSubscriptions w;
     subscribeMethod := subscribeMethod w;
     subscribeEndpoint := subscribeEndpoint w; sailsSocket := sailsSocket w;
     handlers := handlers w; outbox := outbox w; loaded := loaded w;
     pushed := pushed w; promises := promises w; reactions := reactions w;
     actions := actions w; debounced := x; fetches := fetches w;
     heap := heap w |}.

Definition set_fetches (x : list nat) (w : World) : World :=
  {| useCSRF := useCSRF w; csrfToken := csrfToken w;
     _csrfTokenLoadingPromise := _csrfTokenLoadingPromise w;
     _scheduledSubscriptions := _scheduledSubscriptions w;
     subscribeMethod := subscribeMethod w;
     subscribeEndpoint := subscribeEndpoint w; sailsSocket := sailsSocket w;
     handlers := handlers w; outbox := outbox w; loaded := loaded w;
     pushed := pushed w; promises := promises w; reactions := reactions w;
     actions := actions w; debounced := debounced w; fetches := x;
     heap := heap w |}.

Definition set_heap (x : gmap nat Obj) (w : World) : World :=
  {| useCSRF := useCSRF w; csrfToken := csrfToken w;
     _csrfTokenLoadingPromise := _csrfTokenLoadingPromise w;
     _scheduledSubscriptions := _scheduledSubscriptions w;
     subscribeMethod := subscribeMethod w;
     subscribeEndpoint := subscribeEndpoint w; sailsSocket := sailsSocket w;
     handlers := handlers w; outbox := outbox w; loaded := loaded w;
     pushed := pushed w; promises := promises w; reactions := reactions w;
     actions := actions w; debounced := debounced w; fetches := fetches w;
     heap := x |}.

Section Host.

(** [camelize] of @ember/string, [pluralize] of ember-inflector,
    [String.prototype.toLowerCase], the [modelName] of [store.modelFor(model)]
    and the adapter's overridable [shouldSubscribe]. *)
Variable camelize : string -> string.
Variable pluralize : string -> string.
Variable toLowerCase : string -> string.
Variable modelFor : string -> string.
Variable shouldSubscribe : string -> RecordId -> bool.

(** The constructor state of an adapter next to an empty store. *)
Definition init (csrf : bool) : World :=
  {| useCSRF := csrf; csrfToken := JNull; _csrfTokenLoadingPromise := None;
     _scheduledSubscriptions := None; subscribeMethod := JStr "POST";
     subscribeEndpoint := JStr "/socket/subscribe";
     sailsSocket := SailsSocketService.init; handlers := []; outbox := [];
     loaded := ∅; pushed := []; promises := []; reactions := []; actions := [];
     debounced := None; fetches := []; heap := ∅ |}.

(** **** Promises *)

(** [new Promise], [RSVP.resolve(v)]: a new entry of the promise table. *)
Definition new_promise (st : option Settled) (w : World) : nat * World :=
  (length (promises w), set_promises (promises w ++ [st]) w).

Definition settled_of (p : nat) (w : World) : option Settled :=
  match promises w !! p with
  | Some st => st
  | None => None
  end.

(** A promise settles once. *)
Definition settle (p : nat) (r : Settled) (w : World) : World :=
  match promises w !! p with
  | Some None => set_promises (<[p := Some r]> (promises w)) w
  | _ => w
  end.

Definition register (r : Reaction) (w : World) : World :=
  set_reactions (reactions w ++ [r]) w.

(** [schedule('actions', this, 'trigger', name, ...args)]. *)
Definition schedule_trigger (name : string) (args : list JsVal) (w : World)
  : World :=
  set_actions (actions w ++ [(name, args)]) w.

(** **** CSRF (sails-base.js) *)

(** [_fetchCSRFToken()]: the request for the token leaves, its promise is
    pending. *)
Definition _fetchCSRFToken (w : World) : nat * World :=
  let '(p, w) := new_promise None w in
  (p, set_fetches (fetches w ++ [p]) w).

(** The tail of [_fetchCSRFToken]: [.then(tokenObject => tokenObject._csrf)]
    on the way the request ended. *)
Definition token_of (r : Settled) : Settled :=
  match r with
  | Fulfilled tokenObject =>
      match get tokenObject "_csrf" with
      | Some t => Fulfilled t
      | None => Rejected (JStr "TypeError")
      end
  | Rejected e => Rejected e
  end.

(** [fetchCSRFToken(force)]: the promise it returns. *)
Definition fetchCSRFToken (force : JsVal) (w : World) : nat * World :=
  if useCSRF w && (truthy force || negb (truthy (csrfToken w))) then
    match _csrfTokenLoadingPromise w with
    | Some promise => (promise, w)
    | None =>
        let w := set_csrfToken JNull w in
        let '(p0, w) := _fetchCSRFToken w in
        let '(p1, w) := new_promise None w in
        let w := register (OnToken p0 p1) w in
        let '(p2, w) := new_promise None w in
        let w := register (OnFetchError p1 p2) w in
        let '(p3, w) := new_promise None w in
        let w := register (OnFetchDone p2 p3) w in
        (p3, set__csrfTokenLoadingPromise (Some p3) w)
    end
  else new_promise (Some (Fulfilled JNull)) w.

(** [checkCSRF(data)]; [data] is the address of the object, a missing one
    stands for [undefined]. *)
Definition checkCSRF (data : nat) (w : World) : Outcome nat * World :=
  if negb (useCSRF w) then (Returns data, w)
  else if negb (truthy (csrfToken w))
  then (Throws (ErrorMsg "CSRF Token not fetched yet."), w)
  else
    match heap w !! data with
    | Some o =>
        (Returns data,
         set_heap (<[data := obj_set o "_csrf" (csrfToken w)]> (heap w)) w)
    | None => (Throws TypeError, w)
    end.

(** **** The store *)

(** Ember Data's [coerceId]. *)
Definition coerceId (v : JsVal) : option string :=
  match v with
  | JUndefined | JNull => None
  | JStr s => if String.eqb s "" then None else Some s
  | _ => Some (to_string v)
  end.

(** [store.peekRecord(modelName, id)]. *)
Definition peekRecord (modelName : string) (id : JsVal) (w : World)
  : option (string * string) :=
  match coerceId id with
  | Some i =>
      match loaded w !! (modelName, i) with
      | Some _ => Some (modelName, i)
      | None => None
      end
  | None => None
  end.

(** [record.unloadRecord()]. *)
Definition unloadRecord (key : string * string) (w : World) : World :=
  set_loaded (delete key (loaded w)) w.

(** [store.pushPayload(modelName, payload)]: the payload is handed to the
    store. *)
Definition pushPayload (modelName : string) (payload : Obj) (w : World)
  : World :=
  set_pushed (pushed w ++ [(modelName, payload)]) w.

(** **** Socket messages (sails-socket.js) *)

(** [record.id = v]; a primitive takes no property (strict mode), an
    expando on an array is not represented. *)
Definition assign_id (record v : JsVal) : option JsVal :=
  match record with
  | JObj o => Some (JObj (obj_set o "id" v))
  | JArr xs => Some (JArr xs)
  | _ => None
  end.

Definition _handleSocketRecordCreated (type : string) (message : JsVal)
    (w : World) : Outcome World :=
  match get message "data" with
  | None => Throws TypeError
  | Some record =>
      match get record "id" with
      | None => Throws TypeError
      | Some rid =>
          let assigned :=
            if negb (truthy rid) && truthy (prop message "id")
            then assign_id record (prop message "id")
            else Some record in
          match assigned with
          | None => Throws TypeError
          | Some record =>
              Returns (pushPayload type
                         [(pluralize (camelize type), JArr [record])] w)
          end
      end
  end.

Definition _handleSocketRecordUpdated (type : string) (message : JsVal)
    (w : World) : Outcome World :=
  _handleSocketRecordCreated type message w.

Definition _handleSocketRecordDeleted (type : string) (message : JsVal)
    (w : World) : Outcome World :=
  match get message "id" with
  | None => Throws TypeError
  | Some id =>
      match peekRecord type id w with
      | Some key =>
          match loaded w !! key with
          | Some record =>
              if is_undefined (dirtyType record)
              then Returns (unloadRecord key w)
              else Returns w
          | None => Returns w
          end
      | None => Returns w
      end
  end.

(** [socket.on(name, handler)]. *)
Definition on (name : string) (h : BoundHandler) (w : World) : World :=
  set_handlers (handlers w ++ [(name, h)]) w.

(** [this.notice(...)]: neither the classes of the adapter nor the
    [RESTAdapter] and [Evented] they extend define [notice]; calling it is a
    TypeError. *)
Definition notice : Outcome unit := Throws TypeError.

(** The three [socket.on] calls of [_listenToSocket]. *)
Definition attach_handlers (model : string) (w : World) : World :=
  let eventName := toLowerCase (camelize model) in
  let type := modelFor model in
  on (eventName +:+ ".destroyed") (HDeleted type)
    (on (eventName +:+ ".updated") (HUpdated type)
       (on (eventName +:+ ".created") (HCreated type) w)).

(** [_listenToSocket(model)]; what [listenFor] changed stays when [notice]
    throws. *)
Definition _listenToSocket (model : string) (w : World) : Outcome unit * World :=
  let eventName := toLowerCase (camelize model) in
  let '(changed, socket) :=
    SailsSocketService.listenFor eventName (Some true) (sailsSocket w) in
  let w := set_sailsSocket socket w in
  if changed then
    match notice with
    | Returns _ => (Returns tt, attach_handlers model w)
    | Throws t => (Throws t, w)
    end
  else (Returns tt, w).

Definition run_bound (h : BoundHandler) (message : JsVal) (w : World)
  : Outcome World :=
  match h with
  | HCreated type => _handleSocketRecordCreated type message w
  | HUpdated type => _handleSocketRecordUpdated type message w
  | HDeleted type => _handleSocketRecordDeleted type message w
  end.

(** [sendEvent]: the handlers of [name] in turn; an exception ends it. *)
Fixpoint dispatch (hs : list (string * BoundHandler)) (name : string)
    (message : JsVal) (w : World) : Outcome World :=
  match hs with
  | [] => Returns w
  | (n, h) :: hs' =>
      if String.eqb n name then
        match run_bound h message w with
        | Returns w' => dispatch hs' name message w'
        | Throws t => Throws t
        end
      else dispatch hs' name message w
  end.

(** The service's [_handleSocketMessage(event, message)], as the adapter's
    handlers see it. *)
Definition _handleSocketMessage (event : string) (message : JsVal) (w : World)
  : Outcome World :=
  if negb (SailsSocketService.isAlive (sailsSocket w)) then Returns w
  else dispatch (handlers w)
         (SailsSocketService.message_event_name event message) message w.

(** **** Subscriptions (sails-socket.js) *)

(** [debounce(this, '_subscribeScheduled', 50)]: the timer starts again. *)
Definition debounce (wait : nat) (w : World) : World :=
  set_debounced (Some wait) w.

(** The object under [o[k]], a new one when [o[k]] is falsy. *)
Definition sub_object (o : Obj) (k : string) : Obj :=
  match obj_get o k with
  | JObj ids => ids
  | _ => []
  end.

(** [_scheduleSubscribe(type, id)].  The identifiers of a model are the
    property names of an object literal, so one that is a name of
    [Object.prototype] reads as being there already: it is neither recorded
    nor debounced.  [key] is the camelized name of a model class, and is
    taken not to be such a name (the source would then read and write the
    built-in object found under it). *)
Definition _scheduleSubscribe (modelName : string) (id : RecordId) (w : World)
  : World :=
  if truthy (id_val id) && shouldSubscribe modelName id then
    let subs := default [] (_scheduledSubscriptions w) in
    let key := camelize modelName in
    let ids := sub_object subs key in
    let id := id_to_string id in
    if negb (truthy_at ids id) then
      debounce 50%nat
        (set__scheduledSubscriptions
           (Some (obj_set subs key (JObj (obj_set ids id (JNum 0))))) w)
    else set__scheduledSubscriptions (Some (obj_set subs key (JObj ids))) w
  else w.

(** [sailsSocket.request(method, url, data)]: [method.toLowerCase()] needs a
    string. *)
Definition socket_request (method url : JsVal) (payload : Obj) (w : World)
  : World :=
  match method with
  | JStr m =>
      set_outbox (outbox w ++ [{| call_method := toLowerCase m;
                                  call_url := url; call_data := payload |}]) w
  | _ => w
  end.

(** [Object.keys(v)] as the array the payload carries, in the order the
    properties were added.  (JavaScript lists the property names that are
    array indices first, in ascending order; what is stated of the array
    is which identifiers it holds and that none comes twice.) *)
Definition id_list (v : JsVal) : JsVal :=
  JArr (JStr <$> keys (default [] (own_entries v))).

(** The body of the [for (let k in data)] loop of [_subscribeScheduled];
    an exception of [_listenToSocket] ends the loop. *)
Definition collect (data : Obj) (acc : Outcome Obj * World) (k : string)
  : Outcome Obj * World :=
  match acc with
  | (Returns payload, w) =>
      let payload := obj_set payload k (id_list (obj_get data k)) in
      match _listenToSocket k w with
      | (Returns _, w) => (Returns payload, w)
      | (Throws t, w) => (Throws t, w)
      end
  | (Throws t, w) => (Throws t, w)
  end.

(** [_subscribeScheduled()]: an exception of the loop leaves the function
    before anything is asked of the server. *)
Definition _subscribeScheduled (w : World) : Outcome unit * World :=
  match _scheduledSubscriptions w with
  | None => (Returns tt, w)
  | Some data =>
      let method := subscribeMethod w in
      let endpoint := subscribeEndpoint w in
      let w := set__scheduledSubscriptions None w in
      match foldl (collect data) (Returns [], w) (keys data) with
      | (Throws t, w) => (Throws t, w)
      | (Returns payload, w) =>
          let at_ := fresh (dom (heap w)) in
          let w := set_heap (<[at_ := payload]> (heap w)) w in
          if truthy endpoint && truthy method then
            let '(p, w) := fetchCSRFToken JUndefined w in
            (Returns tt, register (OnSubscribeReady p method endpoint at_) w)
          else (Returns tt, w)
      end
  end.

(** **** The run loop *)

Definition source (r : Reaction) : nat :=
  match r with
  | OnToken src _ | OnFetchError src _ | OnFetchDone src _
  | OnSubscribeReady src _ _ _ => src
  end.

(** The callback of a reaction, once its promise has settled with [st]. *)
Definition react (r : Reaction) (st : Settled) (w : World) : World :=
  match r, st with
  | OnToken _ dst, Fulfilled token =>
      if negb (truthy token)
      then settle dst (Rejected (JStr "Got an empty CSRF token from the server!")) w
      else settle dst (Fulfilled token)
             (schedule_trigger "didLoadCSRF" [token] (set_csrfToken token w))
  | OnToken _ dst, Rejected e => settle dst (Rejected e) w
  | OnFetchError _ dst, Fulfilled v => settle dst (Fulfilled v) w
  | OnFetchError _ dst, Rejected error =>
      settle dst (Fulfilled error)
        (schedule_trigger "didLoadCSRF" [JNull; error] w)
  | OnFetchDone _ dst, st =>
      settle dst st (set__csrfTokenLoadingPromise None w)
  | OnSubscribeReady _ method endpoint payload, Fulfilled _ =>
      match checkCSRF payload w with
      | (Returns at_, w) =>
          socket_request method endpoint (default [] (heap w !! at_)) w
      | (Throws _, w) => w
      end
  | OnSubscribeReady _ _ _ _, Rejected _ => w
  end.

(** The first registered reaction whose promise has settled. *)
Fixpoint pick_ready (rs : list Reaction) (w : World)
  : option (Reaction * Settled * list Reaction) :=
  match rs with
  | [] => None
  | r :: rs' =>
      match settled_of (source r) w with
      | Some st => Some (r, st, rs')
      | None =>
          match pick_ready rs' w with
          | Some (r', st, rest) => Some (r', st, r :: rest)
          | None => None
          end
      end
  end.

(** One turn of the run loop. *)
Definition tick (w : World) : World :=
  match pick_ready (reactions w) w with
  | Some (r, st, rest) => react r st (set_reactions rest w)
  | None => w
  end.

(** The run loop runs until no callback is ready. *)
Definition drain (w : World) : World :=
  Nat.iter (length (reactions w)) tick w.

(** The request of [_fetchCSRFToken] behind promise [p] ends. *)
Definition fetch_settles (p : nat) (r : Settled) (w : World) : World :=
  if bool_decide (p ∈ fetches w) then settle p (token_of r) w else w.

(** Time passes: the debounce timer fires once its wait is over.  An
    exception of its callback is reported by the run loop and changes
    nothing more. *)
Definition elapse (ms : nat) (w : World) : World :=
  match debounced w with
  | Some wait =>
      if (wait <=? ms)%nat
      then (_subscribeScheduled (set_debounced None w)).2
      else set_debounced (Some (wait - ms)%nat) w
  | None => w
  end.

(** **** Scenarios *)

(** Successive calls of [fetchCSRFToken] with the given [force] arguments,
    nothing else happening in between: the promises they return. *)
Fixpoint fetch_all (forces : list JsVal) (w : World) : list nat * World :=
  match forces with
  | [] => ([], w)
  | force :: rest =>
      let '(p, w) := fetchCSRFToken force w in
      let '(ps, w) := fetch_all rest w in
      (p :: ps, w)
  end.

(** Calls of [_scheduleSubscribe] for one model type, each after the given
    number of milliseconds. *)
Fixpoint window (modelName : string) (calls : list (nat * RecordId))
    (w : World) : World :=
  match calls with
  | [] => w
  | (gap, id) :: rest =>
      window modelName rest (_scheduleSubscribe modelName id (elapse gap w))
  end.


(** The pending set after requests for one identifier of one model. *)
Definition pending (modelName sid : string) : Obj :=
  [(camelize modelName, JObj [(sid, JNum 0)])].

(** A call of the window: within the debounce wait of the call before it,
    for an identifier the adapter subscribes to and that reads [sid]. *)
Definition same_request (modelName sid : string) (c : nat * RecordId) : Prop :=
  (c.1 < 50)%nat /\ truthy (id_val c.2) = true /\ safe_id c.2 = true /\
  shouldSubscribe modelName c.2 = true /\ id_to_string c.2 = sid.

End Host.

End SailsAdapter.

(** ** utils/logger.js *)

Module Logger.

(** ["debug info notice warn error".split(" ")]. *)
Definition LEVELS : list string := ["debug"; "info"; "notice"; "warn"; "error"].

(** [level === minLevel]. *)
Definition is_level (level : string) (minLevel : JsVal) : bool :=
  match minLevel with
  | JStr s => String.eqb level s
  | _ => false
  end.

(** The callback of [LEVELS.forEach], on [shouldLog] and [methods]; a method
    is [true] when it is [console.log] bound to the prefix, [false] when it
    is the empty function. *)
Definition add_method (minLevel : JsVal) (acc : bool * Obj) (level : string)
  : bool * Obj :=
  let shouldLog := if is_level level minLevel then true else acc.1 in
  (shouldLog, obj_set acc.2 level (JBool shouldLog)).

Definition methods_for (levels : list string) (minLevel : JsVal) : Obj :=
  (foldl (add_method minLevel) (false, []) levels).2.

(** The module's default export, for [SAILS_LOG_LEVEL = minLevel]. *)
Definition methods (minLevel : JsVal) : Obj := methods_for LEVELS minLevel.

End Logger.

(** ** Strings *)

Module JsString.

(** [s.charAt(0)]. *)
Definition charAt0 (s : string) : string :=
  match s with
  | String c _ => String c EmptyString
  | EmptyString => EmptyString
  end.

(** [s.replace(/^\//, "")]. *)
Definition strip_slash (s : string) : string :=
  match s with
  | String c rest => if String.eqb (String c EmptyString) "/" then rest else s
  | EmptyString => EmptyString
  end.

(** [s] starts with [p]. *)
Fixpoint starts_with (p s : string) : bool :=
  match p, s with
  | EmptyString, _ => true
  | String a p', String b s' => Ascii.eqb a b && starts_with p' s'
  | String _ _, EmptyString => false
  end.

(** [/^(https?:)?\/\//.test(s)]. *)
Definition has_origin (s : string) : bool :=
  starts_with "//" s || starts_with "http://" s || starts_with "https://" s.

(** An element of [Array.prototype.join]. *)
Definition joined (v : JsVal) : string :=
  match v with
  | JUndefined | JNull => ""
  | _ => to_string v
  end.

(** [xs.join(sep)]. *)
Definition join (sep : string) (xs : list JsVal) : string :=
  match xs with
  | [] => ""
  | x :: xs' => foldl (fun acc y => acc +:+ sep +:+ joined y) (joined x) xs'
  end.

End JsString.

(** ** adapters/sails-rest.js and the token path of adapters/sails-socket.js *)

Module SailsRest.

Import JsString.

Record Adapter := {
  host : JsVal;
  namespace : JsVal;
  csrfTokenPath : string;
  _csrfTokenUrl : JsVal;
}.

(** The last branch of the [csrfTokenUrl] property: the URL made of [host],
    [namespace] and [csrfTokenPath]. *)
Definition built_url (a : Adapter) : string :=
  let csrfTokenPath := csrfTokenPath a in
  let csrfTokenUrl :=
    join "/" (List.filter truthy
                [host a;
                 if String.eqb (charAt0 csrfTokenPath) "/" then JNull
                 else namespace a;
                 JStr (strip_slash csrfTokenPath)]) in
  if negb (has_origin csrfTokenUrl) then "/" +:+ csrfTokenUrl else csrfTokenUrl.

(** Reading [csrfTokenUrl]: the function called with its key alone.  The
    value Ember keeps of a computed property between two changes of [host],
    [namespace] and [csrfTokenPath] is not part of it. *)
Definition csrfTokenUrl (a : Adapter) : JsVal :=
  if negb (is_undefined (_csrfTokenUrl a)) then _csrfTokenUrl a
  else JStr (built_url a).

(** Setting [csrfTokenUrl] to [value]: the function called with a second
    argument. *)
Definition set_csrfTokenUrl (value : JsVal) (a : Adapter) : JsVal * Adapter :=
  (value,
   {| host := host a; namespace := namespace a;
      csrfTokenPath := csrfTokenPath a; _csrfTokenUrl := value |}).

(** The path the socket adapter's [_fetchCSRFToken] requests:
    [csrfTokenPath.replace(/^\/?/, '/')]. *)
Definition socket_token_path (csrfTokenPath : string) : string :=
  "/" +:+ strip_slash csrfTokenPath.

End SailsRest.

(** ** services/sails-socket.js: the URL of the socket *)

Module SocketUrl.

Import JsString.

(** The character [c] is the one of the one-character string [x]. *)
Definition is_char (x : string) (c : Ascii.ascii) : bool :=
  String.eqb (String c EmptyString) x.

(** A line terminator, which [.] does not match.  The characters of a
    string are its code units below 256, as the URL of a script has them;
    of the four line terminators these are the line feed and the carriage
    return. *)
Definition line_terminator (c : Ascii.ascii) : bool :=
  Nat.eqb (Ascii.nat_of_ascii c) 10 || Nat.eqb (Ascii.nat_of_ascii c) 13.

(** The longest prefix whose characters all satisfy [p], and the rest. *)
Fixpoint span (p : Ascii.ascii -> bool) (s : string) : string * string :=
  match s with
  | EmptyString => (EmptyString, EmptyString)
  | String c s' =>
      if p c then (String c (span p s').1, (span p s').2)
      else (EmptyString, s)
  end.

Fixpoint all_chars (p : Ascii.ascii -> bool) (s : string) : bool :=
  match s with
  | EmptyString => true
  | String c s' => p c && all_chars p s'
  end.

(** [s] without its first three characters. *)
Definition drop3 (s : string) : string :=
  match s with
  | String _ (String _ (String _ s')) => s'
  | _ => EmptyString
  end.

(** [^:] and [^/]. *)
Definition not_colon (c : Ascii.ascii) : bool := negb (is_char ":" c).
Definition not_slash (c : Ascii.ascii) : bool := negb (is_char "/" c).

(** [^([^:]+:\/\/[^/]+).*$] against [src]: the first group when the
    expression matches. *)
Definition origin (src : string) : option string :=
  let '(scheme, after) := span not_colon src in
  if negb (String.eqb scheme "") && starts_with "://" after then
    let '(host, rest) := span not_slash (drop3 after) in
    if negb (String.eqb host "")
       && all_chars (fun c => negb (line_terminator c)) rest
    then Some (scheme +:+ "://" +:+ host)
    else None
  else None.

(** The getter [socketUrl], from [script.src]:
    [src.replace(/^([^:]+:\/\/[^/]+).*$/g, '$1')]. *)
Definition socketUrl (src : string) : string :=
  match origin src with
  | Some url => url
  | None => src
  end.

End SocketUrl.

(** ** serializers/sails.js: SailsSerializer *)

Module SailsSerializer.

Import SailsSocketService SailsAdapter.

(** [typeOf] of @ember/utils, on the values JSON has. *)
Definition typeOf (v : JsVal) : string :=
  match v with
  | JUndefined => "undefined"
  | JNull => "null"
  | JBool _ => "boolean"
  | JNum _ => "number"
  | JStr _ => "string"
  | JArr _ => "array"
  | JObj _ => "object"
  end.

(** [delete o[k]]. *)
Fixpoint obj_delete (o : Obj) (k : string) : Obj :=
  match o with
  | [] => []
  | (k', v) :: o' =>
      if String.eqb k' k then obj_delete o' k else (k', v) :: obj_delete o' k
  end.

(** A relationship as [eachRelationship] hands it over: [rel.kind] and
    [rel.type.modelName]. *)
Record Relationship := { kind : string; type_modelName : string }.

(** What [store.push(rel.type, normalized)] received, in order. *)
Abbreviation Pushes := (list (string * JsVal)).

Section Embedded.

(** [store.serializerFor(modelName).normalize(rel.type, data, null)]. *)
Variable normalize : string -> JsVal -> JsVal.

(** The callback of [data.map] for a [hasMany] relationship. *)
Definition extract_item (modelName : string) (acc : list JsVal * Pushes)
    (item : JsVal) : list JsVal * Pushes :=
  if String.eqb (typeOf item) "object"
  then (acc.1 ++ [prop item "id"],
        acc.2 ++ [(modelName, normalize modelName item)])
  else (acc.1 ++ [item], acc.2).

(** The callback of [type.eachRelationship]; [st] is the hash and the
    pushes so far. *)
Definition extract_relationship (st : Obj * Pushes)
    (entry : string * Relationship) : Outcome (Obj * Pushes) :=
  let '(hash, pushes) := st in
  let '(key, rel) := entry in
  let modelName := type_modelName rel in
  let data := obj_get hash key in
  if truthy data then
    if String.eqb (kind rel) "belongsTo" then
      if String.eqb (typeOf (obj_get hash key)) "object" then
        Returns (obj_set (obj_delete hash key) key (prop data "id"),
                 pushes ++ [(modelName, normalize modelName data)])
      else Returns (hash, pushes)
    else if String.eqb (kind rel) "hasMany" then
      match data with
      | JArr items =>
          let '(ids, pushes) :=
            foldl (extract_item modelName) ([], pushes) items in
          Returns (obj_set hash key (JArr ids), pushes)
      | _ => Throws TypeError
      end
    else Throws (ErrorMsg ("Unknown relationship kind " +:+ kind rel))
  else Returns (hash, pushes).

(** [_extractEmbeddedRecords(serializer, store, type, hash)]: the hash it
    returns and what it pushed to the store. *)
Definition _extractEmbeddedRecords (relationships : list (string * Relationship))
    (hash : Obj) : Outcome (Obj * Pushes) :=
  foldl (fun acc entry =>
           match acc with
           | Returns st => extract_relationship st entry
           | Throws t => Throws t
           end)
        (Returns (hash, [])) relationships.

(** The embedded records of a relationship field. *)
Definition embedded (kind : string) (data : JsVal) : list JsVal :=
  if String.eqb kind "belongsTo" then
    if String.eqb (typeOf data) "object" then [data] else []
  else if String.eqb kind "hasMany" then
    match data with
    | JArr items =>
        List.filter (fun item => String.eqb (typeOf item) "object") items
    | _ => []
    end
  else [].

Definition pushes_of (hash : Obj) (entry : string * Relationship) : Pushes :=
  (fun record => (type_modelName entry.2,
                  normalize (type_modelName entry.2) record))
  <$> embedded (kind entry.2) (obj_get hash entry.1).

End Embedded.

(** An embedded record gives way to its [id]. *)
Definition item_ref (item : JsVal) : JsVal :=
  if String.eqb (typeOf item) "object" then prop item "id" else item.

(** A relationship field once its embedded records are extracted. *)
Definition references (kind : string) (data : JsVal) : JsVal :=
  if String.eqb kind "belongsTo" then item_ref data
  else if String.eqb kind "hasMany" then
    match data with
    | JArr items => JArr (item_ref <$> items)
    | _ => data
    end
  else data.

(** The fields [_extractEmbeddedRecords] gets through: no data, a
    [belongsTo], or a [hasMany] holding an array. *)
Definition extractable (kind : string) (data : JsVal) : bool :=
  negb (truthy data) || String.eqb kind "belongsTo"
  || (String.eqb kind "hasMany"
      && match data with JArr _ => true | _ => false end).

(** The [id] of an embedded record is not a record itself. *)
Definition scalar_id (item : JsVal) : bool :=
  negb (String.eqb (typeOf (item_ref item)) "object").

Definition scalar_ids (data : JsVal) : bool :=
  match data with
  | JArr items => forallb scalar_id items
  | _ => scalar_id data
  end.

End SailsSerializer.

(** ** adapters/sails-base.js: ajax *)

Module SailsAjax.

Import SailsSocketService SailsAdapter.

(** The [options] of [ajax]; [options.data] is the address of an object,
    or is missing. *)
Record Options := { options_data : option nat }.

(** A call of [this._request(out, url, method, options)]. *)
Record Request := {
  request_url : JsVal;
  request_method : string;
  request_data : option nat;
}.

(** Where [ajax] stands when it returns: [processRequest] has called
    [_request], or it waits in the [then] of [fetchCSRFToken()]. *)
Inductive Progress :=
| Requested (r : Request)
| AwaitsToken (promise : nat) (url : JsVal) (method : string) (data : nat).

(** [options.data], with [options] possibly missing. *)
Definition given_data (options : option Options) : option nat :=
  match options with
  | Some o => options_data o
  | None => None
  end.

(** [options.data] of a request that is not a GET: the object given, or a
    new empty one ([options.data = {}]). *)
Definition data_object (options : option Options) (w : World) : nat * World :=
  match given_data options with
  | Some d => (d, w)
  | None =>
      let at_ := fresh (dom (heap w)) in
      (at_, set_heap (<[at_ := []]> (heap w)) w)
  end.

Section Ajax.

(** [String.prototype.toUpperCase]. *)
Variable toUpperCase : string -> string.

Definition ajax (url : JsVal) (method : string) (options : option Options)
    (w : World) : Progress * World :=
  let method := toUpperCase method in
  if negb (String.eqb method "GET") then
    let '(data, w) := data_object options w in
    let '(p, w) := fetchCSRFToken JUndefined w in
    (AwaitsToken p url method data, w)
  else
    (Requested {| request_url := url; request_method := method;
                  request_data := given_data options |}, w).

(** The callback [ajax] gives to [then]: [checkCSRF(options.data)], then
    [processRequest()]. *)
Definition ajax_resume (url : JsVal) (method : string) (data : nat) (w : World)
  : Outcome Request * World :=
  match checkCSRF data w with
  | (Returns d, w) =>
      (Returns {| request_url := url; request_method := method;
                  request_data := Some d |}, w)
  | (Throws t, w) => (Throws t, w)
  end.

End Ajax.

End SailsAjax.

(** ** store.js: the store, and normalizeResponse of serializers/sails.js *)

Module SailsStore.

Import SailsSocketService SailsAdapter.

(** A record as [push] sees it: [res.get("id")], missing for [null], and
    [res.constructor.modelName]. *)
Record Instance := { instance_id : option RecordId; instance_modelName : string }.

Section Store.

Variable camelize : string -> string.
Variable toLowerCase : string -> string.
Variable modelFor : string -> string.
Variable shouldSubscribe : string -> RecordId -> bool.

(** [store.adapterFor(modelName) instanceof SailsSocketAdapter]. *)
Variable usesSocket : string -> bool.

(** The callback of [resArray.forEach] in [push]. *)
Definition subscribe_pushed (w : World) (res : option Instance) : World :=
  match res with
  | Some r =>
      match instance_id r with
      | Some id =>
          if truthy (id_val id) then
            if usesSocket (instance_modelName r)
            then _scheduleSubscribe camelize shouldSubscribe
                   (modelFor (instance_modelName r)) id w
            else w
          else w
      | None => w
      end
  | None => w
  end.

(** [Array.isArray(res) ? res : [res]], and the same for [ids]. *)
Definition as_array {A} (res : A + list A) : list A :=
  match res with
  | inl r => [r]
  | inr rs => rs
  end.

(** [push]; [res] is what [super.push] returned, a record or an array of
    records. *)
Definition push (res : option Instance + list (option Instance)) (w : World)
  : World :=
  foldl subscribe_pushed w (as_array res).

(** [subscribe(type, ids)]; an adapter that is no socket adapter has no
    [_scheduleSubscribe]. *)
Definition subscribe (type : string) (ids : RecordId + list RecordId) (w : World)
  : Outcome World :=
  let ids := as_array ids in
  let type := modelFor type in
  if usesSocket type then
    Returns (foldl (fun w id => _scheduleSubscribe camelize shouldSubscribe type id w)
                   w ids)
  else match ids with
       | [] => Returns w
       | _ => Throws TypeError
       end.

(** [normalizeResponse(store, primaryModelClass, ...)] of the serializer, up
    to its call of [super.normalizeResponse]; [cache] is
    [_modelsUsingSailsSocketAdapter]. *)
Definition normalizeResponse (modelName : string)
    (st : option (gmap string bool) * World)
  : Outcome unit * (option (gmap string bool) * World) :=
  let cache := default ∅ st.1 in
  match cache !! modelName with
  | None =>
      let cache := <[modelName := usesSocket modelName]> cache in
      if usesSocket modelName then
        match _listenToSocket camelize toLowerCase modelFor modelName st.2 with
        | (Returns _, w) => (Returns tt, (Some cache, w))
        | (Throws t, w) => (Throws t, (Some cache, w))
        end
      else (Throws TypeError, (Some cache, st.2))
  | Some _ => (Returns tt, (Some cache, st.2))
  end.

(** [_scheduleSubscribe(type, id)] for each call in turn, at once. *)
Definition schedule_all (calls : list (string * RecordId)) (w : World) : World :=
  foldl (fun w call => _scheduleSubscribe camelize shouldSubscribe call.1 call.2 w)
        w calls.

(** A call of [_scheduleSubscribe(type, id)] that goes through. *)
Definition accepted (call : string * RecordId) : bool :=
  truthy (id_val call.2) && shouldSubscribe call.1 call.2.

(** The calls of [_scheduleSubscribe] that [push] makes. *)
Definition pushed_calls (res : list (option Instance)) : list (string * RecordId) :=
  omap (fun r : option Instance =>
          match r with
          | Some r =>
              match instance_id r with
              | Some id =>
                  if truthy (id_val id) && usesSocket (instance_modelName r)
                  then Some (modelFor (instance_modelName r), id)
                  else None
              | None => None
              end
          | None => None
          end) res.

(** What a call that goes through makes of [_scheduledSubscriptions]. *)
Definition scheduled (subs : Obj) (call : string * RecordId) : Obj :=
  if accepted call then
    obj_set subs (camelize call.1)
      (JObj (obj_set (sub_object subs (camelize call.1))
                     (id_to_string call.2) (JNum 0)))
  else subs.

(** The call is for the payload key [key] and the identifier that reads
    [s]. *)
Definition asks_for (key s : string) (call : string * RecordId) : Prop :=
  accepted call = true /\ camelize call.1 = key /\ id_to_string call.2 = s.

(** The call stays clear of the names of [Object.prototype], and its
    identifier is one JavaScript can hold. *)
Definition plain (call : string * RecordId) : Prop :=
  (camelize call.1 ∉ inherited) /\ (id_to_string call.2 ∉ inherited) /\
  safe_id call.2 = true.

(** The socket service listens for the event of the model of the call
    already: [_listenToSocket] has nothing to do for it. *)
Definition listened (w : World) (call : string * RecordId) : Prop :=
  is_Some (SailsSocketService._listeners (sailsSocket w)
           !! toLowerCase (camelize (camelize call.1))).

End Store.

(** The payload [_subscribeScheduled] makes of the scheduled
    subscriptions: [payload[k] = Object.keys(data[k])]. *)
Definition payload_of (data : Obj) : Obj :=
  (fun kv => (kv.1, id_list kv.2)) <$> data.

(** The payload lists the identifier [s] under [key]. *)
Definition lists (payload : Obj) (key s : string) : Prop :=
  exists l, obj_get payload key = JArr l /\ JStr s ∈ l.

(** The scheduled subscriptions hold the identifier [s] under [key]. *)
Definition holds (subs : Obj) (key s : string) : Prop :=
  exists ids, obj_get subs key = JObj ids /\ s ∈ keys ids.

(** Scheduled subscriptions as [_scheduleSubscribe] builds them. *)
Definition well_formed (subs : Obj) : Prop :=
  NoDup (keys subs) /\
  Forall (fun kv => exists ids, kv.2 = JObj ids /\ NoDup (keys ids)) subs.

End SailsStore.

(** ** services/sails-socket.js: isBusy and the requests on their way *)

Module SailsSocketBusy.

Import SailsAdapter SailsSocketService.

(** The getter [isBusy]. *)
Definition isBusy (s : State) : bool :=
  negb (isInitialized s) || Z.ltb 0 (pendingOperationCount s).

Definition is_give (t : Task) : bool :=
  match t with
  | TGive _ _ => true
  | _ => false
  end.

(** An answer that came from the server, not from [request] giving up. *)
Definition is_response (a : nat * Answer) : bool :=
  match a.2 with
  | RejectDestroyed => false
  | _ => true
  end.

(** The requests on their way: those whose callback is due in the run
    loop, those waiting for the connection and those handed to the socket,
    less the answers of the server. *)
Definition outstanding (s : State) : Z :=
  Z.of_nat (length (List.filter is_give (tasks s))
            + length (default [] (_waitingForSockets s))
            + length (sent s))
  - Z.of_nat (length (List.filter is_response (answers s))).

(** The count of pending operations is right. *)
Definition balanced (s : State) : Prop :=
  pendingOperationCount s = outstanding s.

(** What [balanced] looks at. *)
Definition ledger (s : State)
  : Z * list Task * option (list nat) * list nat * list (nat * Answer) :=
  (pendingOperationCount s, List.filter is_give (tasks s), _waitingForSockets s,
   sent s, answers s).

End SailsSocketBusy.

(** ** services/sails-socket.js: a destroyed service, a waiting service *)

Module SailsSocketAfter.

Import SailsAdapter SailsSocketService.

(** What a destroyed service keeps for good. *)
Definition dead_like (s s' : State) : Prop :=
  alive s' = false /\ sent s' = sent s /\ fired s' = fired s /\
  isInitialized s' = isInitialized s /\ isConnected s' = isConnected s.

(** A new service whose requests [l] wait for the first connection, [p] of
    them pending. *)
Definition waiting_state (p : Z) (l : list nat) : State :=
  {| alive := true; isInitialized := false; isConnected := false;
     pendingOperationCount := p; _listeners := ∅; _sailsSocket := None;
     _waitingForSockets := Some l;
     subscribers := [("didConnect", HFlushWaiting, true)]; tasks := [TLoad];
     ioReady := false; fired := []; connects := 0; sent := []; answers := [];
     crashed := false |}.

End SailsSocketAfter.

(** * Properties *)

Import SailsSocketService SailsAdapter.

(** ** Objects *)

Lemma obj_get_set_eq (o : Obj) (k : string) (v : JsVal) :
  obj_get (obj_set o k v) k = v.
Proof.
  induction o as [|[k' v'] o IH]; simpl.
  - by rewrite String.eqb_refl.
  - destruct (String.eqb k' k) eqn:E; simpl; rewrite E; [done | apply IH].
Qed.

Lemma obj_get_set_ne (o : Obj) (k k' : string) (v : JsVal) :
  k <> k' -> obj_get (obj_set o k v) k' = obj_get o k'.
Proof.
  intros Hne. induction o as [|[k0 v0] o IH]; simpl.
  - destruct (String.eqb_spec k k'); [done | reflexivity].
  - destruct (String.eqb_spec k0 k) as [->|Hk]; simpl.
    + destruct (String.eqb_spec k k'); [done | reflexivity].
    + destruct (String.eqb_spec k0 k'); [reflexivity | apply IH].
Qed.

Lemma obj_get_absent (o : Obj) (k : string) :
  k ∉ keys o -> obj_get o k = JUndefined.
Proof.
  induction o as [|[k0 v0] o IH]; cbn [obj_get keys map fst]; [done|].
  fold (keys o). intros [Hne Hk]%not_elem_of_cons.
  destruct (String.eqb_spec k0 k); [congruence | by apply IH].
Qed.

(** Away from the names of [Object.prototype] an object literal reads as
    its own properties do. *)
Lemma truthy_at_plain (o : Obj) (k : string) :
  k ∉ inherited -> truthy_at o k = truthy (obj_get o k).
Proof.
  intros Hk. unfold truthy_at. case_bool_decide as Hown; [done|].
  rewrite obj_get_absent by done. by rewrite bool_decide_eq_false_2.
Qed.

(** ** Answers to socket requests *)




(** ** The CSRF token of a request *)

(** C8: [checkCSRF] throws exactly when [useCSRF] is on and no token is
    cached; otherwise it returns the object it was given, with [_csrf] set
    to the cached token when [useCSRF] is on (its other properties and every
    other object as they were) and nothing touched when [useCSRF] is off. *)
Theorem checkCSRF_throws_iff_token_missing :
  forall (w : World) (data : nat) (o : Obj),
    heap w !! data = Some o ->
    ((exists t, (checkCSRF data w).1 = Throws t) <->
     useCSRF w = true /\ truthy (csrfToken w) = false) /\
    (useCSRF w = false -> checkCSRF data w = (Returns data, w)) /\
    (useCSRF w = true -> truthy (csrfToken w) = true ->
     let o' := obj_set o "_csrf" (csrfToken w) in
     checkCSRF data w = (Returns data, set_heap (<[data := o']> (heap w)) w) /\
     obj_get o' "_csrf" = csrfToken w /\
     (forall k, k <> "_csrf" -> obj_get o' k = obj_get o k) /\
     (forall l, l <> data ->
        heap (checkCSRF data w).2 !! l = heap w !! l)).
Proof.
  intros w data o Hd. unfold checkCSRF.
  destruct (useCSRF w) eqn:Hu; simpl.
  - destruct (truthy (csrfToken w)) eqn:Ht; simpl; rewrite ?Hd; simpl.
    + split_and!; try done.
      * split; [by intros [t ?] | by intros [_ ?]].
      * intros _ _. split_and!; [done | apply obj_get_set_eq | |].
        -- intros k Hk. apply obj_get_set_ne. congruence.
        -- intros l Hl. by rewrite lookup_insert_ne.
    + split_and!; try done.
      split; [done | intros _; by eexists].
  - split_and!; try done.
    split; [by intros [t ?] | by intros [? _]].
Qed.

(** At an adapter with a cached token: [{}] comes back as the same object,
    now carrying the token. *)
Lemma checkCSRF_throws_iff_token_missing_witness :
  let w := set_heap {[ 7%nat := [] ]}
             (set_csrfToken (JStr "abcdefgh012345") (init true)) in
  checkCSRF 7 w
  = (Returns 7%nat,
     set_heap (<[7%nat := [("_csrf", JStr "abcdefgh012345")]]> (heap w)) w).
Proof.
  intros w.
  refine (proj1 (proj2 (proj2 (checkCSRF_throws_iff_token_missing w 7%nat [] _))
                       _ _)); reflexivity.
Defined.

(** ** Destroyed records *)

(** C10: a [destroyed] message for a record that is not in the store, or
    that has a [dirtyType], leaves the store (and everything else) as it
    is; a loaded record whose [dirtyType] is [undefined] is unloaded, and
    no other record is. *)
Theorem destroyed_message_spares_absent_and_dirty :
  forall (w : World) (type : string) (message id : JsVal),
    get message "id" = Some id ->
    (peekRecord type id w = None ->
       _handleSocketRecordDeleted type message w = Returns w) /\
    (forall i, coerceId id = Some i -> loaded w !! (type, i) = None ->
       _handleSocketRecordDeleted type message w = Returns w) /\
    (forall key r, peekRecord type id w = Some key ->
       loaded w !! key = Some r -> is_undefined (dirtyType r) = false ->
       _handleSocketRecordDeleted type message w = Returns w) /\
    (forall key r, peekRecord type id w = Some key ->
       loaded w !! key = Some r -> is_undefined (dirtyType r) = true ->
       _handleSocketRecordDeleted type message w = Returns (unloadRecord key w) /\
       loaded (unloadRecord key w) !! key = None /\
       forall key', key' <> key ->
         loaded (unloadRecord key w) !! key' = loaded w !! key').
Proof.
  intros w type message id Hid. unfold _handleSocketRecordDeleted.
  rewrite Hid. split_and!.
  - by intros ->.
  - intros i Hi Hn. unfold peekRecord. by rewrite Hi, Hn.
  - intros key r -> Hr Hd. by rewrite Hr, Hd.
  - intros key r -> Hr Hd. rewrite Hr, Hd. split_and!; [done | |].
    + simpl. apply lookup_delete_eq.
    + intros key' Hne. simpl. by apply lookup_delete_ne.
Qed.

(** A record with local changes survives the message. *)
Lemma destroyed_message_spares_absent_and_dirty_witness :
  let w := set_loaded {[ ("user", "1") := {| data := []; dirtyType := JStr "updated" |} ]}
             (init false) in
  _handleSocketRecordDeleted "user" (JObj [("id", JNum 1)]) w = Returns w.
Proof.
  intros w.
  refine (proj1 (proj2 (proj2
            (destroyed_message_spares_absent_and_dirty w "user"
               (JObj [("id", JNum 1)]) (JNum 1) _)))
            ("user", "1") {| data := []; dirtyType := JStr "updated" |} _ _ _);
    reflexivity.
Defined.

(** ** Failed requests *)

Lemma obj_set_fresh (o : Obj) (k : string) (v : JsVal) :
  k ∉ keys o -> obj_set o k v = o ++ [(k, v)].
Proof.
  induction o as [|[k' v'] o IH]; simpl; intros Hk; [done|].
  apply not_elem_of_cons in Hk as [Hne Hk].
  destruct (String.eqb_spec k' k); [congruence|].
  by rewrite IH.
Qed.

Lemma obj_get_elem_of (o : Obj) (k : string) (v : JsVal) :
  NoDup (keys o) -> (k, v) ∈ o -> obj_get o k = v.
Proof.
  induction o as [|[k' v'] o IH]; simpl; intros Hnd Hin.
  - by apply elem_of_nil in Hin.
  - apply NoDup_cons in Hnd as [Hk' Hnd].
    apply elem_of_cons in Hin as [[= <- <-]|Hin].
    + by rewrite String.eqb_refl.
    + destruct (String.eqb_spec k' k) as [->|_]; [|by apply IH].
      exfalso. apply Hk'. unfold keys.
      apply list_elem_of_fmap. by exists (k, v).
Qed.

Lemma messages_array (es : list JsVal) :
  Forall (fun e => is_Some (get e "message")) es ->
  messages (JArr es) = Returns (JArr ((fun e => prop e "message") <$> es)).
Proof.
  intros Hes. unfold messages.
  assert (mapM (fun e => get e "message") es
          = Some ((fun e => prop e "message") <$> es)) as ->; [|done].
  induction Hes as [|e es [m Hm] _ IH]; [done|].
  rewrite fmap_cons. unfold prop at 1. rewrite Hm. simpl.
  cbn [mapM]. rewrite Hm. simpl. by rewrite IH.
Qed.

Lemma formatError_fold (entries rest : Obj) (m : Obj) :
  NoDup (keys entries) ->
  rest ⊆ entries ->
  NoDup (keys rest) ->
  (forall k, k ∈ keys rest -> k ∉ keys m) ->
  Forall (fun kv => exists es, kv.2 = JArr es /\
                      Forall (fun e => is_Some (get e "message")) es) rest ->
  foldl (fun memo property =>
           match memo with
           | Throws t => Throws t
           | Returns m =>
               match messages (obj_get entries property) with
               | Returns ms => Returns (obj_set m property ms)
               | Throws t => Throws t
               end
           end)
        (Returns m) (keys rest)
  = Returns (m ++ (attribute_messages <$> rest)).
Proof.
  intros Hnd. revert m.
  induction rest as [|[k v] rest IH]; intros m Hsub Hndr Hfresh Hall; simpl.
  - by rewrite app_nil_r.
  - apply Forall_cons in Hall as [(es & Hv & Hes) Hall]. simpl in Hv. subst v.
    apply NoDup_cons in Hndr as [Hk Hndr].
    rewrite (obj_get_elem_of entries k (JArr es)); [|done|apply Hsub; left].
    rewrite messages_array by done.
    rewrite obj_set_fresh by (apply Hfresh; left).
    rewrite IH.
    + by rewrite <- app_assoc.
    + intros x Hx. apply Hsub. by right.
    + done.
    + intros k' Hk'. unfold keys. rewrite fmap_app. simpl.
      intros [Hin|Hin%list_elem_of_singleton]%elem_of_app.
      * apply (Hfresh k'); [by right | done].
      * subst k'. by apply Hk.
    + done.
Qed.

Lemma formatError_well_shaped (error : JsVal) (ia : Obj) :
  get error "invalidAttributes" = Some (JObj ia) ->
  well_shaped ia ->
  formatError error = Returns (attribute_messages <$> ia).
Proof.
  intros Hia (Hnd & _ & Hall). unfold formatError. rewrite Hia. simpl.
  rewrite (formatError_fold ia ia []); try done.
  intros k _. apply not_elem_of_nil.
Qed.

(** C6, as the code has it by design, in [ajax]: a response of the Sails
    error shape (truthy [error], [model], [summary] and [status]) is
    rejected, as an [InvalidError] built from its [invalidAttributes] when
    it also has a truthy [errors] field, as the response itself when it has
    not; any other response resolves, with or without an [errors] field, and
    a failed request is rejected with its error as it is.  The
    [invalidAttributes] are an object, without a [__proto__] property, whose
    values are arrays of entries that are not [null] or [undefined].
    ([ajaxError], whose first statement calls the parent class, is not part
    of the statement.) *)
Theorem failed_request_wrapping :
  forall response : JsVal,
    (isErrorObject response = true ->
     truthy (prop response "errors") = true ->
     forall ia, get response "invalidAttributes" = Some (JObj ia) ->
       well_shaped ia ->
       processRequest (Fulfilled response)
       = AjaxInvalid (attribute_messages <$> ia)) /\
    (isErrorObject response = true ->
     truthy (prop response "errors") = false ->
     processRequest (Fulfilled response) = AjaxRejected response) /\
    (isErrorObject response = false ->
     processRequest (Fulfilled response) = AjaxResolved response) /\
    processRequest (Rejected response) = AjaxRejected response.
Proof.
  intros response. unfold processRequest. split_and!.
  - intros -> -> ia Hia Hws. by rewrite (formatError_well_shaped _ ia).
  - by intros -> ->.
  - by intros ->.
  - done.
Qed.

(** A validation failure of Sails, as the response of a request. *)
Lemma failed_request_wrapping_witness :
  processRequest
    (Fulfilled
       (JObj [("error", JStr "E_VALIDATION"); ("model", JStr "User");
              ("summary", JStr "1 attribute is invalid"); ("status", JNum 400);
              ("errors", JBool true);
              ("invalidAttributes",
               JObj [("name", JArr [JObj [("message", JStr "required")]])])]))
  = AjaxInvalid [("name", JArr [JStr "required"])].
Proof.
  refine (proj1 (failed_request_wrapping _) _ _
            [("name", JArr [JObj [("message", JStr "required")]])] _ _);
    try reflexivity.
  split_and!.
  - apply NoDup_singleton.
  - compute_done.
  - repeat constructor. eexists. split; [reflexivity|].
    repeat constructor. by eexists.
Defined.

(** C6 as stated fails: a response of the Sails error shape that has no
    [errors] field is rejected as it is, not as an [InvalidError]. *)
Lemma error_shape_without_errors_is_not_wrapped :
  isErrorObject
    (JObj [("error", JStr "E_VALIDATION"); ("model", JStr "User");
           ("summary", JStr "1 attribute is invalid"); ("status", JNum 400)])
  = true /\
  processRequest
    (Fulfilled
       (JObj [("error", JStr "E_VALIDATION"); ("model", JStr "User");
              ("summary", JStr "1 attribute is invalid"); ("status", JNum 400)]))
  = AjaxRejected
      (JObj [("error", JStr "E_VALIDATION"); ("model", JStr "User");
             ("summary", JStr "1 attribute is invalid"); ("status", JNum 400)]).
Proof. split; reflexivity. Qed.

(** ** CSRF coordination *)

Ltac wsimpl :=
  cbv beta iota zeta delta
    [set_useCSRF set_csrfToken set__csrfTokenLoadingPromise
     set__scheduledSubscriptions set_subscribeMethod set_subscribeEndpoint
     set_sailsSocket set_handlers set_outbox set_loaded set_pushed
     set_promises set_reactions set_actions set_debounced set_fetches
     set_heap
     useCSRF csrfToken _csrfTokenLoadingPromise _scheduledSubscriptions
     subscribeMethod subscribeEndpoint sailsSocket handlers outbox loaded
     pushed promises reactions actions debounced fetches heap
     register new_promise _fetchCSRFToken schedule_trigger] in *.

Lemma lookup_tail {A} (ps tail : list A) (i : nat) :
  (ps ++ tail) !! (length ps + i)%nat = tail !! i.
Proof. by rewrite lookup_app_r, Nat.add_comm, Nat.add_sub by lia. Qed.

Lemma lookup_at {A} (ps tail : list A) (i k : nat) :
  i = (length ps + k)%nat -> (ps ++ tail) !! i = tail !! k.
Proof. intros ->. apply lookup_tail. Qed.

Lemma insert_at {A} (ps tail : list A) (i k : nat) (x : A) :
  i = (length ps + k)%nat -> <[i := x]> (ps ++ tail) = ps ++ <[k := x]> tail.
Proof. intros ->. apply insert_app_r. Qed.

Ltac table :=
  repeat first
    [ rewrite (lookup_at _ _ _ 0) by lia | rewrite (lookup_at _ _ _ 1) by lia
    | rewrite (lookup_at _ _ _ 2) by lia | rewrite (lookup_at _ _ _ 3) by lia
    | rewrite (insert_at _ _ _ 0) by lia | rewrite (insert_at _ _ _ 1) by lia
    | rewrite (insert_at _ _ _ 2) by lia | rewrite (insert_at _ _ _ 3) by lia ];
  cbn [lookup list_lookup insert list_insert].

Lemma tick_first tl (w : World) r rs st :
  reactions w = r :: rs ->
  settled_of (source r) w = Some st ->
  tick tl w = react tl r st (set_reactions rs w).
Proof. intros Hr Hs. unfold tick. rewrite Hr. simpl. by rewrite Hs. Qed.

Lemma settle_pending (w : World) p r :
  promises w !! p = Some None ->
  settle p r w = set_promises (<[p := Some r]> (promises w)) w.
Proof. intros H. unfold settle. by rewrite H. Qed.

Lemma fetch_start (w : World) (force : JsVal) :
  useCSRF w = true ->
  truthy force || negb (truthy (csrfToken w)) = true ->
  _csrfTokenLoadingPromise w = None ->
  let n := length (promises w) in
  fetchCSRFToken force w
  = ((n + 3)%nat,
     set__csrfTokenLoadingPromise (Some (n + 3)%nat)
       (set_reactions (reactions w ++ [OnToken n (n + 1); OnFetchError (n + 1) (n + 2);
                                       OnFetchDone (n + 2) (n + 3)])
          (set_promises (promises w ++ [None; None; None; None])
             (set_fetches (fetches w ++ [n])
                (set_csrfToken JNull w))))).
Proof.
  intros Hu Hf Hl n. unfold fetchCSRFToken. rewrite Hu, Hf, Hl. subst n.
  destruct w. wsimpl.
  rewrite !length_app. cbn [length]. rewrite <- !app_assoc.
  rewrite <- !Nat.add_assoc. cbn [app andb Nat.add].
  reflexivity.
Qed.

Lemma fetch_joins (w : World) (force : JsVal) (p : nat) :
  useCSRF w = true ->
  truthy force || negb (truthy (csrfToken w)) = true ->
  _csrfTokenLoadingPromise w = Some p ->
  fetchCSRFToken force w = (p, w).
Proof. intros Hu Hf Hl. unfold fetchCSRFToken. by rewrite Hu, Hf, Hl. Qed.

Lemma fetch_all_joins (w : World) (forces : list JsVal) (p : nat) :
  useCSRF w = true ->
  truthy (csrfToken w) = false ->
  _csrfTokenLoadingPromise w = Some p ->
  fetch_all forces w = (replicate (length forces) p, w).
Proof.
  intros Hu Ht Hl. induction forces as [|f forces IH]; [done|].
  cbn [fetch_all]. rewrite (fetch_joins w f p), IH; try done.
  rewrite Ht. apply orb_true_r.
Qed.

Ltac run_tick :=
  rewrite Nat.iter_succ_r;
  erewrite tick_first;
    [ | reflexivity | unfold settled_of; wsimpl; cbn [source]; table; reflexivity ];
  cbn [react]; unfold settle; wsimpl; table; wsimpl.

Lemma drain_success toLowerCase (w : World) (tokenObject token : JsVal) :
  reactions w = [] ->
  get tokenObject "_csrf" = Some token ->
  truthy token = true ->
  let n := length (promises w) in
  drain toLowerCase
    (fetch_settles n (Fulfilled tokenObject)
       (set__csrfTokenLoadingPromise (Some (n + 3)%nat)
       (set_reactions (reactions w ++ [OnToken n (n + 1); OnFetchError (n + 1) (n + 2);
                                       OnFetchDone (n + 2) (n + 3)])
          (set_promises (promises w ++ [None; None; None; None])
             (set_fetches (fetches w ++ [n])
                (set_csrfToken JNull w))))))
  = set__csrfTokenLoadingPromise None
      (set_reactions []
         (set_promises (promises w ++ [Some (Fulfilled token); Some (Fulfilled token);
                                       Some (Fulfilled token); Some (Fulfilled token)])
            (set_actions (actions w ++ [("didLoadCSRF", [token])])
               (set_fetches (fetches w ++ [n])
                  (set_csrfToken token w))))).
Proof.
  intros Hr Hg Ht n. subst n. destruct w. wsimpl. subst.
  unfold fetch_settles. wsimpl.
  rewrite bool_decide_eq_true_2 by (apply elem_of_app; right; by left).
  unfold token_of. rewrite Hg.
  rewrite settle_pending by (wsimpl; apply list_lookup_middle; done).
  unfold drain. wsimpl. cbn [app length]. table.
  run_tick. rewrite Ht. cbn [negb]. wsimpl. table. wsimpl.
  run_tick. run_tick. cbn [Nat.iter].
  reflexivity.
Qed.

Lemma drain_failure toLowerCase (w : World) (error : JsVal) :
  reactions w = [] ->
  let n := length (promises w) in
  drain toLowerCase
    (fetch_settles n (Rejected error)
       (set__csrfTokenLoadingPromise (Some (n + 3)%nat)
       (set_reactions (reactions w ++ [OnToken n (n + 1); OnFetchError (n + 1) (n + 2);
                                       OnFetchDone (n + 2) (n + 3)])
          (set_promises (promises w ++ [None; None; None; None])
             (set_fetches (fetches w ++ [n])
                (set_csrfToken JNull w))))))
  = set__csrfTokenLoadingPromise None
      (set_reactions []
         (set_promises (promises w ++ [Some (Rejected error); Some (Rejected error);
                                       Some (Fulfilled error); Some (Fulfilled error)])
            (set_actions (actions w ++ [("didLoadCSRF", [JNull; error])])
               (set_fetches (fetches w ++ [n])
                  (set_csrfToken JNull w))))).
Proof.
  intros Hr n. subst n. destruct w. wsimpl. subst.
  unfold fetch_settles. wsimpl.
  rewrite bool_decide_eq_true_2 by (apply elem_of_app; right; by left).
  unfold token_of.
  rewrite settle_pending by (wsimpl; apply list_lookup_middle; done).
  unfold drain. wsimpl. cbn [app length]. table.
  run_tick. run_tick. run_tick. cbn [Nat.iter].
  reflexivity.
Qed.

Lemma fetch_cached (w : World) (force : JsVal) :
  truthy force = false ->
  truthy (csrfToken w) = true ->
  fetchCSRFToken force w = new_promise (Some (Fulfilled JNull)) w.
Proof.
  intros Hf Ht. unfold fetchCSRFToken. rewrite Hf, Ht.
  by rewrite andb_false_r.
Qed.

Lemma fetch_all_cached (w : World) (calls : list JsVal) :
  truthy (csrfToken w) = true ->
  Forall (fun force => truthy force = false) calls ->
  fetch_all calls w
  = (seq (length (promises w)) (length calls),
     set_promises (promises w ++ replicate (length calls) (Some (Fulfilled JNull))) w).
Proof.
  intros Ht Hall. revert w Ht.
  induction Hall as [|f calls Hf _ IH]; intros w Ht.
  - cbn [fetch_all length seq replicate]. rewrite app_nil_r. by destruct w.
  - cbn [fetch_all]. rewrite fetch_cached by done.
    unfold new_promise. rewrite IH by (by destruct w).
    destruct w. wsimpl. rewrite length_app, <- app_assoc, Nat.add_1_r.
    reflexivity.
Qed.

Lemma resolved_promises (w : World) (k : nat) :
  Forall (fun p => settled_of p
            (set_promises (promises w ++ replicate k (Some (Fulfilled JNull))) w)
          = Some (Fulfilled JNull))
         (seq (length (promises w)) k).
Proof.
  apply Forall_forall. intros p [Hge Hlt]%elem_of_seq.
  unfold settled_of. destruct w. wsimpl.
  rewrite lookup_app_r by lia.
  rewrite lookup_replicate_2 by lia. done.
Qed.

Lemma fetch_all_idle (w : World) (force : JsVal) (forces : list JsVal) :
  useCSRF w = true ->
  truthy (csrfToken w) = false ->
  _csrfTokenLoadingPromise w = None ->
  let n := length (promises w) in
  fetch_all (force :: forces) w
  = (replicate (S (length forces)) (n + 3)%nat,
     set__csrfTokenLoadingPromise (Some (n + 3)%nat)
       (set_reactions (reactions w ++
          [OnToken n (n + 1); OnFetchError (n + 1) (n + 2);
           OnFetchDone (n + 2) (n + 3)])
          (set_promises (promises w ++ [None; None; None; None])
             (set_fetches (fetches w ++ [n])
                (set_csrfToken JNull w))))).
Proof.
  intros Hu Ht Hl n.
  cbn [fetch_all]. rewrite fetch_start; [|done|by rewrite Ht, orb_true_r|done].
  cbv zeta. fold n.
  rewrite (fetch_all_joins _ forces (n + 3)%nat); [done| | |]; by destruct w.
Qed.

(** C1: with [useCSRF] on and no token cached, the calls of
    [fetchCSRFToken] made while the fetch is in flight all return the same
    pending promise and [_fetchCSRFToken] is called once; when the request
    answers with a token, that promise resolves with it for every caller. *)
Theorem concurrent_fetches_share_one_request :
  forall (toLowerCase : string -> string) (w : World) (forces : list JsVal),
    useCSRF w = true ->
    truthy (csrfToken w) = false ->
    _csrfTokenLoadingPromise w = None ->
    reactions w = [] ->
    forces <> [] ->
    let request := length (promises w) in
    let shared := (request + 3)%nat in
    let w1 := (fetch_all forces w).2 in
    (fetch_all forces w).1 = replicate (length forces) shared /\
    fetches w1 = fetches w ++ [request] /\
    settled_of shared w1 = None /\
    forall tokenObject token : JsVal,
      get tokenObject "_csrf" = Some token ->
      truthy token = true ->
      let w2 := drain toLowerCase
                  (fetch_settles request (Fulfilled tokenObject) w1) in
      settled_of shared w2 = Some (Fulfilled token) /\
      csrfToken w2 = token /\
      fetches w2 = fetches w ++ [request].
Proof.
  intros tl w forces Hu Ht Hl Hr Hne request shared w1.
  destruct forces as [|force forces]; [done|].
  subst w1. rewrite fetch_all_idle by done. cbn [fst snd]. split_and!.
  - done.
  - by destruct w.
  - unfold settled_of. destruct w. wsimpl. subst shared request. table. done.
  - intros tokenObject token Hg Htok. cbv zeta. subst shared request.
    rewrite (drain_success tl w tokenObject token) by done.
    unfold settled_of. destruct w. wsimpl. table. done.
Qed.

(** Three callers, one of them forcing, at a new adapter. *)
Lemma concurrent_fetches_share_one_request_witness :
  (fetch_all [JUndefined; JBool true; JUndefined] (init true)).1
  = [3; 3; 3]%nat /\
  fetches (fetch_all [JUndefined; JBool true; JUndefined] (init true)).2
  = [0%nat].
Proof.
  pose proof (concurrent_fetches_share_one_request (fun s => s) (init true)
                [JUndefined; JBool true; JUndefined]
                eq_refl eq_refl eq_refl eq_refl ltac:(discriminate)) as H.
  cbv zeta in H. destruct H as (H1 & H2 & _).
  split; [exact H1 | exact H2].
Defined.

(** C3, as the code has it: when the request of [_fetchCSRFToken] fails,
    [csrfToken] stays cleared and the next call of [fetchCSRFToken] starts a
    new request; the promise the waiting callers share is resolved with the
    error as its value (the [catch] handler returns it), and a [didLoadCSRF]
    event carrying the error is scheduled. *)
Theorem failed_fetch_keeps_token_cleared :
  forall (toLowerCase : string -> string) (w : World) (forces : list JsVal)
         (error : JsVal),
    useCSRF w = true ->
    truthy (csrfToken w) = false ->
    _csrfTokenLoadingPromise w = None ->
    reactions w = [] ->
    forces <> [] ->
    let request := length (promises w) in
    let shared := (request + 3)%nat in
    let w1 := (fetch_all forces w).2 in
    let w2 := drain toLowerCase (fetch_settles request (Rejected error) w1) in
    csrfToken w2 = JNull /\
    _csrfTokenLoadingPromise w2 = None /\
    settled_of shared w2 = Some (Fulfilled error) /\
    actions w2 = actions w ++ [("didLoadCSRF", [JNull; error])] /\
    forall force,
      fetches (fetchCSRFToken force w2).2 = fetches w2 ++ [length (promises w2)] /\
      settled_of (fetchCSRFToken force w2).1 (fetchCSRFToken force w2).2 = None.
Proof.
  intros tl w forces error Hu Ht Hl Hr Hne request shared w1 w2.
  destruct forces as [|force forces]; [done|].
  subst w2 w1. rewrite fetch_all_idle by done. cbn [fst snd].
  subst shared request.
  rewrite (drain_failure tl w error) by done.
  split_and!.
  - by destruct w.
  - by destruct w.
  - unfold settled_of. destruct w. wsimpl. table. done.
  - by destruct w.
  - intros force'. rewrite fetch_start.
    + cbv zeta. cbn [fst snd]. split; [by destruct w|].
      unfold settled_of. destruct w. wsimpl. table. done.
    + by destruct w.
    + destruct w. wsimpl. apply orb_true_r.
    + by destruct w.
Qed.

(** One caller at a new adapter; the server is unreachable. *)
Lemma failed_fetch_keeps_token_cleared_witness :
  csrfToken
    (drain (fun s => s)
       (fetch_settles 0 (Rejected (JStr "unreachable"))
          (fetch_all [JUndefined] (init true)).2))
  = JNull.
Proof.
  exact (proj1 (failed_fetch_keeps_token_cleared (fun s => s) (init true)
                  [JUndefined] (JStr "unreachable")
                  eq_refl eq_refl eq_refl eq_refl ltac:(discriminate))).
Defined.

(** C3 as stated fails: after the request has failed, the promise the
    callers wait on is fulfilled (with the error as its value), not
    rejected. *)
Lemma failed_fetch_promise_is_fulfilled :
  (fetch_all [JUndefined] (init true)).1 = [3%nat] /\
  settled_of 3
    (drain (fun s => s)
       (fetch_settles 0 (Rejected (JStr "unreachable"))
          (fetch_all [JUndefined] (init true)).2))
  = Some (Fulfilled (JStr "unreachable")).
Proof. split; reflexivity. Qed.

(** C4: after a successful fetch the token is cached in [csrfToken]; from
    any state with a cached token, calls of [fetchCSRFToken] without [force]
    start no request, leave the token in place and return promises already
    resolved; a call with [force], or a call after the token has been
    cleared, starts a new request. *)
Theorem cached_token_suppresses_fetches :
  forall (toLowerCase : string -> string) (w : World) (forces : list JsVal)
         (tokenObject token : JsVal),
    useCSRF w = true ->
    truthy (csrfToken w) = false ->
    _csrfTokenLoadingPromise w = None ->
    reactions w = [] ->
    forces <> [] ->
    get tokenObject "_csrf" = Some token ->
    truthy token = true ->
    let w2 := drain toLowerCase
                (fetch_settles (length (promises w)) (Fulfilled tokenObject)
                   (fetch_all forces w).2) in
    csrfToken w2 = token /\
    (forall calls,
       Forall (fun force => truthy force = false) calls ->
       let w3 := (fetch_all calls w2).2 in
       fetches w3 = fetches w2 /\
       csrfToken w3 = token /\
       Forall (fun p => settled_of p w3 = Some (Fulfilled JNull))
              (fetch_all calls w2).1) /\
    (forall force,
       truthy force = true ->
       fetches (fetchCSRFToken force w2).2
       = fetches w2 ++ [length (promises w2)]) /\
    (forall force,
       fetches (fetchCSRFToken force (set_csrfToken JNull w2)).2
       = fetches w2 ++ [length (promises w2)]).
Proof.
  intros tl w forces tokenObject token Hu Ht Hl Hr Hne Hg Htok w2.
  destruct forces as [|force forces]; [done|].
  subst w2. rewrite fetch_all_idle by done. cbn [fst snd].
  rewrite (drain_success tl w tokenObject token) by done.
  split_and!.
  - by destruct w.
  - intros calls Hcalls. cbv zeta.
    rewrite fetch_all_cached; [|by destruct w|done].
    cbn [fst snd]. split_and!; [by destruct w|by destruct w|].
    match goal with
    | |- Forall _ (seq (length ?ps) ?k) =>
        pose proof (resolved_promises
                      (set__csrfTokenLoadingPromise None
                         (set_reactions []
                            (set_promises ps
                               (set_actions (actions w ++ [("didLoadCSRF", [token])])
                                  (set_fetches (fetches w ++ [length (promises w)])
                                     (set_csrfToken token w)))))) k) as Hres
    end.
    destruct w. exact Hres.
  - intros force' Hf. rewrite fetch_start.
    + by destruct w.
    + by destruct w.
    + by rewrite Hf.
    + by destruct w.
  - intros force'. rewrite fetch_start.
    + by destruct w.
    + by destruct w.
    + destruct w. wsimpl. apply orb_true_r.
    + by destruct w.
Qed.

(** The token of the unit tests, fetched once and then reused. *)
Lemma cached_token_suppresses_fetches_witness :
  csrfToken
    (drain (fun s => s)
       (fetch_settles 0 (Fulfilled (JObj [("_csrf", JStr "abcdefgh012345")]))
          (fetch_all [JUndefined] (init true)).2))
  = JStr "abcdefgh012345".
Proof.
  exact (proj1 (cached_token_suppresses_fetches (fun s => s) (init true)
                  [JUndefined] (JObj [("_csrf", JStr "abcdefgh012345")])
                  (JStr "abcdefgh012345")
                  eq_refl eq_refl eq_refl eq_refl ltac:(discriminate)
                  eq_refl eq_refl)).
Defined.

(** ** Subscription batching *)

Section Batching.

Variable camelize : string -> string.
Variable toLowerCase : string -> string.
Variable modelFor : string -> string.
Variable shouldSubscribe : string -> RecordId -> bool.

Abbreviation scheduleSubscribe := (_scheduleSubscribe camelize shouldSubscribe).
Abbreviation pending := (SailsAdapter.pending camelize).
Abbreviation same_request := (SailsAdapter.same_request shouldSubscribe).
Abbreviation listenToSocket := (_listenToSocket camelize toLowerCase modelFor).
Abbreviation subscribeScheduled :=
  (_subscribeScheduled camelize toLowerCase modelFor).

Lemma schedule_first (w : World) (modelName : string) (id : RecordId) :
  truthy (id_val id) = true ->
  shouldSubscribe modelName id = true ->
  id_to_string id ∉ inherited ->
  _scheduledSubscriptions w = None ->
  scheduleSubscribe modelName id w
  = set_debounced (Some 50%nat)
      (set__scheduledSubscriptions
         (Some (pending modelName (id_to_string id))) w).
Proof.
  intros Hid Hs Hin Hn. unfold _scheduleSubscribe. rewrite Hid, Hs, Hn.
  cbn [andb default from_option Datatypes.id]. unfold sub_object.
  cbn [obj_get]. rewrite truthy_at_plain by done. done.
Qed.

Lemma schedule_again (w : World) (modelName : string) (id : RecordId) :
  truthy (id_val id) = true ->
  shouldSubscribe modelName id = true ->
  id_to_string id ∉ inherited ->
  _scheduledSubscriptions w = Some (pending modelName (id_to_string id)) ->
  scheduleSubscribe modelName id w
  = set_debounced (Some 50%nat)
      (set__scheduledSubscriptions
         (Some (pending modelName (id_to_string id))) w).
Proof.
  intros Hid Hs Hin Hn. unfold _scheduleSubscribe. rewrite Hid, Hs, Hn.
  unfold SailsAdapter.pending, sub_object.
  cbn [andb default from_option Datatypes.id obj_get obj_set].
  rewrite !String.eqb_refl. rewrite truthy_at_plain by done.
  cbn [obj_get obj_set truthy Z.eqb negb].
  rewrite !String.eqb_refl. done.
Qed.

Lemma elapse_short (w : World) (wait ms : nat) :
  debounced w = Some wait -> (ms < wait)%nat ->
  elapse camelize toLowerCase modelFor ms w
  = set_debounced (Some (wait - ms)%nat) w.
Proof.
  intros Hd Hlt. unfold elapse. rewrite Hd.
  destruct (Nat.leb_spec wait ms); [lia | done].
Qed.

Lemma window_armed (w : World) (modelName sid : string)
    (calls : list (nat * RecordId)) :
  Forall (same_request modelName sid) calls ->
  sid ∉ inherited ->
  _scheduledSubscriptions w = Some (pending modelName sid) ->
  debounced w = Some 50%nat ->
  window camelize toLowerCase modelFor shouldSubscribe modelName calls w = w.
Proof.
  intros Hall Hin Hs Hd.
  induction Hall as [|[gap id] calls (Hg & Hid & _ & Hsh & Hsid) _ IH]; [done|].
  cbn [window]. cbn [fst snd] in *.
  rewrite (elapse_short w 50 gap) by done.
  rewrite schedule_again; [|done|done|by subst sid|by subst sid; destruct w].
  subst sid.
  assert (set_debounced (Some 50%nat)
            (set__scheduledSubscriptions
               (Some (pending modelName (id_to_string id)))
               (set_debounced (Some (50 - gap)%nat) w)) = w) as ->; [|apply IH].
  destruct w. wsimpl. by subst.
Qed.

(** The calls of a window leave the pending set of one identifier and the
    timer at its full wait. *)
Lemma window_opens (w : World) (modelName sid : string)
    (calls : list (nat * RecordId)) :
  calls <> [] ->
  Forall (same_request modelName sid) calls ->
  sid ∉ inherited ->
  debounced w = None ->
  _scheduledSubscriptions w = None ->
  window camelize toLowerCase modelFor shouldSubscribe modelName calls w
  = set_debounced (Some 50%nat)
      (set__scheduledSubscriptions (Some (pending modelName sid)) w).
Proof.
  intros Hne Hall Hin Hd Hs.
  destruct calls as [|[gap id] rest]; [done|].
  apply Forall_cons in Hall as [(Hg & Hid & _ & Hsh & Hsid) Hall].
  cbn [fst snd] in *. cbn [window].
  assert (elapse camelize toLowerCase modelFor gap w = w) as ->
    by (unfold elapse; by rewrite Hd).
  rewrite schedule_first by (try done; by subst sid). rewrite Hsid.
  by rewrite (window_armed _ modelName sid rest) by (try done; by destruct w).
Qed.

(** Where the socket service listens for the event already,
    [_listenToSocket] returns at once. *)
Lemma listen_known (w : World) (model : string) :
  is_Some (_listeners (sailsSocket w) !! toLowerCase (camelize model)) ->
  listenToSocket model w = (Returns tt, w).
Proof.
  intros [b Hb]. unfold _listenToSocket, listenFor.
  cbn [default from_option Datatypes.id]. rewrite Hb. by destruct w.
Qed.

Lemma fetch_skips (w : World) :
  useCSRF w = false \/ truthy (csrfToken w) = true ->
  fetchCSRFToken JUndefined w = new_promise (Some (Fulfilled JNull)) w.
Proof.
  intros [Hu|Ht]; unfold fetchCSRFToken.
  - by rewrite Hu.
  - rewrite Ht. by rewrite andb_false_r.
Qed.

(** The flush of one pending identifier, up to its call of
    [fetchCSRFToken]. *)
Lemma flush_asks (w : World) (modelName sid : string) :
  _scheduledSubscriptions w = Some (pending modelName sid) ->
  is_Some (_listeners (sailsSocket w)
           !! toLowerCase (camelize (camelize modelName))) ->
  truthy (subscribeMethod w) = true ->
  truthy (subscribeEndpoint w) = true ->
  let at_ := fresh (dom (heap w)) in
  let w0 := set_heap (<[at_ := [(camelize modelName, JArr [JStr sid])]]> (heap w))
              (set__scheduledSubscriptions None (set_debounced None w)) in
  subscribeScheduled (set_debounced None w)
  = (Returns tt,
     register (OnSubscribeReady (fetchCSRFToken JUndefined w0).1
                 (subscribeMethod w) (subscribeEndpoint w) at_)
       (fetchCSRFToken JUndefined w0).2).
Proof.
  intros Hs Hl Htm Hte at_ w0. unfold _subscribeScheduled.
  replace (_scheduledSubscriptions (set_debounced None w))
    with (Some (pending modelName sid)) by (by destruct w).
  unfold SailsAdapter.pending. cbn [keys map fst foldl collect].
  rewrite listen_known by (by destruct w).
  cbn [obj_get obj_set]. rewrite String.eqb_refl.
  replace (truthy (subscribeEndpoint (set_debounced None w))) with true
    by (by destruct w).
  replace (truthy (subscribeMethod (set_debounced None w))) with true
    by (by destruct w).
  cbn [andb].
  unfold id_list.
  cbn [own_entries default from_option Datatypes.id keys map fmap list_fmap fst].
  replace (set_heap _ (set__scheduledSubscriptions None (set_debounced None w)))
    with w0 by (subst w0 at_; by destruct w).
  replace (fresh (dom (heap (set__scheduledSubscriptions None (set_debounced None w)))))
    with at_ by (subst at_; by destruct w).
  replace (subscribeMethod (set_debounced None w)) with (subscribeMethod w)
    by (by destruct w).
  replace (subscribeEndpoint (set_debounced None w)) with (subscribeEndpoint w)
    by (by destruct w).
  by destruct (fetchCSRFToken JUndefined w0).
Qed.

(** The payload of a flush for one identifier, as [checkCSRF] leaves it. *)
Lemma signed_payload (key sid : string) (token : JsVal) :
  let payload := obj_set [(key, JArr [JStr sid])] "_csrf" token in
  (key <> "_csrf" -> obj_get payload key = JArr [JStr sid]) /\
  obj_get payload "_csrf" = token /\
  (forall k, k <> key -> k <> "_csrf" -> obj_get payload k = JUndefined).
Proof.
  intros payload. subst payload. split_and!.
  - intros Hk. rewrite obj_get_set_ne by done. cbn [obj_get].
    by rewrite String.eqb_refl.
  - apply obj_get_set_eq.
  - intros k Hk Hc. rewrite obj_get_set_ne by done. cbn [obj_get].
    by destruct (String.eqb_spec key k).
Qed.

(** The flush when no token has to be fetched: the request leaves on the
    next turn of the run loop. *)
Lemma flush_sends_once (w : World) (modelName sid m : string) :
  _scheduledSubscriptions w = Some (pending modelName sid) ->
  is_Some (_listeners (sailsSocket w)
           !! toLowerCase (camelize (camelize modelName))) ->
  reactions w = [] ->
  subscribeMethod w = JStr m ->
  truthy (subscribeMethod w) = true ->
  truthy (subscribeEndpoint w) = true ->
  useCSRF w = false \/ truthy (csrfToken w) = true ->
  let w2 := drain toLowerCase (subscribeScheduled (set_debounced None w)).2 in
  outbox w2
  = outbox w ++ [{| call_method := toLowerCase m;
                    call_url := subscribeEndpoint w;
                    call_data :=
                      if useCSRF w
                      then obj_set [(camelize modelName, JArr [JStr sid])]
                             "_csrf" (csrfToken w)
                      else [(camelize modelName, JArr [JStr sid])] |}] /\
  fetches w2 = fetches w /\
  debounced w2 = None /\
  _scheduledSubscriptions w2 = None.
Proof.
  intros Hs Hl Hr Hm Htm Hte Hcsrf w2. subst w2.
  rewrite (flush_asks w modelName sid) by done. cbn [snd fst].
  rewrite fetch_skips by (destruct w; wsimpl; tauto).
  unfold new_promise. cbn [fst snd].
  unfold drain. destruct w. wsimpl. subst. cbn [app length].
  rewrite Nat.iter_succ_r.
  erewrite tick_first;
    [ | reflexivity
      | unfold settled_of; wsimpl; cbn [source];
        rewrite list_lookup_middle by done; reflexivity ].
  cbn [react Nat.iter]. unfold checkCSRF, socket_request. wsimpl.
  destruct useCSRF0; cbn [negb].
  - destruct Hcsrf as [|Ht]; [done|]. rewrite Ht. cbn [negb].
    rewrite lookup_insert_eq. wsimpl. rewrite lookup_insert_eq.
    cbn [default from_option Datatypes.id]. done.
  - wsimpl. rewrite lookup_insert_eq. cbn [default from_option Datatypes.id].
    done.
Qed.

(** The flush when the token has to be fetched first: one token request
    leaves, and the subscription follows it only if it brings a token. *)
Lemma flush_waits (w : World) (modelName sid m : string) :
  _scheduledSubscriptions w = Some (pending modelName sid) ->
  is_Some (_listeners (sailsSocket w)
           !! toLowerCase (camelize (camelize modelName))) ->
  reactions w = [] ->
  subscribeMethod w = JStr m ->
  truthy (subscribeMethod w) = true ->
  truthy (subscribeEndpoint w) = true ->
  useCSRF w = true ->
  truthy (csrfToken w) = false ->
  _csrfTokenLoadingPromise w = None ->
  let n := length (promises w) in
  let w2 := drain toLowerCase (subscribeScheduled (set_debounced None w)).2 in
  outbox w2 = outbox w /\
  fetches w2 = fetches w ++ [n] /\
  debounced w2 = None /\
  _scheduledSubscriptions w2 = None /\
  forall r : Settled,
    let w3 := drain toLowerCase (fetch_settles n r w2) in
    (forall token, token_of r = Fulfilled token -> truthy token = true ->
       outbox w3
       = outbox w ++ [{| call_method := toLowerCase m;
                         call_url := subscribeEndpoint w;
                         call_data :=
                           obj_set [(camelize modelName, JArr [JStr sid])]
                             "_csrf" token |}]) /\
    ((forall token, token_of r = Fulfilled token -> truthy token = false) ->
     outbox w3 = outbox w).
Proof.
  intros Hs Hl Hr Hm Htm Hte Hu Ht Hp n w2. subst w2.
  rewrite (flush_asks w modelName sid) by done. cbn [snd fst].
  rewrite fetch_start;
    [|by destruct w|destruct w; wsimpl; rewrite Ht; apply orb_true_r
     |by destruct w].
  cbn [fst snd].
  replace (length (promises (set_heap _ _))) with n by (subst n; by destruct w).
  destruct w. wsimpl. subst. cbn [app].
  assert (forall W, reactions W
            = [OnToken n (n + 1); OnFetchError (n + 1) (n + 2);
               OnFetchDone (n + 2) (n + 3);
               OnSubscribeReady (n + 3) (JStr m) subscribeEndpoint0
                 (fresh (dom heap0))] ->
            promises W = promises0 ++ [None; None; None; None] ->
            drain toLowerCase W = W) as Hidle.
  { intros W HW HP.
    assert (tick toLowerCase W = W) as Htick.
    { unfold tick. rewrite HW.
      unfold pick_ready, settled_of. rewrite HP. cbn [source]. subst n.
      table. reflexivity. }
    unfold drain. rewrite HW. cbn [length].
    rewrite !Nat.iter_succ_r, !Htick. reflexivity. }
  rewrite !Hidle by reflexivity.
  wsimpl. split_and!; try done.
  intros r. unfold fetch_settles. wsimpl.
  rewrite bool_decide_eq_true_2 by (apply elem_of_app; right; by left).
  rewrite settle_pending by (wsimpl; subst n; apply list_lookup_middle; done).
  unfold drain. wsimpl. cbn [length]. subst n. table.
  destruct (token_of r) as [token|error] eqn:Er.
  - destruct (truthy token) eqn:Etok.
    + split; [|intros H; by rewrite (H token eq_refl) in Etok].
      intros token' [= <-] _.
      run_tick. rewrite Etok. cbn [negb]. wsimpl. table. wsimpl.
      run_tick. run_tick. run_tick. cbn [Nat.iter].
      unfold checkCSRF, socket_request. wsimpl. rewrite Etok. cbn [negb].
      rewrite lookup_insert_eq. wsimpl. rewrite lookup_insert_eq.
      cbn [default from_option Datatypes.id]. done.
    + split; [intros token' [= <-]; congruence|]. intros _.
      run_tick. rewrite Etok. cbn [negb]. wsimpl. table. wsimpl.
      run_tick. run_tick. run_tick. cbn [Nat.iter].
      unfold checkCSRF. wsimpl. done.
  - split; [done|]. intros _.
    run_tick. run_tick. run_tick. run_tick. cbn [Nat.iter].
    unfold checkCSRF. wsimpl. done.
Qed.

(** C2, as the code has it by design: N >= 1 calls of [_scheduleSubscribe]
    for one model type with identifiers that are truthy, accepted by
    [shouldSubscribe] and equal as strings (numbers being safe integers, the
    string and the camelized model name no names of [Object.prototype]),
    each within the debounce wait of the one before, on an adapter at rest
    whose socket service listens for the event of the model already, send
    nothing while the window is open.  Once 50 ms have passed without a
    call, and with [subscribeMethod] a non-empty string and
    [subscribeEndpoint] truthy, exactly one request is handed to the socket
    service: at once when [useCSRF] is off or a token is cached, and
    otherwise after the one token request it starts has brought a non-empty
    token (none is sent when that request fails).  Its payload lists the
    identifier once under the camelized model name (unless that name is
    [_csrf] while [useCSRF] is on) and carries the token as [_csrf] when
    [useCSRF] is on. *)
Theorem batched_subscription_sent_once :
  forall (w : World) (modelName sid m : string)
         (calls : list (nat * RecordId)) (final : nat),
    calls <> [] ->
    Forall (same_request modelName sid) calls ->
    sid ∉ inherited ->
    camelize modelName ∉ inherited ->
    is_Some (_listeners (sailsSocket w)
             !! toLowerCase (camelize (camelize modelName))) ->
    (50 <= final)%nat ->
    debounced w = None ->
    _scheduledSubscriptions w = None ->
    reactions w = [] ->
    _csrfTokenLoadingPromise w = None ->
    subscribeMethod w = JStr m ->
    truthy (subscribeMethod w) = true ->
    truthy (subscribeEndpoint w) = true ->
    let key := camelize modelName in
    let listed (payload : Obj) :=
      (useCSRF w = false \/ key <> "_csrf" ->
       obj_get payload key = JArr [JStr sid]) /\
      (forall k, k <> key -> k <> "_csrf" -> obj_get payload k = JUndefined) in
    let request (payload : Obj) :=
      {| call_method := toLowerCase m; call_url := subscribeEndpoint w;
         call_data := payload |} in
    let w1 := window camelize toLowerCase modelFor shouldSubscribe
                modelName calls w in
    let w2 := drain toLowerCase
                (elapse camelize toLowerCase modelFor final w1) in
    outbox w1 = outbox w /\
    debounced w2 = None /\
    _scheduledSubscriptions w2 = None /\
    (useCSRF w = false \/ truthy (csrfToken w) = true ->
     exists payload,
       outbox w2 = outbox w ++ [request payload] /\
       listed payload /\
       fetches w2 = fetches w /\
       (useCSRF w = true -> obj_get payload "_csrf" = csrfToken w)) /\
    (useCSRF w = true -> truthy (csrfToken w) = false ->
     outbox w2 = outbox w /\
     fetches w2 = fetches w ++ [length (promises w)] /\
     forall r : Settled,
       let w3 := drain toLowerCase
                   (fetch_settles (length (promises w)) r w2) in
       (forall token, token_of r = Fulfilled token -> truthy token = true ->
          exists payload,
            outbox w3 = outbox w ++ [request payload] /\
            listed payload /\
            obj_get payload "_csrf" = token) /\
       ((forall token, token_of r = Fulfilled token -> truthy token = false) ->
        outbox w3 = outbox w)).
Proof.
  intros w modelName sid m calls final Hne Hall Hsid Hkey Hl Hfinal Hd Hs Hr Hp
    Hm Htm Hte key listed request w1 w2.
  subst w1 w2. rewrite (window_opens w modelName sid calls) by done.
  set (w1 := set_debounced (Some 50%nat)
               (set__scheduledSubscriptions (Some (pending modelName sid)) w)).
  assert (elapse camelize toLowerCase modelFor final w1
          = (subscribeScheduled (set_debounced None w1)).2) as ->.
  { unfold elapse.
    replace (debounced w1) with (Some 50%nat) by (by destruct w).
    by destruct (Nat.leb_spec 50 final) as [_|]; [|lia]. }
  assert (outbox w1 = outbox w) as Ho by (by destruct w).
  assert (fetches w1 = fetches w) as Hf by (by destruct w).
  assert (promises w1 = promises w) as Hpr by (by destruct w).
  assert (subscribeEndpoint w1 = subscribeEndpoint w) as He by (by destruct w).
  assert (useCSRF w1 = useCSRF w) as Hu1 by (by destruct w).
  assert (csrfToken w1 = csrfToken w) as Ht1 by (by destruct w).
  split; [done|].
  destruct (useCSRF w) eqn:Hu; [destruct (truthy (csrfToken w)) eqn:Ht|].
  - destruct (flush_sends_once w1 modelName sid m)
      as (Hout & Hfe & Hde & Hsc); [by destruct w..| |].
    { right. by rewrite Ht1. }
    rewrite Hu1, Ht1, Ho, He in Hout. rewrite Hf in Hfe.
    split_and!; [done|done| |intros _ [=]].
    intros _. eexists. split; [exact Hout|].
    destruct (signed_payload key sid (csrfToken w)) as (Hk & Hc & Hother).
    subst listed. cbv beta. split_and!; try done.
    intros [[=]|Hne']. by apply Hk.
  - destruct (flush_waits w1 modelName sid m)
      as (Hout & Hfe & Hde & Hsc & Hlater);
      [by destruct w..|by rewrite Ht1|by destruct w|].
    rewrite Hpr in Hfe, Hlater. rewrite Ho in Hout. rewrite Hf in Hfe.
    split_and!; [done|done|intros [[=]|[=]]|].
    intros _ _. split_and!; [done|done|].
    intros r. destruct (Hlater r) as [Hyes Hno]. cbv zeta.
    rewrite Ho, He in Hyes. rewrite Ho in Hno. split; [|exact Hno].
    intros token Htok Htruthy. eexists. split; [by apply Hyes|].
    destruct (signed_payload key sid token) as (Hk & Hc & Hother).
    subst listed. cbv beta. split_and!; try done.
    intros [[=]|Hne']. by apply Hk.
  - destruct (flush_sends_once w1 modelName sid m)
      as (Hout & Hfe & Hde & Hsc); [by destruct w..| |].
    { left. by rewrite Hu1. }
    rewrite Hu1, Ho, He in Hout. rewrite Hf in Hfe.
    split_and!; [done|done| |intros [=]].
    intros _. eexists. split; [exact Hout|].
    subst listed. cbv beta. split_and!; try done.
    + intros _. subst key. cbn [obj_get]. by rewrite String.eqb_refl.
    + intros k Hk _. subst key. cbn [obj_get].
      by destruct (String.eqb_spec (camelize modelName) k).
Qed.

End Batching.

(** Number 5 and string "5" for the model [user], 10 ms apart, on an
    adapter whose socket service listens for [user] already. *)
Lemma batched_subscription_sent_once_witness :
  let w := set_sailsSocket
             (set__listeners {[ "user" := false ]} SailsSocketService.init)
             (init false) in
  outbox (window (fun s => s) (fun s => s) (fun s => s) (fun _ _ => true)
            "user" [(0%nat, IdNum 5); (10%nat, IdStr "5")] w)
  = [].
Proof.
  intros w.
  refine (proj1 (batched_subscription_sent_once (fun s => s) (fun s => s)
                   (fun s => s) (fun _ _ => true) w
                   "user" "5" "POST" [(0%nat, IdNum 5); (10%nat, IdStr "5")] 50
                   _ _ _ _ _ _ _ _ _ _ _ _ _)); try reflexivity.
  - discriminate.
  - repeat constructor; cbn; lia.
  - compute_done.
  - compute_done.
  - by eexists.
Defined.

(** C2 as stated fails for the identifier 0: the guard [if (id && ...)] of
    [_scheduleSubscribe] drops it, and no request is sent once the wait is
    over. *)
Lemma identifier_zero_is_not_subscribed :
  truthy (id_val (IdNum 0)) = false /\
  outbox
    (drain (fun s => s)
       (elapse (fun s => s) (fun s => s) (fun s => s) 50
          (window (fun s => s) (fun s => s) (fun s => s) (fun _ _ => true)
             "user" [(0%nat, IdNum 0)] (init false))))
  = [].
Proof. split; reflexivity. Qed.


(** ** Inbound messages *)


Section Dispatch.

Variable camelize : string -> string.
Variable pluralize : string -> string.
Variable toLowerCase : string -> string.
Variable modelFor : string -> string.






End Dispatch.



(** ** The life cycle of the socket service *)

#[local] Set Warnings "-clear-no-such-hyp".

Ltac ssimpl :=
  cbv beta iota zeta delta
    [set_alive set_isInitialized set_isConnected set_pendingOperationCount
     set__listeners set__sailsSocket set__waitingForSockets set_subscribers
     set_tasks set_ioReady set_fired set_connects set_sent set_answers
     set_crashed
     alive isInitialized isConnected pendingOperationCount _listeners
     _sailsSocket _waitingForSockets subscribers tasks ioReady fired connects
     sent answers crashed
     isAlive incPending crash raw_of set_raw with_raw schedule subscribe
     _raw serial connected connecting attached
     addEventListener removeEventListener set_connection fresh_raw
     give respond waitObject _reconnect _load io_sails_connect
     negb andb orb fst snd
     pending_init life_cycle listeners_follow invariant readying
     disconnecting] in *.

Lemma elem_of_remove_first (a b : RawListener) (ls : list RawListener) :
  b <> a -> b ∈ ls -> b ∈ remove_first a ls.
Proof.
  intros Hne. induction ls as [|x ls IH]; [done|].
  cbn [remove_first]. intros [<-|Hin]%elem_of_cons.
  - destruct (decide (b = a)); [done | left].
  - destruct (decide (x = a)); [done | right; auto].
Qed.

Lemma connectedSocket_cases (cb : nat) (s : State) :
  _connectedSocket cb s
  = if negb (alive s) then schedule (TGive cb true) s
    else if isConnected s then schedule (TGive cb false) s
    else match _waitingForSockets s with
         | Some (c :: l) => set__waitingForSockets (Some ((c :: l) ++ [cb])) s
         | _ =>
             let s := subscribe "didConnect" HFlushWaiting true
                        (set__waitingForSockets (Some [cb]) s) in
             if isInitialized s then _reconnect s else _load s
         end.
Proof.
  unfold _connectedSocket, isAlive.
  destruct (negb (alive s)); [done|]. destruct (isConnected s); [done|].
  destruct (_waitingForSockets s) as [[|c l]|];
    cbn [default from_option Datatypes.id app length]; try done.
  cbv zeta. rewrite length_app. cbn [length].
  destruct (Nat.ltb_spec 1 (S (length l + 1))); [done | lia].
Qed.

Ltac norm :=
  repeat rewrite count_occ_app in *;
  repeat rewrite elem_of_app in *;
  repeat rewrite list_elem_of_singleton in *;
  cbn [count_occ] in *;
  repeat match goal with
         | |- context [Task_eq_dec ?a ?b] =>
             destruct (Task_eq_dec a b); try discriminate
         | H : context [Task_eq_dec ?a ?b] |- _ =>
             destruct (Task_eq_dec a b); try discriminate
         end.

Ltac maps :=
  repeat match goal with
         | H : is_Some (_ !! _) |- _ => destruct H as [? H]
         | H : <[_:=_]> _ !! _ = Some _ |- _ =>
             apply lookup_insert_Some in H as [[? ?]|[? H]]; simplify_eq
         | H : delete _ _ !! _ = Some _ |- _ =>
             apply lookup_delete_Some in H as [? H]
         end.

Ltac clause :=
  norm; try done; try lia; try congruence;
  intuition (maps; norm; try done; try lia; try congruence;
             try (apply elem_of_remove_first; [congruence|]);
             first [ by eauto using mk_is_Some
                   | left; by eauto using mk_is_Some
                   | right; by eauto using mk_is_Some
                   | idtac ]).

Ltac hyps :=
  repeat first
    [ progress destruct_and?
    | match goal with
      | H : ?a = ?a -> _ |- _ => specialize (H eq_refl)
      | H : ex _ |- _ => destruct H
      end
    | progress simplify_eq ].

Ltac leaf_ :=
  ssimpl; hyps; ssimpl; split_and?;
  try match goal with |- ?a = ?a -> _ => intros _ end;
  try (eexists; split; [reflexivity|]; ssimpl);
  clause.
Ltac leaf := solve [leaf_].

Ltac request_cases s :=
  unfold request; rewrite connectedSocket_cases;
  destruct s as [al ini con pnd lst sock wt subs tk io fr cn snt ans cr];
  ssimpl; intros;
  destruct al; [|destruct ini; leaf];
  destruct con; [destruct ini; leaf|];
  destruct wt as [[|c l]|]; [try leaf | destruct ini; leaf |];
  (destruct ini;
    [ destruct sock as [[[[sr [] [] ar]|]]|]; leaf
    | destruct io; leaf ]).

Lemma request_invariant (id : nat) (s : State) :
  invariant s -> invariant (request id s).
Proof. request_cases s. Qed.

Lemma request_readying (id : nat) (s : State) :
  readying s -> readying (request id s).
Proof. request_cases s. Qed.

Lemma request_disconnecting (id : nat) (s : State) :
  disconnecting s -> disconnecting (request id s).
Proof. request_cases s. Qed.

Ltac listen_cases s :=
  unfold listenFor;
  destruct s as [al ini con pnd lst sock wt subs tk io fr cn snt ans cr];
  ssimpl; intros;
  match goal with
  | |- context [default true ?listen] =>
      destruct (default true listen)
  end;
  match goal with
  | |- context [lst !! ?event] => destruct (lst !! event) eqn:E
  end;
  try case_bool_decide;
  destruct con, ini; destruct sock as [[[[sr cr' gr ar]|]]|]; leaf.

Lemma listenFor_invariant (event : string) (listen : option bool) (s : State) :
  invariant s -> invariant (listenFor event listen s).2.
Proof. listen_cases s. Qed.

Lemma listenFor_readying (event : string) (listen : option bool) (s : State) :
  readying s -> readying (listenFor event listen s).2.
Proof. listen_cases s. Qed.

Lemma listenFor_disconnecting (event : string) (listen : option bool) (s : State) :
  disconnecting s -> disconnecting (listenFor event listen s).2.
Proof. listen_cases s. Qed.

Lemma request_isInitialized (id : nat) (s : State) :
  isInitialized (request id s) = isInitialized s.
Proof. request_cases s. Qed.

Lemma listenFor_isInitialized (event : string) (listen : option bool) (s : State) :
  isInitialized (listenFor event listen s).2 = isInitialized s.
Proof. listen_cases s. Qed.

Lemma foldl_preserves {A B} (P : B -> Prop) (f : B -> A -> B) (l : list A) (b : B) :
  (forall b a, P b -> P (f b a)) -> P b -> P (foldl f b l).
Proof. intros Hf. revert b. induction l; simpl; auto. Qed.

Lemma do_call_warm (c : Call) (s : State) : warm s -> warm (do_call c s).
Proof.
  intros [Hi Hinv]. destruct c; cbn [do_call]; split.
  - by rewrite request_isInitialized.
  - by apply request_invariant.
  - by rewrite listenFor_isInitialized.
  - by apply listenFor_invariant.
Qed.

Lemma do_call_readying (c : Call) (s : State) : readying s -> readying (do_call c s).
Proof.
  destruct c; cbn [do_call];
    [apply request_readying | apply listenFor_readying].
Qed.

Lemma do_call_disconnecting (c : Call) (s : State) :
  disconnecting s -> disconnecting (do_call c s).
Proof.
  destruct c; cbn [do_call];
    [apply request_disconnecting | apply listenFor_disconnecting].
Qed.

Ltac give_cases s e :=
  unfold give, warm;
  destruct s as [al ini con pnd lst sock wt subs tk io fr cn snt ans cr];
  ssimpl; intros; destruct al, e, ini; leaf.

Lemma give_warm (cb : nat) (e : bool) (s : State) : warm s -> warm (give cb e s).
Proof. give_cases s e. Qed.

Lemma give_readying (cb : nat) (e : bool) (s : State) :
  readying s -> readying (give cb e s).
Proof. give_cases s e. Qed.

Lemma give_disconnecting (cb : nat) (e : bool) (s : State) :
  disconnecting s -> disconnecting (give cb e s).
Proof. give_cases s e. Qed.

Ltac simple_cases s :=
  unfold warm;
  destruct s as [al ini con pnd lst sock wt subs tk io fr cn snt ans cr];
  ssimpl; intros; destruct ini; leaf.

Lemma forget_waiting_warm (s : State) :
  warm s -> warm (set__waitingForSockets None s).
Proof. simple_cases s. Qed.

Lemma forget_waiting_readying (s : State) :
  readying s -> readying (set__waitingForSockets None s).
Proof. simple_cases s. Qed.

Lemma forget_waiting_disconnecting (s : State) :
  disconnecting s -> disconnecting (set__waitingForSockets None s).
Proof.
  destruct s as [al ini con pnd lst sock wt subs tk io fr cn snt ans cr].
  ssimpl. intros. destruct ini, sock as [[[]]|]; leaf.
Qed.

Lemma run_handler_warm (h : Handler) (s : State) : warm s -> warm (run_handler h s).
Proof.
  intros Hs. destruct h; cbn [run_handler].
  - unfold flushWaiting. apply foldl_preserves.
    + intros. by apply give_warm.
    + by apply forget_waiting_warm.
  - apply foldl_preserves; [|done]. intros. by apply do_call_warm.
Qed.

Lemma run_handler_readying (h : Handler) (s : State) :
  readying s -> readying (run_handler h s).
Proof.
  intros Hs. destruct h; cbn [run_handler].
  - unfold flushWaiting. apply foldl_preserves.
    + intros. by apply give_readying.
    + by apply forget_waiting_readying.
  - apply foldl_preserves; [|done]. intros. by apply do_call_readying.
Qed.

Lemma run_handler_disconnecting (h : Handler) (s : State) :
  disconnecting s -> disconnecting (run_handler h s).
Proof.
  intros Hs. destruct h; cbn [run_handler].
  - unfold flushWaiting. apply foldl_preserves.
    + intros. by apply give_disconnecting.
    + by apply forget_waiting_disconnecting.
  - apply foldl_preserves; [|done]. intros. by apply do_call_disconnecting.
Qed.

(** [trigger] first records the event. *)
Lemma announce_warm (name : string) (keep : list (string * Handler * bool)) (s : State) :
  warm s -> warm (set_subscribers keep (set_fired (fired s ++ [name]) s)).
Proof. simple_cases s. Qed.

Lemma announce_readying (name : string) (keep : list (string * Handler * bool)) (s : State) :
  readying s -> readying (set_subscribers keep (set_fired (fired s ++ [name]) s)).
Proof. simple_cases s. Qed.

Lemma announce_disconnecting (name : string) (keep : list (string * Handler * bool)) (s : State) :
  disconnecting s ->
  disconnecting (set_subscribers keep (set_fired (fired s ++ [name]) s)).
Proof.
  destruct s as [al ini con pnd lst sock wt subs tk io fr cn snt ans cr].
  ssimpl. intros. destruct ini, sock as [[[]]|]; leaf.
Qed.

Lemma trigger_warm (name : string) (s : State) : warm s -> warm (trigger name s).
Proof.
  intros Hs. unfold trigger. apply foldl_preserves.
  - intros. by apply run_handler_warm.
  - by apply announce_warm.
Qed.

Lemma trigger_readying (name : string) (s : State) :
  readying s -> readying (trigger name s).
Proof.
  intros Hs. unfold trigger. apply foldl_preserves.
  - intros. by apply run_handler_readying.
  - by apply announce_readying.
Qed.

Lemma trigger_disconnecting (name : string) (s : State) :
  disconnecting s -> disconnecting (trigger name s).
Proof.
  intros Hs. unfold trigger. apply foldl_preserves.
  - intros. by apply run_handler_disconnecting.
  - by apply announce_disconnecting.
Qed.


Lemma elem_of_unbound (s : State) (ev : string) :
  ev ∈ unbound s <-> _listeners s !! ev = Some false.
Proof.
  unfold unbound. rewrite list_elem_of_fmap. split.
  - intros ([k b] & -> & [H1 H2]%elem_of_map_to_list%map_lookup_filter_Some).
    cbn in *. by subst.
  - intros H. exists (ev, false). split; [done|].
    apply elem_of_map_to_list, map_lookup_filter_Some. done.
Qed.

Lemma elem_of_bound (s : State) (ev : string) :
  ev ∈ bound s <-> _listeners s !! ev = Some true.
Proof.
  unfold bound. rewrite list_elem_of_fmap. split.
  - intros ([k b] & -> & [H1 H2]%elem_of_map_to_list%map_lookup_filter_Some).
    cbn in *. by subst.
  - intros H. exists (ev, true). split; [done|].
    apply elem_of_map_to_list, map_lookup_filter_Some. done.
Qed.

Lemma attach_all (r : RawSocket) (evs : list string) :
  foldl (fun r ev => addEventListener (LMessage ev) r) r evs
  = {| serial := serial r; connected := connected r; connecting := connecting r;
       attached := attached r ++ (LMessage <$> evs) |}.
Proof.
  revert r. induction evs as [|ev evs IH]; intros r; cbn [foldl fmap list_fmap].
  - rewrite app_nil_r. by destruct r.
  - rewrite IH. unfold addEventListener. cbn. by rewrite <- app_assoc.
Qed.

Lemma detach_all (r : RawSocket) (evs : list string) :
  exists ar,
    foldl (fun r ev => removeEventListener (LMessage ev) r) r evs
    = {| serial := serial r; connected := connected r; connecting := connecting r;
         attached := ar |}.
Proof.
  revert r. induction evs as [|ev evs IH]; intros r; cbn [foldl].
  - exists (attached r). by destruct r.
  - destruct (IH (removeEventListener (LMessage ev) r)) as [ar ->]. by exists ar.
Qed.

Lemma bind_warm (s : State) :
  warm s -> raw_of s <> None ->
  warm (set_isConnected true (_bindListeners s)).
Proof.
  intros [Hi (Hlife & Hw & Hflag & Hatt & Htc)] Hraw.
  unfold _bindListeners.
  destruct (unbound s) as [|ev0 evs] eqn:Hu.
  - assert (forall ev, _listeners s !! ev <> Some false) as Hnone.
    { intros ev Hev. apply elem_of_unbound in Hev. rewrite Hu in Hev.
      by apply elem_of_nil in Hev. }
    destruct s as [al ini con pnd lst sock wt subs tk io fr cn snt ans cr].
    unfold warm. ssimpl. subst ini. destruct sock as [[[r|]]|]; [|done..].
    destruct Hlife as (? & ? & ? & ?).
    split_and?; try done.
    + intros ev [] Hev; [done|]. by apply Hnone in Hev.
    + intros _. destruct con.
      * by apply Hatt.
      * exists r. split; [done|]. intros ev [b Hev].
        pose proof (Hflag _ _ Hev). subst. by apply Hnone in Hev.
  - destruct (raw_of s) as [r|] eqn:Hr; [|done].
    rewrite attach_all.
    assert (forall ev, _listeners s !! ev = Some false ->
                       LMessage ev ∈ LMessage <$> (ev0 :: evs)) as Hin.
    { intros ev Hev. apply list_elem_of_fmap. exists ev. split; [done|].
      rewrite <- Hu. by apply elem_of_unbound. }
    destruct s as [al ini con pnd lst sock wt subs tk io fr cn snt ans cr].
    unfold warm. ssimpl. subst ini.
    destruct Hlife as (? & ? & ? & ?).
    split_and?; try done.
    + intros ev b [b' [-> _]]%lookup_fmap_Some. done.
    + intros _. eexists. split; [reflexivity|]. ssimpl.
      intros ev [b [b' [_ Hev]]%lookup_fmap_Some].
      apply elem_of_app. destruct b'.
      * left. pose proof (Hflag _ _ Hev). subst con.
        destruct (Hatt eq_refl) as (r' & Hr' & Hall). simplify_eq. eauto.
      * right. by apply Hin.
Qed.

(** The raw socket, once there, stays. *)
Lemma request_raw (id : nat) (s : State) :
  raw_of s <> None -> raw_of (request id s) <> None.
Proof. request_cases s. Qed.

Lemma listenFor_raw (event : string) (listen : option bool) (s : State) :
  raw_of s <> None -> raw_of (listenFor event listen s).2 <> None.
Proof. listen_cases s. Qed.

Lemma give_raw (cb : nat) (e : bool) (s : State) :
  raw_of s <> None -> raw_of (give cb e s) <> None.
Proof. give_cases s e. Qed.

Lemma run_handler_raw (h : Handler) (s : State) :
  raw_of s <> None -> raw_of (run_handler h s) <> None.
Proof.
  intros Hs. destruct h; cbn [run_handler].
  - unfold flushWaiting. apply (foldl_preserves (fun s => raw_of s <> None)).
    + intros. by apply give_raw.
    + by destruct s.
  - apply (foldl_preserves (fun s => raw_of s <> None)); [|done].
    intros b [] ?; cbn [do_call]; [by apply request_raw | by apply listenFor_raw].
Qed.

Lemma trigger_raw (name : string) (s : State) :
  raw_of s <> None -> raw_of (trigger name s) <> None.
Proof.
  intros Hs. unfold trigger. apply (foldl_preserves (fun s => raw_of s <> None)).
  - intros. by apply run_handler_raw.
  - by destruct s.
Qed.

Lemma bind_raw (s : State) :
  raw_of s <> None -> raw_of (_bindListeners s) <> None.
Proof.
  intros Hs. unfold _bindListeners. destruct (unbound s); [done|].
  destruct (raw_of s); [|done]. by destruct s.
Qed.

Lemma unbind_raw (s : State) :
  raw_of s <> None -> raw_of (_unbindListeners s) <> None.
Proof.
  intros Hs. unfold _unbindListeners. destruct (bound s); [done|].
  destruct (raw_of s); [|done]. by destruct s.
Qed.

Lemma raw_warm (s : State) : invariant s -> raw_of s <> None -> warm s.
Proof.
  intros Hinv Hraw. split; [|done].
  destruct s as [al ini con pnd lst sock wt subs tk io fr cn snt ans cr].
  ssimpl. destruct ini; [done|]. by hyps.
Qed.

Lemma connect_warm (s : State) :
  warm s -> raw_of s <> None -> warm (_handleSocketConnect s).
Proof.
  intros Hs Hraw. unfold _handleSocketConnect.
  destruct (negb (isAlive s)); [done|].
  by apply trigger_warm, bind_warm.
Qed.

Lemma connect_raw (s : State) :
  raw_of s <> None -> raw_of (_handleSocketConnect s) <> None.
Proof.
  intros Hraw. unfold _handleSocketConnect.
  destruct (negb (isAlive s)); [done|].
  apply trigger_raw. apply bind_raw in Hraw.
  by destruct (_bindListeners s).
Qed.

Lemma message_warm (event : string) (message : JsVal) (s : State) :
  warm s -> warm (SailsSocketService._handleSocketMessage event message s).
Proof.
  intros Hs. unfold SailsSocketService._handleSocketMessage.
  destruct (negb (isAlive s)); [done|]. by apply trigger_warm.
Qed.

Lemma message_raw (event : string) (message : JsVal) (s : State) :
  raw_of s <> None -> raw_of (SailsSocketService._handleSocketMessage event message s) <> None.
Proof.
  intros Hs. unfold SailsSocketService._handleSocketMessage.
  destruct (negb (isAlive s)); [done|]. by apply trigger_raw.
Qed.

Lemma unbind_invariant (s : State) :
  disconnecting s -> invariant (_unbindListeners s).
Proof.
  intros (Hlife & Hw & Hc & Hraw).
  unfold _unbindListeners.
  destruct (bound s) as [|ev0 evs] eqn:Hb.
  - assert (forall ev, _listeners s !! ev <> Some true) as Hnone.
    { intros ev Hev. apply elem_of_bound in Hev. rewrite Hb in Hev.
      by apply elem_of_nil in Hev. }
    destruct s as [al ini con pnd lst sock wt subs tk io fr cn snt ans cr].
    ssimpl. subst con. split_and?; try done.
    intros ev [] Hev; [|done]. by apply Hnone in Hev.
  - destruct (raw_of s) as [r|] eqn:Hr; [|done].
    destruct (detach_all r (ev0 :: evs)) as [ar ->].
    destruct s as [al ini con pnd lst sock wt subs tk io fr cn snt ans cr].
    ssimpl. subst con. split_and?; try done.
    + destruct ini; hyps; split_and?; try done; eauto.
    + intros ev b [b' [-> _]]%lookup_fmap_Some. done.
Qed.

Lemma disconnect_invariant (s : State) :
  warm s -> raw_of s <> None -> invariant (_handleSocketDisconnect s).
Proof.
  intros [Hi Hinv] Hraw. unfold _handleSocketDisconnect.
  destruct (negb (isAlive s)); [done|].
  apply unbind_invariant, trigger_disconnecting.
  destruct s as [al ini con pnd lst sock wt subs tk io fr cn snt ans cr].
  ssimpl. subst ini. hyps. split_and?; try done; eauto.
Qed.

Lemma disconnect_raw (s : State) :
  raw_of s <> None -> raw_of (_handleSocketDisconnect s) <> None.
Proof.
  intros Hraw. unfold _handleSocketDisconnect.
  destruct (negb (isAlive s)); [done|].
  apply unbind_raw, trigger_raw. by destruct s.
Qed.

Lemma give_invariant (cb : nat) (e : bool) (s : State) :
  invariant s -> invariant (give cb e s).
Proof. give_cases s e. Qed.

Lemma respond_invariant (cb : nat) (data : JsVal) (jwr : option JWR) (s : State) :
  invariant s -> invariant (respond cb data jwr s).
Proof. simple_cases s. Qed.

Lemma subscribe_invariant (name : string) (h : Handler) (once : bool) (s : State) :
  invariant s -> invariant (subscribe name h once s).
Proof. simple_cases s. Qed.

Lemma ioReady_invariant (s : State) : invariant s -> invariant (set_ioReady true s).
Proof. simple_cases s. Qed.

Ltac raw_cases s :=
  destruct s as [al ini con pnd lst sock wt subs tk io fr cn snt ans cr];
  ssimpl; intros;
  destruct ini, con; destruct sock as [[[[sr [] [] ar]|]]|]; leaf.

Lemma waitObject_invariant (s : State) : invariant s -> invariant (waitObject s).
Proof. raw_cases s. Qed.

Lemma waitObject_raw (s : State) : raw_of s <> None -> raw_of (waitObject s) <> None.
Proof. raw_cases s. Qed.

Lemma created_invariant (s : State) :
  invariant s ->
  invariant match _sailsSocket s with
            | Some {| _raw := None |} => set_raw (fresh_raw 0) s
            | _ => s
            end.
Proof. raw_cases s. Qed.

Lemma connection_invariant (c g : bool) (s : State) (r : RawSocket) :
  invariant s -> raw_of s = Some r ->
  invariant (set_raw (set_connection c g r) s).
Proof. destruct r. raw_cases s. Qed.

Lemma willDestroy_invariant (s : State) : invariant s -> invariant (willDestroy s).
Proof. unfold willDestroy. raw_cases s. Qed.

Lemma load_invariant (s : State) :
  invariant s -> isInitialized s = false -> pending_init s = 0%nat ->
  _waitingForSockets s <> None ->
  invariant (_load s).
Proof.
  destruct s as [al ini con pnd lst sock wt subs tk io fr cn snt ans cr].
  ssimpl. intros. destruct io; subst; leaf.
Qed.

Lemma ready_finish (s : State) :
  readying s -> invariant (waitObject (io_sails_connect s)).
Proof.
  destruct s as [al ini con pnd lst sock wt subs tk io fr cn snt ans cr].
  ssimpl. intros. leaf.
Qed.

Lemma ready_invariant (s : State) :
  invariant s -> isInitialized s = false -> pending_init s = 0%nat ->
  invariant (_handleSocketReady s).
Proof.
  intros Hinv Hi Hp. unfold _handleSocketReady.
  destruct (negb (isAlive s)); [done|].
  apply ready_finish. unfold trigger. apply foldl_preserves.
  - intros. by apply run_handler_readying.
  - destruct s as [al ini con pnd lst sock wt subs tk io fr cn snt ans cr].
    ssimpl. subst. leaf.
Qed.

Lemma count_occ_delete (l : list Task) (i : nat) (t x : Task) :
  l !! i = Some t ->
  count_occ Task_eq_dec l x
  = (count_occ Task_eq_dec (delete i l) x
     + if Task_eq_dec t x then 1 else 0)%nat.
Proof.
  revert i. induction l as [|a l IH]; intros [|i] Hi; try done.
  - cbn in Hi. simplify_eq. simpl.
    destruct (Task_eq_dec t x); lia.
  - cbn in Hi. simpl.
    rewrite (IH i Hi). destruct (Task_eq_dec a x); lia.
Qed.

Lemma task_elem_of_delete (l : list Task) (i : nat) (x : Task) :
  x ∈ delete i l -> x ∈ l.
Proof.
  revert i. induction l as [|a l IH]; intros [|i]; simpl; try done.
  - by right.
  - intros [->|?]%elem_of_cons; [left | right; eauto].
Qed.

Lemma take_task (s : State) (i : nat) (t : Task) :
  invariant s -> tasks s !! i = Some t ->
  let s' := set_tasks (delete i (tasks s)) s in
  invariant s' /\
  (t = TReady \/ t = TLoad ->
   isInitialized s' = false /\ pending_init s' = 0%nat /\
   _waitingForSockets s' <> None) /\
  (t = TConnect -> raw_of s' <> None).
Proof.
  intros Hinv Ht.
  destruct s as [al ini con pnd lst sock wt subs tk io fr cn snt ans cr].
  ssimpl.
  pose proof (count_occ_delete tk i t TReady Ht) as Hr.
  pose proof (count_occ_delete tk i t TLoad Ht) as Hl.
  pose proof (task_elem_of_delete tk i TConnect) as Hc.
  assert (t ∈ tk) as Hin by (by eapply list_elem_of_lookup_2).
  destruct Hinv as (Hlife & Hw & Hflag & Hatt & Htc).
  split_and?; try done.
  - destruct ini.
    + destruct Hlife as (? & ? & ? & ?). split_and?; try done. lia.
    + destruct Hlife as (? & ? & ? & ? & ? & ? & ?). split_and?; try done; try lia.
      * naive_solver.
      * intros Hwt. specialize (H5 Hwt). lia.
  - naive_solver.
  - intros [-> | ->].
    + destruct (Task_eq_dec TReady TReady); [|done].
      destruct ini.
      * destruct Hlife as (? & ? & ? & ?). lia.
      * destruct Hlife as (? & ? & ? & ? & ? & ? & Hwt). split_and?; [done|lia|].
        intros ->. specialize (Hwt eq_refl). lia.
    + destruct (Task_eq_dec TLoad TLoad); [|done].
      destruct ini.
      * destruct Hlife as (? & ? & ? & ?). lia.
      * destruct Hlife as (? & ? & ? & ? & ? & ? & Hwt). split_and?; [done|lia|].
        intros ->. specialize (Hwt eq_refl). lia.
  - intros ->. by apply Htc.
Qed.

Lemma run_task_invariant (s : State) (i : nat) (t : Task) :
  invariant s -> tasks s !! i = Some t ->
  invariant (run_task t (set_tasks (delete i (tasks s)) s)).
Proof.
  intros Hinv Ht. destruct (take_task s i t Hinv Ht) as (Hinv' & Hinit & Hconn).
  destruct t; cbn [run_task].
  - by apply give_invariant.
  - destruct Hinit as (? & ? & ?); [by left|]. by apply ready_invariant.
  - specialize (Hconn eq_refl). by apply connect_warm; [apply raw_warm|].
  - destruct Hinit as (? & ? & ?); [by right|]. by apply load_invariant.
  - by apply waitObject_invariant.
Qed.

Lemma iter_preserves {B} (P : B -> Prop) (f : B -> B) (n : nat) (b : B) :
  (forall b, P b -> P (f b)) -> P b -> P (Nat.iter n f b).
Proof. intros Hf Hb. induction n; simpl; auto. Qed.

Lemma emit_invariant (l : RawListener) (f : State -> State) (s : State) :
  (forall s, warm s /\ raw_of s <> None -> warm (f s) /\ raw_of (f s) <> None) ->
  invariant s -> invariant (emit l f s).
Proof.
  intros Hf Hinv. unfold emit. destruct (raw_of s) as [r|] eqn:Hr; [|done].
  apply (iter_preserves (fun s => warm s /\ raw_of s <> None)); [done|].
  split; [apply raw_warm; [done|]|]; by rewrite Hr.
Qed.

Lemma step_invariant (i : Input) (s : State) : invariant s -> invariant (step i s).
Proof.
  intros Hinv. destruct i; cbn [step].
  - by apply request_invariant.
  - by apply listenFor_invariant.
  - by apply subscribe_invariant.
  - destruct (tasks s !! i) as [t|] eqn:Ht; [|done]. by apply run_task_invariant.
  - by apply ioReady_invariant.
  - by apply created_invariant.
  - destruct (raw_of s) as [r|] eqn:Hr; [|done].
    apply emit_invariant; [|by apply connection_invariant].
    intros s' [? ?]. split; [by apply connect_warm | by apply connect_raw].
  - destruct (raw_of s) as [r|] eqn:Hr; [|done].
    apply emit_invariant; [|by apply connection_invariant].
    intros s' [? ?]. split; [|by apply disconnect_raw].
    apply raw_warm; [by apply disconnect_invariant | by apply disconnect_raw].
  - destruct (raw_of s) as [r|] eqn:Hr; [|done]. by apply connection_invariant.
  - apply emit_invariant; [|done].
    intros s' [? ?]. split; [by apply message_warm | by apply message_raw].
  - by apply respond_invariant.
  - by apply willDestroy_invariant.
Qed.

Lemma init_invariant : invariant SailsSocketService.init.
Proof. unfold SailsSocketService.init. ssimpl. split_and?; try done; try lia; set_solver. Qed.

Lemma run_invariant (inputs : list Input) (s : State) :
  invariant s -> invariant (run inputs s).
Proof.
  intros Hs. unfold run. apply foldl_preserves; [|done].
  intros. by apply step_invariant.
Qed.

Lemma request_status (a b : bool) (id : nat) (s : State) :
  status a b s -> status a b (request id s).
Proof. unfold status. request_cases s. Qed.

Lemma listenFor_status (a b : bool) (event : string) (listen : option bool) (s : State) :
  status a b s -> status a b (listenFor event listen s).2.
Proof. unfold status. listen_cases s. Qed.

Lemma give_status (a b : bool) (cb : nat) (e : bool) (s : State) :
  status a b s -> status a b (give cb e s).
Proof. unfold status. give_cases s e. Qed.

Lemma run_handler_status (a b : bool) (h : Handler) (s : State) :
  status a b s -> status a b (run_handler h s).
Proof.
  intros Hs. destruct h; cbn [run_handler].
  - unfold flushWaiting. apply foldl_preserves.
    + intros. by apply give_status.
    + by destruct s.
  - apply foldl_preserves; [|done].
    intros ? [] ?; cbn [do_call]; [by apply request_status | by apply listenFor_status].
Qed.

Lemma trigger_status (a b : bool) (name : string) (s : State) :
  status a b s -> status a b (trigger name s).
Proof.
  intros Hs. unfold trigger. apply foldl_preserves.
  - intros. by apply run_handler_status.
  - by destruct s.
Qed.

Lemma bind_status (a b : bool) (s : State) :
  status a b s -> status a b (_bindListeners s).
Proof.
  intros Hs. unfold _bindListeners. destruct (unbound s); [done|].
  destruct (raw_of s); by destruct s.
Qed.

Lemma unbind_status (a b : bool) (s : State) :
  status a b s -> status a b (_unbindListeners s).
Proof.
  intros Hs. unfold _unbindListeners. destruct (bound s); [done|].
  destruct (raw_of s); by destruct s.
Qed.

Lemma connect_connected (s : State) :
  alive s = true -> isConnected (_handleSocketConnect s) = true.
Proof.
  intros Ha. unfold _handleSocketConnect, isAlive. rewrite Ha. cbn [negb].
  refine (proj2 (trigger_status (isInitialized s) true _ _ _)).
  pose proof (bind_status _ _ s (conj eq_refl eq_refl)) as [H1 H2].
  destruct (_bindListeners s). split; [exact H1 | reflexivity].
Qed.

Lemma trigger_initialized (name : string) (s : State) :
  initialized s -> initialized (trigger name s).
Proof.
  intros Hs. by apply (trigger_status true (isConnected s) name s).
Qed.

Lemma connect_initialized (s : State) :
  initialized s -> initialized (_handleSocketConnect s).
Proof.
  intros Hs. unfold _handleSocketConnect. destruct (negb (isAlive s)); [done|].
  apply trigger_initialized.
  pose proof (bind_status true (isConnected s) s (conj Hs eq_refl)) as [H _].
  by destruct (_bindListeners s).
Qed.

Lemma disconnect_initialized (s : State) :
  initialized s -> initialized (_handleSocketDisconnect s).
Proof.
  intros Hs. unfold _handleSocketDisconnect. destruct (negb (isAlive s)); [done|].
  assert (initialized (trigger "didDisconnect" (set_isConnected false s))) as H
    by (apply trigger_initialized; by destruct s).
  by apply (unbind_status true (isConnected (trigger "didDisconnect"
                                               (set_isConnected false s)))).
Qed.

Lemma message_initialized (event : string) (message : JsVal) (s : State) :
  initialized s -> initialized (SailsSocketService._handleSocketMessage event message s).
Proof.
  intros Hs. unfold SailsSocketService._handleSocketMessage. destruct (negb (isAlive s)); [done|].
  by apply trigger_initialized.
Qed.

Lemma ready_initialized (s : State) :
  initialized s -> initialized (_handleSocketReady s).
Proof.
  intros Hs. unfold _handleSocketReady. destruct (negb (isAlive s)); [done|].
  assert (initialized (trigger "didInitialize" (set_isInitialized true s))) as H
    by (apply trigger_initialized; by destruct s).
  revert H. generalize (trigger "didInitialize" (set_isInitialized true s)).
  unfold initialized. intros s'. raw_cases s'.
Qed.

Lemma emit_initialized (l : RawListener) (f : State -> State) (s : State) :
  (forall s, initialized s -> initialized (f s)) ->
  initialized s -> initialized (emit l f s).
Proof.
  intros Hf Hs. unfold emit. destruct (raw_of s); [|done].
  by apply iter_preserves.
Qed.

Lemma step_initialized (i : Input) (s : State) :
  initialized s -> initialized (step i s).
Proof.
  intros Hs. destruct i; cbn [step].
  - by apply (request_status true (isConnected s)).
  - by apply (listenFor_status true (isConnected s)).
  - by destruct s.
  - destruct (tasks s !! i) as [t|]; [|done].
    assert (initialized (set_tasks (delete i (tasks s)) s)) as Hs' by (by destruct s).
    revert Hs'. generalize (set_tasks (delete i (tasks s)) s). clear s Hs.
    intros s Hs. destruct t; cbn [run_task].
    + by apply (give_status true (isConnected s)).
    + by apply ready_initialized.
    + by apply connect_initialized.
    + unfold _load. destruct (ioReady s); by destruct s.
    + revert Hs. unfold initialized. raw_cases s.
  - by destruct s.
  - revert Hs. unfold initialized. raw_cases s.
  - destruct (raw_of s) as [r|]; [|done].
    apply emit_initialized; [apply connect_initialized | by destruct s].
  - destruct (raw_of s) as [r|]; [|done].
    apply emit_initialized; [apply disconnect_initialized | by destruct s].
  - destruct (raw_of s) as [r|]; [|done]. by destruct s.
  - apply emit_initialized; [apply message_initialized | done].
  - by destruct s.
  - revert Hs. unfold initialized, willDestroy. raw_cases s.
Qed.

Lemma run_initialized (inputs : list Input) (s : State) :
  initialized s -> initialized (run inputs s).
Proof.
  intros Hs. unfold run. apply foldl_preserves; [|done].
  intros. by apply step_initialized.
Qed.

Lemma step_quiet (i : Input) (s : State) :
  uses_socket i = false -> quiet s -> quiet (step i s).
Proof.
  intros Hi. destruct i; cbn [step]; try done; unfold quiet, willDestroy.
  all: first
         [ by intros (? & ? & Hs & Ht & ?);
           unfold emit, raw_of; rewrite ?Hs, ?Ht
         | solve [listen_cases s]
         | solve [raw_cases s] ].
Qed.

Lemma run_quiet (inputs : list Input) (s : State) :
  Forall (fun i => uses_socket i = false) inputs -> quiet s -> quiet (run inputs s).
Proof.
  intros Hall. revert s. induction Hall as [|i inputs Hi _ IH]; intros s Hs; [done|].
  cbn [run foldl]. apply IH. by apply step_quiet.
Qed.

Lemma reconnect_fresh (s : State) (r : RawSocket) :
  raw_of s = Some r -> connected r = false -> connecting r = false ->
  raw_of (_reconnect s)
  = Some {| serial := S (serial r); connected := false; connecting := true;
            attached := [LConnect; LDisconnect] |}.
Proof.
  destruct r as [sr cr' gr ar].
  destruct s as [al ini con pnd lst sock wt subs tk io fr cn snt ans cr].
  ssimpl. intros. destruct sock as [[[]]|]; simplify_eq. ssimpl. done.
Qed.

Lemma connect_first_after_initialize (s : State) :
  invariant s ->
  forall before after,
    fired s = before ++ "didConnect" :: after -> "didInitialize" ∈ before.
Proof.
  intros (Hlife & _) before after Hf. unfold life_cycle in Hlife.
  destruct (isInitialized s).
  - destruct Hlife as ([l Hl] & _). rewrite Hl in Hf.
    destruct before as [|x before]; cbn in Hf; [discriminate|].
    injection Hf as <- _. by left.
  - destruct Hlife as (_ & _ & _ & Hnil & _). rewrite Hnil in Hf.
    by destruct before.
Qed.

(** C7: the service makes its connection on first use and once only; it is
    initialized before it is connected and stays initialized; [didConnect]
    is never fired before [didInitialize]; while it is connected, every
    registered listener is attached to the current raw socket; a reconnect
    replaces the raw socket by a new one, and handling its [connect]
    attaches every registered listener to it. *)
Theorem socket_life_cycle :
  forall inputs : list Input,
    let s := run inputs SailsSocketService.init in
    (Forall (fun i => uses_socket i = false) inputs ->
     isInitialized s = false /\ _sailsSocket s = None /\ connects s = 0%nat) /\
    (connects s <= 1)%nat /\
    (isConnected s = true -> isInitialized s = true) /\
    (forall before after,
       fired s = before ++ "didConnect" :: after -> "didInitialize" ∈ before) /\
    (forall more, isInitialized s = true -> isInitialized (run more s) = true) /\
    (isConnected s = true ->
     exists r, raw_of s = Some r /\
       forall ev, is_Some (_listeners s !! ev) -> LMessage ev ∈ attached r) /\
    (forall r, raw_of s = Some r -> connected r = false -> connecting r = false ->
       raw_of (_reconnect s)
       = Some {| serial := S (serial r); connected := false; connecting := true;
                 attached := [LConnect; LDisconnect] |}) /\
    (alive s = true -> raw_of s <> None ->
     isConnected (_handleSocketConnect s) = true /\
     exists r, raw_of (_handleSocketConnect s) = Some r /\
       forall ev, is_Some (_listeners (_handleSocketConnect s) !! ev) ->
                  LMessage ev ∈ attached r).
Proof.
  intros inputs s.
  assert (invariant s) as Hinv by apply run_invariant, init_invariant.
  split_and!.
  - intros Hall.
    destruct (run_quiet inputs SailsSocketService.init Hall) as (? & ? & ? & ? & ?);
      [by repeat split|]. by repeat split.
  - destruct Hinv as (Hlife & _). unfold life_cycle in Hlife.
    destruct (isInitialized s); [destruct Hlife as (_ & _ & -> & _); lia|].
    destruct Hlife as (_ & _ & _ & _ & -> & _). lia.
  - destruct Hinv as (Hlife & _). unfold life_cycle in Hlife.
    destruct (isInitialized s); [done|].
    destruct Hlife as (Hc & _). by rewrite Hc.
  - by apply connect_first_after_initialize.
  - intros more Hi. by apply run_initialized.
  - destruct Hinv as (_ & _ & _ & Hatt & _). exact Hatt.
  - apply reconnect_fresh.
  - intros Ha Hraw.
    destruct (connect_warm s (raw_warm s Hinv Hraw) Hraw)
      as (_ & _ & _ & _ & Hatt & _).
    split; [by apply connect_connected|].
    apply Hatt. by apply connect_connected.
Qed.

(** A listener registered before the first request, the script loading, the
    socket connecting, dropping, and connecting again on the next request. *)
Lemma socket_life_cycle_witness :
  let s := run [DoListenFor "user" None; DoRequest 1; EnvIoReady; RunTask 0;
                RunTask 0; EnvRawCreated; RunTask 0; EnvRawConnect;
                EnvRawDisconnect; DoRequest 2; EnvRawConnect]
               SailsSocketService.init in
  isInitialized s = true /\
  exists r, raw_of s = Some r /\
    forall ev, is_Some (_listeners s !! ev) -> LMessage ev ∈ attached r.
Proof.
  intros s.
  pose proof (socket_life_cycle
                [DoListenFor "user" None; DoRequest 1; EnvIoReady; RunTask 0;
                 RunTask 0; EnvRawCreated; RunTask 0; EnvRawConnect;
                 EnvRawDisconnect; DoRequest 2; EnvRawConnect]) as H.
  cbv zeta in H. destruct H as (_ & _ & Hinit & _ & _ & Hatt & _).
  split.
  - apply Hinit. vm_compute. reflexivity.
  - apply Hatt. vm_compute. reflexivity.
Defined.


Import SailsAdapter SailsSocketService SailsSocketBusy.

(** ** Pending operations *)

Lemma balanced_ledger (s s' : State) :
  ledger s' = ledger s -> balanced s -> balanced s'.
Proof.
  unfold ledger, balanced, outstanding. intros [= -> -> -> -> ->]. done.
Qed.

Ltac ledger_cases s :=
  destruct s as [al ini con pnd lst sock wt subs tk io fr cn snt ans cr];
  unfold ledger; ssimpl.

Lemma ledger_with_raw (f : RawSocket -> RawSocket) (s : State) :
  ledger (with_raw f s) = ledger s.
Proof. ledger_cases s. by destruct sock as [[[[]|]]|]. Qed.

Lemma ledger_listenFor (event : string) (listen : option bool) (s : State) :
  ledger (listenFor event listen s).2 = ledger s.
Proof.
  unfold listenFor.
  destruct (default true listen), (_listeners s !! event), (isConnected s);
    try case_bool_decide;
    cbn [snd]; rewrite ?ledger_with_raw; by destruct s.
Qed.

Lemma filter_give_snoc (l : list Task) (t : Task) :
  List.filter is_give (l ++ [t])
  = List.filter is_give l ++ (if is_give t then [t] else []).
Proof. rewrite List.filter_app. cbn. by destruct (is_give t). Qed.

Lemma ledger_schedule (t : Task) (s : State) :
  is_give t = false -> ledger (schedule t s) = ledger s.
Proof.
  intros Ht. ledger_cases s. rewrite filter_give_snoc, Ht. by rewrite app_nil_r.
Qed.

Lemma ledger_waitObject (s : State) : ledger (waitObject s) = ledger s.
Proof.
  ledger_cases s. destruct sock as [[[[sr [] gr ar]|]]|]; ssimpl;
    rewrite ?filter_give_snoc, ?app_nil_r; done.
Qed.

Lemma ledger_reconnect (s : State) : ledger (_reconnect s) = ledger s.
Proof.
  ledger_cases s. destruct sock as [[[[sr [] [] ar]|]]|]; ssimpl;
    rewrite ?filter_give_snoc, ?app_nil_r; done.
Qed.

Lemma ledger_load (s : State) : ledger (_load s) = ledger s.
Proof.
  ledger_cases s. destruct io; ssimpl; by rewrite filter_give_snoc, app_nil_r.
Qed.

Lemma request_balanced (id : nat) (s : State) :
  balanced s -> balanced (request id s).
Proof.
  unfold request. rewrite connectedSocket_cases.
  destruct (negb (alive (incPending 1 s))) eqn:Ha.
  { unfold balanced, outstanding. destruct s. ssimpl.
    rewrite filter_give_snoc, !length_app. cbn [is_give length]. lia. }
  destruct (isConnected (incPending 1 s)) eqn:Hc.
  { unfold balanced, outstanding. destruct s. ssimpl.
    rewrite filter_give_snoc, !length_app. cbn [is_give length]. lia. }
  destruct (_waitingForSockets (incPending 1 s)) as [[|c l]|] eqn:Hw.
  - cbv zeta. intros Hb.
    match goal with
    | |- balanced (if ?b then _reconnect ?x else _load ?y) =>
        assert (balanced x) as Hx
    end.
    { unfold balanced, outstanding in *. destruct s. ssimpl. simplify_eq.
      cbn [default from_option Datatypes.id length] in *. lia. }
    destruct (isInitialized _);
      [ eapply balanced_ledger; [apply ledger_reconnect | done]
      | eapply balanced_ledger; [apply ledger_load | done] ].
  - unfold balanced, outstanding. destruct s. ssimpl. simplify_eq.
    cbn [default from_option Datatypes.id length].
    rewrite !length_app. cbn [length]. lia.
  - cbv zeta. intros Hb.
    match goal with
    | |- balanced (if ?b then _reconnect ?x else _load ?y) =>
        assert (balanced x) as Hx
    end.
    { unfold balanced, outstanding in *. destruct s. ssimpl. simplify_eq.
      cbn [default from_option Datatypes.id length] in *. lia. }
    destruct (isInitialized _);
      [ eapply balanced_ledger; [apply ledger_reconnect | done]
      | eapply balanced_ledger; [apply ledger_load | done] ].
Qed.

Lemma give_debt (cb : nat) (e : bool) (s : State) (d : Z) :
  pendingOperationCount s = outstanding s + d + 1 ->
  pendingOperationCount (give cb e s) = outstanding (give cb e s) + d.
Proof.
  unfold give, outstanding.
  destruct s as [al ini con pnd lst sock wt subs tk io fr cn snt ans cr].
  ssimpl. destruct al, e; ssimpl;
    rewrite ?List.filter_app, ?length_app; cbn [List.filter is_response snd length];
    lia.
Qed.

Lemma give_all_balanced (l : list nat) (s : State) :
  pendingOperationCount s = outstanding s + Z.of_nat (length l) ->
  balanced (foldl (fun s cb => give cb false s) s l).
Proof.
  revert s. induction l as [|cb l IH]; intros s Hs; cbn [foldl].
  - unfold balanced. cbn [length] in Hs. lia.
  - apply IH, give_debt. cbn [length] in Hs. lia.
Qed.

Lemma flushWaiting_balanced (s : State) : balanced s -> balanced (flushWaiting s).
Proof.
  intros Hb. unfold flushWaiting. apply give_all_balanced.
  unfold balanced, outstanding in *. destruct s. ssimpl.
  cbn [default from_option Datatypes.id length]. lia.
Qed.

Lemma do_call_balanced (c : Call) (s : State) : balanced s -> balanced (do_call c s).
Proof.
  destruct c; cbn [do_call].
  - apply request_balanced.
  - apply balanced_ledger, ledger_listenFor.
Qed.

Lemma run_handler_balanced (h : Handler) (s : State) :
  balanced s -> balanced (run_handler h s).
Proof.
  intros Hb. destruct h; cbn [run_handler].
  - by apply flushWaiting_balanced.
  - apply foldl_preserves; [|done]. intros. by apply do_call_balanced.
Qed.

Lemma trigger_balanced (name : string) (s : State) :
  balanced s -> balanced (trigger name s).
Proof.
  intros Hb. unfold trigger. apply foldl_preserves.
  - intros. by apply run_handler_balanced.
  - eapply balanced_ledger; [|done]. by destruct s.
Qed.

Lemma ledger_bind (s : State) : ledger (_bindListeners s) = ledger s.
Proof.
  unfold _bindListeners. destruct (unbound s); [done|].
  destruct (raw_of s); by destruct s.
Qed.

Lemma ledger_unbind (s : State) : ledger (_unbindListeners s) = ledger s.
Proof.
  unfold _unbindListeners. destruct (bound s); [done|].
  destruct (raw_of s); by destruct s.
Qed.

Lemma ready_balanced (s : State) : balanced s -> balanced (_handleSocketReady s).
Proof.
  intros Hb. unfold _handleSocketReady. destruct (negb (isAlive s)); [done|].
  eapply balanced_ledger; [apply ledger_waitObject|].
  eapply balanced_ledger with (s := trigger "didInitialize" (set_isInitialized true s)).
  { unfold io_sails_connect. by destruct (trigger _ _). }
  apply trigger_balanced. eapply balanced_ledger; [|done]. by destruct s.
Qed.

Lemma connect_balanced (s : State) : balanced s -> balanced (_handleSocketConnect s).
Proof.
  intros Hb. unfold _handleSocketConnect. destruct (negb (isAlive s)); [done|].
  apply trigger_balanced.
  eapply balanced_ledger with (s := _bindListeners s);
    [by destruct (_bindListeners s)|].
  eapply balanced_ledger; [apply ledger_bind | done].
Qed.

Lemma disconnect_balanced (s : State) :
  balanced s -> balanced (_handleSocketDisconnect s).
Proof.
  intros Hb. unfold _handleSocketDisconnect. destruct (negb (isAlive s)); [done|].
  eapply balanced_ledger; [apply ledger_unbind|].
  apply trigger_balanced. eapply balanced_ledger; [|done]. by destruct s.
Qed.

Lemma message_balanced (event : string) (message : JsVal) (s : State) :
  balanced s -> balanced (SailsSocketService._handleSocketMessage event message s).
Proof.
  intros Hb. unfold SailsSocketService._handleSocketMessage.
  destruct (negb (isAlive s)); [done | by apply trigger_balanced].
Qed.

Lemma filter_give_delete (l : list Task) (i : nat) (t : Task) :
  l !! i = Some t ->
  Z.of_nat (length (List.filter is_give l))
  = Z.of_nat (length (List.filter is_give (delete i l)))
    + (if is_give t then 1 else 0).
Proof.
  revert i. induction l as [|x l IH]; intros [|i] Hi; try done.
  - cbn in Hi. simplify_eq. change (delete 0%nat (t :: l)) with l.
    cbn [List.filter]. destruct (is_give t); cbn [length]; lia.
  - cbn in Hi. change (delete (S i) (x :: l)) with (x :: delete i l).
    cbn [List.filter].
    specialize (IH i Hi). destruct (is_give x), (is_give t); cbn [length]; lia.
Qed.

Lemma run_task_balanced (s : State) (i : nat) (t : Task) :
  tasks s !! i = Some t ->
  balanced s ->
  balanced (run_task t (set_tasks (delete i (tasks s)) s)).
Proof.
  intros Hi Hb. pose proof (filter_give_delete _ _ _ Hi) as Hlen.
  destruct t as [cb e| | | |]; cbn [run_task is_give] in *.
  - assert (pendingOperationCount (give cb e (set_tasks (delete i (tasks s)) s))
            = outstanding (give cb e (set_tasks (delete i (tasks s)) s)) + 0) as H.
    { apply give_debt. unfold balanced, outstanding in *. destruct s. ssimpl. lia. }
    unfold balanced. lia.
  - apply ready_balanced. unfold balanced, outstanding in *. destruct s. ssimpl. lia.
  - apply connect_balanced. unfold balanced, outstanding in *. destruct s. ssimpl. lia.
  - eapply balanced_ledger; [apply ledger_load|].
    unfold balanced, outstanding in *. destruct s. ssimpl. lia.
  - eapply balanced_ledger; [apply ledger_waitObject|].
    unfold balanced, outstanding in *. destruct s. ssimpl. lia.
Qed.

Lemma emit_balanced (l : RawListener) (f : State -> State) (s : State) :
  (forall s, balanced s -> balanced (f s)) -> balanced s -> balanced (emit l f s).
Proof.
  intros Hf Hb. unfold emit. destruct (raw_of s); [|done].
  by apply iter_preserves.
Qed.

Lemma step_balanced (i : Input) (s : State) : balanced s -> balanced (step i s).
Proof.
  intros Hb. destruct i; cbn [step].
  - by apply request_balanced.
  - eapply balanced_ledger; [apply ledger_listenFor | done].
  - eapply balanced_ledger; [|done]. by destruct s.
  - destruct (tasks s !! i) eqn:Hi; [by eapply run_task_balanced | done].
  - eapply balanced_ledger; [|done]. by destruct s.
  - destruct (_sailsSocket s) as [[[r|]]|]; try done;
      (eapply balanced_ledger; [|done]); by destruct s.
  - destruct (raw_of s); [|done]. apply emit_balanced; [apply connect_balanced|].
    eapply balanced_ledger; [|done]. by destruct s.
  - destruct (raw_of s); [|done]. apply emit_balanced; [apply disconnect_balanced|].
    eapply balanced_ledger; [|done]. by destruct s.
  - destruct (raw_of s); [|done]. eapply balanced_ledger; [|done]. by destruct s.
  - apply emit_balanced; [apply message_balanced | done].
  - unfold respond, balanced, outstanding in *. destruct s. ssimpl.
    rewrite List.filter_app, !length_app.
    unfold on_response. destruct jwr as [j|]; [destruct (Z.eqb _ 2)|];
      cbn [List.filter is_response snd length]; lia.
  - unfold willDestroy. cbv zeta. destruct (isConnected _); [|by destruct s].
    destruct (raw_of _); eapply balanced_ledger; try done; by destruct s.
Qed.

(** X1: however the service is used, [pendingOperationCount] is the
    number of requests on their way: those waiting for the connection or
    for their turn in the run loop and those handed to the socket, less
    the answers the server gave; once the service is initialized, [isBusy]
    says whether there is any. *)
Theorem pending_operations_are_counted :
  forall inputs : list Input,
    let s := run inputs SailsSocketService.init in
    pendingOperationCount s = outstanding s /\
    (isInitialized s = true -> (isBusy s = true <-> 0 < outstanding s)).
Proof.
  intros inputs s.
  assert (balanced s) as Hb.
  { subst s. unfold run. apply foldl_preserves; [|done].
    intros. by apply step_balanced. }
  split; [done|]. intros Hi. unfold isBusy. rewrite Hi, Hb. cbn [negb orb].
  apply Z.ltb_lt.
Qed.

Import SailsAdapter SailsSocketService SailsSocketAfter.

(** ** After the service is destroyed *)

Lemma dead_like_refl (s : State) : alive s = false -> dead_like s s.
Proof. by intros H. Qed.

Lemma dead_like_trans (s1 s2 s3 : State) :
  dead_like s1 s2 -> dead_like s2 s3 -> dead_like s1 s3.
Proof. unfold dead_like. intros (? & ? & ? & ? & ?) (? & ? & ? & ? & ?). split_and!; congruence. Qed.

Ltac dead_cases s :=
  destruct s as [al ini con pnd lst sock wt subs tk io fr cn snt ans cr];
  unfold dead_like; ssimpl; intros; simplify_eq.

Lemma dead_with_raw (f : RawSocket -> RawSocket) (s : State) :
  alive s = false -> dead_like s (with_raw f s).
Proof. dead_cases s. by destruct sock as [[[[]|]]|]. Qed.

Lemma dead_listenFor (event : string) (listen : option bool) (s : State) :
  alive s = false -> dead_like s (listenFor event listen s).2.
Proof.
  intros Ha. unfold listenFor.
  destruct (default true listen), (_listeners s !! event), (isConnected s) eqn:Hc;
    try case_bool_decide; cbn [snd]; try done.
  all: try (eapply dead_like_trans; [|apply dead_with_raw; by destruct s]).
  all: by destruct s.
Qed.

Lemma dead_request (id : nat) (s : State) :
  alive s = false -> dead_like s (request id s).
Proof.
  intros Ha. unfold request, _connectedSocket, isAlive.
  replace (alive (incPending 1 s)) with false by (by destruct s).
  cbn [negb]. by destruct s.
Qed.

Lemma dead_run_task (t : Task) (s : State) :
  alive s = false -> dead_like s (run_task t s).
Proof.
  intros Ha. destruct t; cbn [run_task].
  - unfold give, isAlive. rewrite Ha. cbn [andb]. by destruct s.
  - unfold _handleSocketReady, isAlive. by rewrite Ha.
  - unfold _handleSocketConnect, isAlive. by rewrite Ha.
  - unfold _load. destruct (ioReady s); by destruct s.
  - dead_cases s. by destruct sock as [[[[sr [] gr ar]|]]|].
Qed.

Lemma dead_emit (l : RawListener) (f : State -> State) (s : State) :
  (forall s, alive s = false -> f s = s) ->
  alive s = false -> emit l f s = s.
Proof.
  intros Hf Ha. unfold emit. destruct (raw_of s) as [r|]; [|done].
  apply (iter_preserves (fun b => b = s)); [|done].
  intros b ->. by apply Hf.
Qed.

Lemma dead_step (i : Input) (s : State) :
  alive s = false -> dead_like s (step i s).
Proof.
  intros Ha. destruct i; cbn [step].
  - by apply dead_request.
  - by apply dead_listenFor.
  - by destruct s.
  - destruct (tasks s !! i); [|done].
    eapply dead_like_trans; [|apply dead_run_task; by destruct s]. by destruct s.
  - by destruct s.
  - destruct (_sailsSocket s) as [[[r|]]|]; try done; by destruct s.
  - destruct (raw_of s); [|done].
    rewrite dead_emit; [by destruct s| |by destruct s].
    intros s' Hs'. unfold _handleSocketConnect, isAlive. by rewrite Hs'.
  - destruct (raw_of s); [|done].
    rewrite dead_emit; [by destruct s| |by destruct s].
    intros s' Hs'. unfold _handleSocketDisconnect, isAlive. by rewrite Hs'.
  - destruct (raw_of s); [|done]. by destruct s.
  - rewrite dead_emit; [done| |done].
    intros s' Hs'. unfold SailsSocketService._handleSocketMessage, isAlive.
    by rewrite Hs'.
  - by destruct s.
  - unfold willDestroy. cbv zeta. destruct (isConnected _) eqn:Hc; [|by destruct s].
    destruct (raw_of _); by destruct s.
Qed.

Lemma dead_run (inputs : list Input) (s : State) :
  alive s = false -> dead_like s (run inputs s).
Proof.
  revert s. induction inputs as [|i inputs IH]; intros s Ha; [done|].
  cbn [run foldl]. pose proof (dead_step i s Ha) as H1.
  eapply dead_like_trans; [exact H1|]. apply IH. by destruct H1.
Qed.

Lemma dead_destroy (s : State) :
  alive (willDestroy s) = false /\ sent (willDestroy s) = sent s /\
  fired (willDestroy s) = fired s /\
  isInitialized (willDestroy s) = isInitialized s /\
  isConnected (willDestroy s) = isConnected s.
Proof.
  unfold willDestroy. cbv zeta. destruct (isConnected _) eqn:Hc; [|by destruct s].
  destruct (raw_of _); by destruct s.
Qed.

(** X2: once the service is destroyed nothing is sent over the socket and
    no event is triggered any more, whatever is asked of it and whatever
    the socket does; a request made then is rejected on its turn in the run
    loop, and the count of pending operations is as it was before it. *)
Theorem destroyed_service_is_inert :
  forall (inputs : list Input) (s : State) (id : nat),
    let s1 := run (Destroy :: inputs) s in
    let s2 := run [DoRequest id; RunTask (length (tasks s1))] s1 in
    alive s1 = false /\
    sent s1 = sent s /\
    fired s1 = fired s /\
    isConnected s1 = isConnected s /\
    sent s2 = sent s1 /\
    answers s2 = answers s1 ++ [(id, RejectDestroyed)] /\
    pendingOperationCount s2 = pendingOperationCount s1.
Proof.
  intros inputs s id s1 s2.
  destruct (dead_destroy s) as (Ha & Hs & Hf & Hi & Hc).
  destruct (dead_run inputs (willDestroy s) Ha) as (Ha1 & Hs1 & Hf1 & Hi1 & Hc1).
  change (run inputs (willDestroy s)) with s1 in *.
  split_and!; try congruence.
  all: subst s2; clearbody s1; clear -Ha1; cbn [run foldl step].
  all: unfold request, _connectedSocket, isAlive.
  all: replace (alive (incPending 1 s1)) with false by (by destruct s1).
  all: cbn [negb].
  all: replace (tasks (schedule (TGive id true) (incPending 1 s1))
                !! length (tasks s1)) with (Some (TGive id true))
         by (destruct s1; ssimpl; by rewrite list_lookup_middle).
  all: cbn [run_task]; unfold give, isAlive.
  all: destruct s1; ssimpl; subst; ssimpl; try done.
  lia.
Qed.

(** ** A request on a connected service *)

(** X3: on a connected service a request is handed to the socket on its
    turn in the run loop and counts as pending until the answer comes: with
    the answer the count is back where it was, and the promise settles as
    the status code says. *)
Theorem connected_request_round_trip :
  forall (s : State) (id : nat) (data : JsVal) (jwr : option JWR),
    alive s = true ->
    isConnected s = true ->
    let s1 := run [DoRequest id; RunTask (length (tasks s))] s in
    let s2 := step (EnvResponse id data jwr) s1 in
    sent s1 = sent s ++ [id] /\
    pendingOperationCount s1 = pendingOperationCount s + 1 /\
    tasks s1 = tasks s /\
    answers s1 = answers s /\
    pendingOperationCount s2 = pendingOperationCount s /\
    answers s2 = answers s ++ [(id, on_response data jwr)].
Proof.
  intros s id data jwr Ha Hc s1 s2. subst s2 s1. cbn [run foldl step].
  unfold request, _connectedSocket, isAlive.
  replace (alive (incPending 1 s)) with true by (by destruct s).
  replace (isConnected (incPending 1 s)) with true by (by destruct s).
  cbn [negb].
  replace (tasks (schedule (TGive id false) (incPending 1 s)) !! length (tasks s))
    with (Some (TGive id false))
    by (destruct s; ssimpl; by rewrite list_lookup_middle).
  cbn [run_task]. unfold give, respond, isAlive.
  destruct s as [al ini con pnd lst sock wt subs tk io fr cn snt ans cr].
  ssimpl. subst. ssimpl.
  split_and!; try done; [|lia].
  clear. induction tk as [|t tk IH]; [done|]. cbn. by f_equal.
Qed.

Lemma connected_request_round_trip_witness :
  sent (run [DoRequest 1; RunTask 0]
          (set_isConnected true SailsSocketService.init))
  = [1%nat].
Proof.
  exact (proj1 (connected_request_round_trip
                  (set_isConnected true SailsSocketService.init) 1%nat JNull None
                  eq_refl eq_refl)).
Defined.

(** ** Requests made before the socket is connected *)

Lemma queue_more (ids : list nat) (s : State) (c : nat) (l : list nat) :
  alive s = true ->
  isConnected s = false ->
  _waitingForSockets s = Some (c :: l) ->
  run (DoRequest <$> ids) s
  = set__waitingForSockets (Some ((c :: l) ++ ids))
      (set_pendingOperationCount
         (pendingOperationCount s + Z.of_nat (length ids)) s).
Proof.
  revert s l. induction ids as [|id ids IH]; intros s l Ha Hc Hw.
  - cbn [fmap list_fmap run foldl length]. rewrite app_nil_r.
    destruct s. ssimpl. subst. f_equal. lia.
  - cbn [fmap list_fmap run foldl step].
    change (foldl (fun s i => step i s) ?x (DoRequest <$> ids))
      with (run (DoRequest <$> ids) x).
    assert (request id s
            = set__waitingForSockets (Some ((c :: l) ++ [id])) (incPending 1 s))
      as ->.
    { unfold request. rewrite connectedSocket_cases.
      replace (alive (incPending 1 s)) with true by (by destruct s).
      replace (isConnected (incPending 1 s)) with false by (by destruct s).
      replace (_waitingForSockets (incPending 1 s)) with (Some (c :: l))
        by (by destruct s).
      done. }
    rewrite (IH _ (l ++ [id])); [| by destruct s..].
    destruct s. ssimpl. subst. cbn [length app]. rewrite <- !app_assoc.
    f_equal. lia.
Qed.

Lemma run_app (a b : list Input) (s : State) :
  run (a ++ b) s = run b (run a s).
Proof. apply foldl_app. Qed.

Lemma flush_alive (l : list nat) (s : State) :
  alive s = true ->
  foldl (fun s cb => give cb false s) s l = set_sent (sent s ++ l) s.
Proof.
  revert s. induction l as [|cb l IH]; intros s Ha; cbn [foldl].
  - rewrite app_nil_r. by destruct s.
  - rewrite IH.
    + unfold give, isAlive. rewrite Ha. destruct s. ssimpl.
      by rewrite <- app_assoc.
    + unfold give, isAlive. rewrite Ha. by destruct s.
Qed.

Lemma first_connection (p : Z) (l : list nat) :
  run [EnvIoReady; RunTask 0; RunTask 0; EnvRawCreated; RunTask 0] (waiting_state p l)
  = {| alive := true; isInitialized := true; isConnected := false;
       pendingOperationCount := p; _listeners := ∅;
       _sailsSocket :=
         Some {| _raw := Some {| serial := 0; connected := false;
                                 connecting := true;
                                 attached := [LConnect; LDisconnect] |} |};
       _waitingForSockets := Some l;
       subscribers := [("didConnect", HFlushWaiting, true)]; tasks := [];
       ioReady := true; fired := ["didInitialize"]; connects := 1; sent := [];
       answers := []; crashed := false |} /\
  step EnvRawConnect
    (run [EnvIoReady; RunTask 0; RunTask 0; EnvRawCreated; RunTask 0]
       (waiting_state p l))
  = foldl (fun s cb => give cb false s)
      {| alive := true; isInitialized := true; isConnected := true;
         pendingOperationCount := p; _listeners := ∅;
         _sailsSocket :=
           Some {| _raw := Some {| serial := 0; connected := true;
                                   connecting := false;
                                   attached := [LConnect; LDisconnect] |} |};
         _waitingForSockets := None;
         subscribers := []; tasks := [];
         ioReady := true; fired := ["didInitialize"; "didConnect"];
         connects := 1; sent := []; answers := []; crashed := false |}
      l.
Proof. split; vm_compute; reflexivity. Qed.

(** X4: requests made before the socket is connected wait for the first
    [didConnect]: one connection is opened for all of them, nothing is sent
    before it is up, and then all are handed to the socket in the order
    they were made, each still counted as pending. *)
Theorem queued_requests_are_sent_on_connect :
  forall (id : nat) (ids : list nat),
    let opening := [EnvIoReady; RunTask 0; RunTask 0; EnvRawCreated; RunTask 0] in
    let s1 := run ((DoRequest <$> id :: ids) ++ opening) SailsSocketService.init in
    let s2 := step EnvRawConnect s1 in
    sent s1 = [] /\
    _waitingForSockets s1 = Some (id :: ids) /\
    connects s1 = 1%nat /\
    sent s2 = id :: ids /\
    isConnected s2 = true /\
    connects s2 = 1%nat /\
    fired s2 = ["didInitialize"; "didConnect"] /\
    _waitingForSockets s2 = None /\
    answers s2 = [] /\
    pendingOperationCount s2 = Z.of_nat (length (id :: ids)).
Proof.
  intros id ids opening s1 s2.
  assert (run (DoRequest <$> id :: ids) SailsSocketService.init
          = waiting_state (Z.of_nat (length (id :: ids))) (id :: ids)) as Hq.
  { cbn [fmap list_fmap run foldl].
    change (foldl (fun s i => step i s) ?x (DoRequest <$> ids))
      with (run (DoRequest <$> ids) x).
    rewrite (queue_more ids _ id []); [|reflexivity..].
    unfold waiting_state. cbn [length]. rewrite Nat2Z.inj_succ.
    vm_compute step. ssimpl. cbn [app]. f_equal. lia. }
  assert (s1 = run opening (waiting_state (Z.of_nat (length (id :: ids))) (id :: ids)))
    as Hs1.
  { subst s1. rewrite run_app, Hq. reflexivity. }
  destruct (first_connection (Z.of_nat (length (id :: ids))) (id :: ids))
    as [Hopen Hconnect].
  subst s2. rewrite Hs1. subst opening. rewrite Hconnect, Hopen.
  rewrite flush_alive by done.
  done.
Qed.

(** ** Listening and not listening *)

Lemma remove_first_absent (l : RawListener) (ls : list RawListener) :
  l ∉ ls -> remove_first l ls = ls.
Proof.
  induction ls as [|x ls IH]; [done|]. cbn [remove_first].
  intros [Hne Hl]%not_elem_of_cons.
  destruct (decide (x = l)); [congruence|]. by rewrite IH.
Qed.

Lemma remove_first_snoc (l : RawListener) (ls : list RawListener) :
  l ∉ ls -> remove_first l (ls ++ [l]) = ls.
Proof.
  induction ls as [|x ls IH]; cbn [app remove_first].
  - intros _. by destruct (decide (l = l)).
  - intros [Hne Hl]%not_elem_of_cons.
    destruct (decide (x = l)); [congruence|]. by rewrite IH.
Qed.

(** X5: for an event that is no name of [Object.prototype], [listenFor] is
    idempotent either way: asking twice to listen, or twice to stop,
    changes nothing the second time and says so; stopping right after
    starting leaves the service as it was before, with the listener taken
    off the raw socket again when the service is connected.  For a name
    that the object literal [_listeners] inherits, such as [toString] or
    [constructor], the service never starts to listen, and every call to
    stop answers [true] and changes nothing. *)
Theorem listenFor_twice_and_back :
  forall (s : State) (event : string) (listen : option bool),
    (default true listen = true \/ event ∉ inherited ->
     listenFor event listen (listenFor event listen s).2
     = (false, (listenFor event listen s).2)) /\
    (event ∈ inherited ->
     _listeners s !! event = None ->
     (isConnected s = true ->
      exists r, _sailsSocket s = Some {| _raw := Some r |} /\
                LMessage event ∉ attached r) ->
     listenFor event (Some true) s = (false, s) /\
     listenFor event (Some false) s = (true, s)) /\
    (event ∉ inherited ->
     _listeners s !! event = None ->
     (isConnected s = true ->
      exists r, _sailsSocket s = Some {| _raw := Some r |} /\
                LMessage event ∉ attached r) ->
     (listenFor event None s).1 = true /\
     listenFor event (Some false) (listenFor event None s).2 = (true, s)).
Proof.
  intros s event listen. split_and!.
  - intros Hcase. unfold listenFor. case_bool_decide as Hin.
    { destruct Hcase as [Hl|]; [|done]. rewrite Hl.
      destruct (_listeners s !! event) as [b|] eqn:E; cbn [snd]; by rewrite E. }
    destruct (default true listen) eqn:Hl.
    + destruct (_listeners s !! event) as [b|] eqn:E; cbn [snd].
      * by rewrite E.
      * destruct (isConnected s) eqn:Hc; cbn [snd].
        -- assert (_listeners (with_raw (addEventListener (LMessage event))
                     (set__listeners (<[event:=true]> (_listeners s)) s)) !! event
                   = Some true) as ->; [|done].
           unfold with_raw, raw_of. destruct s as [? ? ? ? ? [[[]]|]]; cbn;
             apply lookup_insert_eq.
        -- assert (_listeners (set__listeners (<[event:=false]> (_listeners s)) s)
                     !! event = Some false) as ->; [|done].
           destruct s. cbn. apply lookup_insert_eq.
    + destruct (_listeners s !! event) as [b|] eqn:E; cbn [snd].
      * destruct (isConnected s) eqn:Hc; cbn [snd].
        -- assert (_listeners (with_raw (removeEventListener (LMessage event))
                     (set__listeners (delete event (_listeners s)) s)) !! event
                   = None) as ->; [|done].
           unfold with_raw, raw_of. destruct s as [? ? ? ? ? [[[]]|]]; cbn;
             apply lookup_delete_eq.
        -- assert (_listeners (set__listeners (delete event (_listeners s)) s)
                     !! event = None) as ->; [|done].
           destruct s. cbn. apply lookup_delete_eq.
      * by rewrite E.
  - intros Hin Hnew Hraw. unfold listenFor.
    cbn [default from_option Datatypes.id].
    rewrite Hnew, bool_decide_eq_true_2 by done. split; [done|].
    destruct (isConnected s) eqn:Hc; [|done].
    destruct Hraw as (r & Hr & Hfresh); [done|].
    destruct s as [al ini con pnd lst sock wt subs tk io fr cn snt ans cr].
    ssimpl. subst. ssimpl. destruct r as [sr cr' gr ar]. ssimpl.
    by rewrite remove_first_absent.
  - intros Hout Hnew Hraw. unfold listenFor.
    cbn [default from_option Datatypes.id].
    rewrite Hnew, bool_decide_eq_false_2 by done.
    destruct (isConnected s) eqn:Hc; cbn [fst snd].
    + destruct Hraw as (r & Hr & Hfresh); [done|]. split; [done|].
      destruct s as [al ini con pnd lst sock wt subs tk io fr cn snt ans cr].
      ssimpl. subst. ssimpl. rewrite lookup_insert_eq. ssimpl.
      rewrite delete_insert_eq, delete_id by done.
      destruct r as [sr cr' gr ar]. ssimpl. by rewrite remove_first_snoc.
    + split; [done|].
      destruct s as [al ini con pnd lst sock wt subs tk io fr cn snt ans cr].
      ssimpl. subst. rewrite lookup_insert_eq.
      by rewrite delete_insert_eq, delete_id by done.
Qed.

Lemma listenFor_twice_and_back_witness :
  listenFor "user" (Some false) (listenFor "user" None SailsSocketService.init).2
  = (true, SailsSocketService.init).
Proof.
  refine (proj2 (proj2 (proj2 (listenFor_twice_and_back
                                 SailsSocketService.init "user" None))
                   _ _ _)); [compute_done | reflexivity | discriminate].
Defined.
Import SailsAdapter SailsSocketService JsString SocketUrl.

(** ** The URL of the socket *)

Lemma append_cons (c : Ascii.ascii) (a b : string) :
  String c a +:+ b = String c (a +:+ b).
Proof. reflexivity. Qed.

Lemma append_empty (s : string) : s +:+ "" = s.
Proof. induction s as [|c s IH]; [done|]. by rewrite append_cons, IH. Qed.

Lemma starts_with_app (p s : string) : starts_with p (p +:+ s) = true.
Proof.
  induction p as [|c p IH]; [done|]. rewrite append_cons. cbn [starts_with].
  by rewrite Ascii.eqb_refl, IH.
Qed.

Lemma span_app (p : Ascii.ascii -> bool) (s : string) :
  s = (span p s).1 +:+ (span p s).2.
Proof.
  induction s as [|c s IH]; [done|]. cbn [span].
  destruct (p c); cbn [fst snd]; [|done]. rewrite append_cons. by f_equal.
Qed.

Lemma span_all (p : Ascii.ascii -> bool) (s : string) :
  all_chars p (span p s).1 = true.
Proof.
  induction s as [|c s IH]; [done|]. cbn [span].
  destruct (p c) eqn:Hc; cbn [fst all_chars]; [by rewrite Hc, IH | done].
Qed.

(** What [span] gives on a prefix that satisfies [p] and is followed by the
    end of the string or by a character that does not. *)
Lemma span_prefix (p : Ascii.ascii -> bool) (a b : string) :
  all_chars p a = true ->
  (span p b).1 = EmptyString ->
  span p (a +:+ b) = (a, b).
Proof.
  intros Ha Hb. induction a as [|c a IH].
  - change ("" +:+ b) with b.
    rewrite (surjective_pairing (span p b)), Hb. f_equal.
    pose proof (span_app p b) as E. rewrite Hb in E. done.
  - cbn [all_chars] in Ha. apply andb_true_iff in Ha as [Hc Ha].
    rewrite append_cons. cbn [span]. rewrite Hc, (IH Ha). done.
Qed.

Lemma span_stops (p : Ascii.ascii -> bool) (s : string) :
  (span p (span p s).2).1 = EmptyString.
Proof.
  induction s as [|c s IH]; [done|]. cbn [span].
  destruct (p c) eqn:Hc; cbn [snd]; [done|]. cbn [span]. by rewrite Hc.
Qed.

Lemma origin_again (src url : string) :
  origin src = Some url -> origin url = Some url.
Proof.
  unfold origin.
  pose proof (span_all not_colon src) as Hscheme.
  pose proof (span_stops not_colon src) as Hafter.
  destruct (span not_colon src) as [scheme after]. cbn [fst snd] in *.
  destruct (String.eqb_spec scheme "") as [|Hs]; [done|]. cbn [negb andb].
  destruct (starts_with "://" after) eqn:Hsep; [|done].
  pose proof (span_all not_slash (drop3 after)) as Hhost.
  destruct (span not_slash (drop3 after)) as [host rest]. cbn [fst] in Hhost.
  destruct (String.eqb_spec host "") as [|Hh]; [done|]. cbn [negb andb].
  destruct (all_chars _ rest); [|done]. intros [= <-].
  assert (span not_colon (scheme +:+ "://" +:+ host) = (scheme, "://" +:+ host))
    as ->.
  { by apply span_prefix. }
  destruct (String.eqb_spec scheme ""); [done|]. cbn [negb andb].
  rewrite starts_with_app.
  change (drop3 ("://" +:+ host)) with host.
  assert (span not_slash host = (host, "")) as ->.
  { rewrite <- (append_empty host) at 1. by apply span_prefix. }
  destruct (String.eqb_spec host ""); [done|]. done.
Qed.

(** X6: [socketUrl] cuts the URL of the script down to its origin: from
    [scheme://host/path] it keeps [scheme://host]; a string without a
    colon is left as it is; and the URL it gives is an origin already, so
    taking it again changes nothing. *)
Theorem socketUrl_is_the_origin :
  forall src : string,
    socketUrl (socketUrl src) = socketUrl src /\
    (forall scheme host path,
       src = scheme +:+ "://" +:+ host +:+ "/" +:+ path ->
       scheme <> "" -> host <> "" ->
       all_chars not_colon scheme = true ->
       all_chars not_slash host = true ->
       all_chars (fun c => negb (line_terminator c)) path = true ->
       socketUrl src = scheme +:+ "://" +:+ host) /\
    (all_chars not_colon src = true -> socketUrl src = src).
Proof.
  intros src. split_and!.
  - unfold socketUrl at 2 3. destruct (origin src) as [url|] eqn:E.
    + unfold socketUrl. by rewrite (origin_again src url).
    + unfold socketUrl. by rewrite E.
  - intros scheme host path -> Hs Hh Hsc Hho Hpa.
    unfold socketUrl, origin.
    rewrite (span_prefix not_colon scheme ("://" +:+ host +:+ "/" +:+ path))
      by done.
    destruct (String.eqb_spec scheme ""); [done|]. cbn [negb andb].
    rewrite starts_with_app.
    change (drop3 ("://" +:+ host +:+ "/" +:+ path)) with (host +:+ "/" +:+ path).
    rewrite (span_prefix not_slash host ("/" +:+ path)) by done.
    destruct (String.eqb_spec host ""); [done|]. cbn [negb andb].
    assert (all_chars (fun c => negb (line_terminator c)) ("/" +:+ path) = true)
      as ->; [|done].
    change ("/" +:+ path) with (String.append "/" path).
    unfold String.append; fold String.append. cbn [all_chars]. by rewrite Hpa.
  - intros Hall. unfold socketUrl, origin.
    rewrite <- (append_empty src) at 1.
    rewrite (span_prefix not_colon src "") by done.
    by rewrite andb_false_r.
Qed.

Lemma socketUrl_is_the_origin_witness :
  socketUrl "http://localhost:1337/js/dependencies/sails.io.js"
  = "http://localhost:1337".
Proof.
  refine (proj1 (proj2 (socketUrl_is_the_origin
                          "http://localhost:1337/js/dependencies/sails.io.js"))
            "http" "localhost:1337" "js/dependencies/sails.io.js" _ _ _ _ _ _);
    first [reflexivity | discriminate].
Defined.

Import SailsSocketService SailsAdapter SailsSerializer.

(** ** Embedded records *)

Lemma typeOf_object (v : JsVal) :
  String.eqb (typeOf v) "object" = true <-> exists o, v = JObj o.
Proof. destruct v; cbn; split; try done; try (by intros [? ?]); by eexists. Qed.

Lemma obj_get_delete_ne (o : Obj) (k k' : string) :
  k <> k' -> obj_get (obj_delete o k) k' = obj_get o k'.
Proof.
  intros Hne. induction o as [|[k0 v0] o IH]; [done|]. cbn [obj_delete obj_get].
  destruct (String.eqb_spec k0 k) as [->|Hk].
  - destruct (String.eqb_spec k k'); [done | apply IH].
  - cbn [obj_get]. destruct (String.eqb_spec k0 k'); [done | apply IH].
Qed.

Lemma keys_delete (o : Obj) (k k' : string) :
  k' ∈ keys (obj_delete o k) <-> k' ∈ keys o /\ k' <> k.
Proof.
  induction o as [|[k0 v0] o IH]; cbn [obj_delete keys map fst].
  - split; [by intros ?%elem_of_nil | by intros [?%elem_of_nil _]].
  - fold (keys o). destruct (String.eqb_spec k0 k) as [->|Hk].
    + rewrite IH, elem_of_cons. naive_solver.
    + cbn [keys map fst]. fold (keys (obj_delete o k)).
      rewrite !elem_of_cons, IH. naive_solver.
Qed.

Lemma keys_set (o : Obj) (k k' : string) (v : JsVal) :
  k' ∈ keys (obj_set o k v) <-> k' ∈ keys o \/ k' = k.
Proof.
  induction o as [|[k0 v0] o IH]; cbn [obj_set keys map fst].
  - rewrite list_elem_of_singleton. split; [by right | intros [?%elem_of_nil|]; done].
  - fold (keys o). destruct (String.eqb_spec k0 k) as [->|Hk]; cbn [keys map fst].
    + fold (keys o). rewrite !elem_of_cons. naive_solver.
    + fold (keys (obj_set o k v)). rewrite !elem_of_cons, IH. naive_solver.
Qed.

Lemma obj_get_present (o : Obj) (k : string) :
  obj_get o k <> JUndefined -> k ∈ keys o.
Proof.
  induction o as [|[k0 v0] o IH]; cbn [obj_get keys map fst]; [done|].
  fold (keys o). destruct (String.eqb_spec k0 k) as [->|Hk]; intros H.
  - by left.
  - right. by apply IH.
Qed.

Lemma obj_set_same (o : Obj) (k : string) :
  k ∈ keys o -> obj_set o k (obj_get o k) = o.
Proof.
  induction o as [|[k0 v0] o IH]; cbn [obj_get obj_set keys map fst].
  - by intros ?%elem_of_nil.
  - fold (keys o). destruct (String.eqb_spec k0 k) as [->|Hk]; [done|].
    intros [?|Hin]%elem_of_cons; [congruence|]. by rewrite IH.
Qed.

Section Extraction.

Variable normalize : string -> JsVal -> JsVal.

Abbreviation extract := (_extractEmbeddedRecords normalize).
Abbreviation extract_one := (extract_relationship normalize).
Abbreviation extract_all :=
  (foldl (fun acc entry =>
            match acc with
            | Returns st => extract_relationship normalize st entry
            | Throws t => Throws t
            end)).

Lemma extract_items (modelName : string) (items ids : list JsVal) (ps : Pushes) :
  foldl (extract_item normalize modelName) (ids, ps) items
  = (ids ++ (item_ref <$> items),
     ps ++ ((fun record => (modelName, normalize modelName record))
            <$> List.filter (fun item => String.eqb (typeOf item) "object") items)).
Proof.
  revert ids ps. induction items as [|item items IH]; intros ids ps.
  - cbn. by rewrite !app_nil_r.
  - cbn [foldl]. unfold extract_item at 2, item_ref. cbn [fst snd List.filter fmap list_fmap].
    destruct (String.eqb (typeOf item) "object");
      rewrite IH; cbn [fmap list_fmap]; by rewrite <- !app_assoc.
Qed.

Lemma embedded_falsy (kind : string) (data : JsVal) :
  truthy data = false -> embedded kind data = [].
Proof.
  unfold embedded. intros Ht.
  destruct (String.eqb kind "belongsTo"); [by destruct data|].
  destruct (String.eqb kind "hasMany"); [by destruct data|done].
Qed.

Lemma steps_throws (rels : list (string * Relationship)) (t : Thrown) :
  extract_all (Throws t) rels = Throws t.
Proof. induction rels; [done | by cbn]. Qed.

(** One relationship: what becomes of the hash and of the pushes. *)
Lemma step_extractable (h : Obj) (ps : Pushes) (key : string) (rel : Relationship) :
  extractable (kind rel) (obj_get h key) = true ->
  exists h',
    extract_one (h, ps) (key, rel) = Returns (h', ps ++ pushes_of normalize h (key, rel)) /\
    obj_get h' key = (if truthy (obj_get h key)
                      then references (kind rel) (obj_get h key)
                      else obj_get h key) /\
    (forall k, k <> key -> obj_get h' k = obj_get h k) /\
    (forall k, k ∈ keys h' <-> k ∈ keys h).
Proof.
  unfold extractable, extract_relationship, pushes_of, embedded, references, item_ref.
  cbn [fst snd].
  destruct (truthy (obj_get h key)) eqn:Ht; cbn [negb orb].
  - destruct (String.eqb (kind rel) "belongsTo") eqn:Hb; cbn [orb].
    + intros _. destruct (String.eqb (typeOf (obj_get h key)) "object") eqn:Ho.
      * eexists. split; [reflexivity|]. split_and!.
        -- apply obj_get_set_eq.
        -- intros k Hk. by rewrite obj_get_set_ne, obj_get_delete_ne.
        -- intros k. rewrite keys_set, keys_delete.
           assert (key ∈ keys h).
           { apply obj_get_present. intros E. by rewrite E in Ht. }
           destruct (decide (k = key)); naive_solver.
      * exists h. cbn. by rewrite app_nil_r.
    + destruct (String.eqb (kind rel) "hasMany") eqn:Hm; cbn [andb]; [|done].
      destruct (obj_get h key) as [| | | | |items|] eqn:Hd; try done.
      intros _. rewrite extract_items. cbn [app].
      eexists. split; [reflexivity|]. split_and!.
      * apply obj_get_set_eq.
      * intros k Hk. by rewrite obj_get_set_ne.
      * intros k. rewrite keys_set.
        assert (key ∈ keys h) by (apply obj_get_present; by rewrite Hd).
        naive_solver.
  - intros _. exists h. split_and!; try done.
    fold (embedded (kind rel) (obj_get h key)).
    by rewrite embedded_falsy, app_nil_r.
Qed.

Lemma step_not_extractable (h : Obj) (ps : Pushes) (key : string) (rel : Relationship) :
  extractable (kind rel) (obj_get h key) = false ->
  exists t, extract_one (h, ps) (key, rel) = Throws t.
Proof.
  unfold extractable, extract_relationship.
  destruct (truthy (obj_get h key)); cbn [negb orb]; [|done].
  destruct (String.eqb (kind rel) "belongsTo"); cbn [orb]; [done|].
  destruct (String.eqb (kind rel) "hasMany"); cbn [andb]; [|by eexists].
  destruct (obj_get h key); try done; by eexists.
Qed.

Lemma references_falsy (kind : string) (data : JsVal) :
  truthy data = false -> references kind data = data.
Proof.
  unfold references, item_ref. intros Ht.
  destruct (String.eqb kind "belongsTo"); [by destruct data|].
  destruct (String.eqb kind "hasMany"); [by destruct data|done].
Qed.

Lemma pushes_of_ext (h h' : Obj) (rels : list (string * Relationship)) :
  (forall key rel, (key, rel) ∈ rels -> obj_get h' key = obj_get h key) ->
  pushes_of normalize h' <$> rels = pushes_of normalize h <$> rels.
Proof.
  intros Hsame. apply Forall_fmap_ext, Forall_forall.
  intros [key rel] Hin. unfold pushes_of. cbn [fst snd].
  by rewrite (Hsame key rel).
Qed.

Lemma steps_spec (rels : list (string * Relationship)) (h : Obj) (ps : Pushes) :
  NoDup rels.*1 ->
  (forall key rel, (key, rel) ∈ rels ->
     extractable (kind rel) (obj_get h key) = true) ->
  exists h',
    extract_all (Returns (h, ps)) rels
    = Returns (h', ps ++ concat (pushes_of normalize h <$> rels)) /\
    (forall key rel, (key, rel) ∈ rels ->
       obj_get h' key = references (kind rel) (obj_get h key)) /\
    (forall k, k ∉ rels.*1 -> obj_get h' k = obj_get h k) /\
    (forall k, k ∈ keys h' <-> k ∈ keys h).
Proof.
  revert h ps. induction rels as [|[key rel] rels IH]; intros h ps Hnd Hok.
  - exists h. cbn. rewrite app_nil_r. split_and!; try done.
    intros ? ? ?%elem_of_nil. done.
  - rewrite fmap_cons in Hnd. apply NoDup_cons in Hnd as [Hfresh Hnd]. cbn [fst] in Hfresh.
    destruct (step_extractable h ps key rel) as (h1 & Hstep & Hkey & Hframe & Hkeys).
    { apply Hok. by left. }
    assert (forall key' rel', (key', rel') ∈ rels -> key' <> key) as Hother.
    { intros key' rel' Hin ->. apply Hfresh, list_elem_of_fmap. by exists (key, rel'). }
    destruct (IH h1 (ps ++ pushes_of normalize h (key, rel)) Hnd)
      as (h' & Hsteps & Hkey' & Hframe' & Hkeys').
    { intros key' rel' Hin. rewrite Hframe by eauto. apply Hok. by right. }
    exists h'. cbn [foldl]. rewrite Hstep, Hsteps. split_and!.
    + rewrite fmap_cons. cbn [concat]. rewrite <- app_assoc.
      rewrite (pushes_of_ext h h1); [done|]. intros; apply Hframe; eauto.
    + intros key' rel' [[= -> ->]|Hin]%elem_of_cons.
      * rewrite Hframe' by done. rewrite Hkey.
        destruct (truthy (obj_get h key)) eqn:Ht; [done|].
        by rewrite references_falsy.
      * rewrite (Hkey' _ _ Hin), Hframe; eauto.
    + intros k Hk. rewrite fmap_cons in Hk. cbn [fst] in Hk.
      apply not_elem_of_cons in Hk as [Hne Hk].
      by rewrite Hframe', Hframe.
    + intros k. by rewrite Hkeys', Hkeys.
Qed.

Lemma steps_fail (rels : list (string * Relationship)) (h : Obj) (ps : Pushes)
    (key : string) (rel : Relationship) :
  NoDup rels.*1 ->
  (key, rel) ∈ rels ->
  extractable (kind rel) (obj_get h key) = false ->
  exists t, extract_all (Returns (h, ps)) rels = Throws t.
Proof.
  revert h ps. induction rels as [|[key0 rel0] rels IH]; intros h ps Hnd Hin Hbad.
  - by apply elem_of_nil in Hin.
  - rewrite fmap_cons in Hnd. apply NoDup_cons in Hnd as [Hfresh Hnd]. cbn [fst] in Hfresh.
    cbn [foldl].
    destruct (extractable (kind rel0) (obj_get h key0)) eqn:Hok.
    + destruct (step_extractable h ps key0 rel0 Hok) as (h1 & -> & _ & Hframe & _).
      apply elem_of_cons in Hin as [[= -> ->]|Hin]; [congruence|].
      apply IH; [done..|]. rewrite Hframe; [done|].
      intros ->. apply Hfresh, list_elem_of_fmap. by exists (key0, rel).
    + destruct (step_not_extractable h ps key0 rel0 Hok) as [t ->].
      exists t. apply steps_throws.
Qed.

Lemma steps_frame (rels : list (string * Relationship)) (h h' : Obj) (ps ps' : Pushes) :
  extract_all (Returns (h, ps)) rels = Returns (h', ps') ->
  (forall k, k ∉ rels.*1 -> obj_get h' k = obj_get h k) /\
  (forall k, k ∈ keys h' <-> k ∈ keys h).
Proof.
  revert h ps. induction rels as [|[key rel] rels IH]; intros h ps Hrun.
  - cbn in Hrun. by simplify_eq.
  - cbn [foldl] in Hrun.
    destruct (extractable (kind rel) (obj_get h key)) eqn:Hok.
    + destruct (step_extractable h ps key rel Hok) as (h1 & Hstep & _ & Hframe & Hkeys).
      rewrite Hstep in Hrun. apply IH in Hrun as [Hframe' Hkeys']. split.
      * intros k Hk. rewrite fmap_cons in Hk. cbn [fst] in Hk.
        apply not_elem_of_cons in Hk as [Hne Hk]. by rewrite Hframe', Hframe.
      * intros k. by rewrite Hkeys', Hkeys.
    + destruct (step_not_extractable h ps key rel Hok) as [t Hstep].
      rewrite Hstep, steps_throws in Hrun. done.
Qed.

Lemma step_settled (h : Obj) (ps : Pushes) (key : string) (rel : Relationship)
    (data : JsVal) :
  obj_get h key = references (kind rel) data ->
  extractable (kind rel) data = true ->
  scalar_ids data = true ->
  extract_one (h, ps) (key, rel) = Returns (h, ps).
Proof.
  intros Hget Hok Hsc. unfold extract_relationship.
  destruct (truthy (obj_get h key)) eqn:Ht; [|done].
  assert (truthy data = true) as Htd.
  { destruct (truthy data) eqn:E; [done|].
    rewrite references_falsy in Hget by done. congruence. }
  unfold extractable in Hok. rewrite Htd in Hok. cbn [negb orb] in Hok.
  unfold references in Hget.
  destruct (String.eqb (kind rel) "belongsTo") eqn:Hb.
  - assert (String.eqb (typeOf (obj_get h key)) "object" = false) as ->; [|done].
    rewrite Hget. unfold scalar_ids, scalar_id in Hsc.
    destruct data; try done; by apply negb_true_iff in Hsc.
  - cbn [orb] in Hok. apply andb_true_iff in Hok as [Hm Harr]. rewrite Hm in *.
    destruct data as [| | | | |items|]; try done.
    rewrite Hget. cbv beta iota. rewrite extract_items. cbn [app scalar_ids] in *.
    assert (item_ref <$> (item_ref <$> items) = item_ref <$> items
            /\ List.filter (fun item => String.eqb (typeOf item) "object")
                 (item_ref <$> items) = []) as [-> ->].
    { clear Hget Ht Htd. induction items as [|item items IH]; [done|].
      cbn [forallb] in Hsc. apply andb_true_iff in Hsc as [Hi Hsc].
      destruct (IH Hsc) as [IH1 IH2].
      rewrite !fmap_cons. cbn [List.filter]. unfold scalar_id in Hi.
      apply negb_true_iff in Hi. rewrite Hi, IH2. split; [|done].
      f_equal; [|done]. unfold item_ref at 1. by rewrite Hi. }
    cbn [fmap list_fmap]. rewrite app_nil_r, <- Hget.
    rewrite obj_set_same; [done|].
    apply obj_get_present. by rewrite Hget.
Qed.

Lemma steps_settled (rels : list (string * Relationship)) (h : Obj) (ps : Pushes) :
  (forall key rel, (key, rel) ∈ rels -> extract_one (h, ps) (key, rel) = Returns (h, ps)) ->
  extract_all (Returns (h, ps)) rels = Returns (h, ps).
Proof.
  induction rels as [|[key rel] rels IH]; intros Hall; [done|].
  cbn [foldl]. rewrite Hall by left. apply IH. intros. apply Hall. by right.
Qed.


(** X8: when it returns, every embedded record of the hash it was given has
    been pushed to the store once, in the order of the relationships, and
    each relationship field holds the [id]s in place of the records. *)
Theorem extraction_replaces_embedded_records :
  forall (rels : list (string * Relationship)) (hash hash' : Obj) (ps : Pushes),
    NoDup rels.*1 ->
    extract rels hash = Returns (hash', ps) ->
    ps = concat (pushes_of normalize hash <$> rels) /\
    forall key rel, (key, rel) ∈ rels ->
      obj_get hash' key = references (kind rel) (obj_get hash key).
Proof.
  intros rels hash hash' ps Hnd Hrun.
  destruct (steps_spec rels hash [] Hnd) as (h' & Hrun' & Hkey & _).
  - intros key rel Hin.
    destruct (extractable (kind rel) (obj_get hash key)) eqn:Hok; [done|].
    destruct (steps_fail rels hash [] key rel Hnd Hin Hok) as [t Ht].
    unfold _extractEmbeddedRecords in Hrun. congruence.
  - unfold _extractEmbeddedRecords in Hrun. rewrite Hrun' in Hrun.
    by simplify_eq.
Qed.

(** X9: the fields that are no relationship keep their values, and no field
    is added to the hash or removed from it. *)
Theorem extraction_keeps_other_fields :
  forall (rels : list (string * Relationship)) (hash hash' : Obj) (ps : Pushes),
    extract rels hash = Returns (hash', ps) ->
    (forall k, k ∉ rels.*1 -> obj_get hash' k = obj_get hash k) /\
    (forall k, k ∈ keys hash' <-> k ∈ keys hash).
Proof. intros rels hash hash' ps Hrun. by apply steps_frame in Hrun. Qed.

(** X10: extracting again from the hash that was returned changes nothing
    and pushes nothing, as long as no embedded record carries a record as
    its [id]. *)
Theorem extraction_is_idempotent :
  forall (rels : list (string * Relationship)) (hash hash' : Obj) (ps : Pushes),
    NoDup rels.*1 ->
    (forall key rel, (key, rel) ∈ rels -> scalar_ids (obj_get hash key) = true) ->
    extract rels hash = Returns (hash', ps) ->
    extract rels hash' = Returns (hash', []).
Proof.
  intros rels hash hash' ps Hnd Hsc Hrun.
  assert (forall key rel, (key, rel) ∈ rels ->
            extractable (kind rel) (obj_get hash key) = true) as Hok.
  { intros key rel Hin.
    destruct (extractable (kind rel) (obj_get hash key)) eqn:Hok; [done|].
    destruct (steps_fail rels hash [] key rel Hnd Hin Hok) as [t Ht].
    unfold _extractEmbeddedRecords in Hrun. congruence. }
  destruct (steps_spec rels hash [] Hnd Hok) as (h' & Hrun' & Hkey & _).
  unfold _extractEmbeddedRecords in Hrun. rewrite Hrun' in Hrun. simplify_eq.
  apply steps_settled. intros key rel Hin.
  apply (step_settled _ _ _ _ (obj_get hash key)); eauto.
Qed.

End Extraction.


Lemma extraction_replaces_embedded_records_witness :
  [("user", JObj [("id", JNum 7); ("name", JStr "Ann")]);
   ("tag", JObj [("id", JNum 4)])]
  = concat (pushes_of (fun _ record => record)
              [("id", JNum 1);
               ("owner", JObj [("id", JNum 7); ("name", JStr "Ann")]);
               ("tags", JArr [JNum 3; JObj [("id", JNum 4)]])]
            <$> [("owner", {| kind := "belongsTo"; type_modelName := "user" |});
                 ("tags", {| kind := "hasMany"; type_modelName := "tag" |})]).
Proof.
  refine (proj1 (extraction_replaces_embedded_records (fun _ record => record)
                   [("owner", {| kind := "belongsTo"; type_modelName := "user" |});
                    ("tags", {| kind := "hasMany"; type_modelName := "tag" |})]
                   [("id", JNum 1);
                    ("owner", JObj [("id", JNum 7); ("name", JStr "Ann")]);
                    ("tags", JArr [JNum 3; JObj [("id", JNum 4)]])]
                   [("id", JNum 1); ("tags", JArr [JNum 3; JNum 4]);
                    ("owner", JNum 7)]
                   _ _ _)); [compute_done | reflexivity].
Defined.

Lemma extraction_keeps_other_fields_witness :
  obj_get [("id", JNum 1); ("tags", JArr [JNum 3; JNum 4]); ("owner", JNum 7)] "id"
  = JNum 1.
Proof.
  refine (proj1 (extraction_keeps_other_fields (fun _ record => record)
                   [("owner", {| kind := "belongsTo"; type_modelName := "user" |});
                    ("tags", {| kind := "hasMany"; type_modelName := "tag" |})]
                   [("id", JNum 1);
                    ("owner", JObj [("id", JNum 7); ("name", JStr "Ann")]);
                    ("tags", JArr [JNum 3; JObj [("id", JNum 4)]])]
                   [("id", JNum 1); ("tags", JArr [JNum 3; JNum 4]);
                    ("owner", JNum 7)]
                   [("user", JObj [("id", JNum 7); ("name", JStr "Ann")]);
                    ("tag", JObj [("id", JNum 4)])]
                   _) "id" _); [reflexivity | compute_done].
Defined.

Lemma extraction_is_idempotent_witness :
  _extractEmbeddedRecords (fun _ record => record)
    [("owner", {| kind := "belongsTo"; type_modelName := "user" |});
     ("tags", {| kind := "hasMany"; type_modelName := "tag" |})]
    [("id", JNum 1); ("tags", JArr [JNum 3; JNum 4]); ("owner", JNum 7)]
  = Returns ([("id", JNum 1); ("tags", JArr [JNum 3; JNum 4]); ("owner", JNum 7)],
             []).
Proof.
  refine (extraction_is_idempotent (fun _ record => record)
            [("owner", {| kind := "belongsTo"; type_modelName := "user" |});
             ("tags", {| kind := "hasMany"; type_modelName := "tag" |})]
            [("id", JNum 1);
             ("owner", JObj [("id", JNum 7); ("name", JStr "Ann")]);
             ("tags", JArr [JNum 3; JObj [("id", JNum 4)]])]
            _
            [("user", JObj [("id", JNum 7); ("name", JStr "Ann")]);
             ("tag", JObj [("id", JNum 4)])]
            _ _ _); [compute_done | | reflexivity].
  intros key rel Hin.
  repeat (apply elem_of_cons in Hin as [[= -> ->]|Hin]; [reflexivity|]).
  by apply elem_of_nil in Hin.
Defined.

Import SailsSocketService SailsAdapter Logger JsString SailsRest.

(** ** The logger *)

Lemma add_methods (minLevel : JsVal) (levels : list string) (b : bool) (ms : Obj) :
  NoDup levels ->
  let r := foldl (add_method minLevel) (b, ms) levels in
  (forall l, l ∉ levels -> obj_get r.2 l = obj_get ms l) /\
  (forall j l, levels !! j = Some l ->
     obj_get r.2 l
     = JBool (b || existsb (fun x => is_level x minLevel) (take (S j) levels))).
Proof.
  revert b ms. induction levels as [|level levels IH]; intros b ms Hnd r.
  - split; [done|]. intros j l Hl. by rewrite lookup_nil in Hl.
  - apply NoDup_cons in Hnd as [Hfresh Hnd]. subst r. cbn [foldl].
    set (b' := if is_level level minLevel then true else b).
    change (add_method minLevel (b, ms) level)
      with (b', obj_set ms level (JBool b')).
    destruct (IH b' (obj_set ms level (JBool b')) Hnd) as [Hout Hin].
    split.
    + intros l [Hne Hl]%not_elem_of_cons.
      rewrite Hout by done. by rewrite obj_get_set_ne.
    + intros [|j] l Hl; cbn in Hl.
      * simplify_eq. rewrite Hout by done. rewrite obj_get_set_eq.
        cbn [take existsb]. subst b'. f_equal.
        destruct (is_level l minLevel), b; done.
      * rewrite (Hin j l Hl). cbn [take existsb]. subst b'. f_equal.
        destruct (is_level level minLevel), b; done.
Qed.

Lemma methods_for_threshold (levels : list string) (minLevel : JsVal)
    (level : string) :
  NoDup levels ->
  (obj_get (methods_for levels minLevel) level = JBool true <->
   exists m i j, minLevel = JStr m /\ levels !! i = Some m /\
                 levels !! j = Some level /\ (i <= j)%nat) /\
  (level ∈ levels -> (forall m, minLevel = JStr m -> m ∉ levels) ->
   obj_get (methods_for levels minLevel) level = JBool false) /\
  (level ∉ levels -> obj_get (methods_for levels minLevel) level = JUndefined).
Proof.
  intros Hnd.
  destruct (add_methods minLevel levels false [] Hnd) as [Hout Hin].
  fold (methods_for levels minLevel) in Hout, Hin. cbn [orb] in Hin.
  split_and!.
  - split.
    + intros Htrue.
      destruct (decide (level ∈ levels)) as [Hl|Hl];
        [|rewrite Hout in Htrue by done; done].
      apply list_elem_of_lookup in Hl as [j Hj].
      rewrite (Hin j level Hj) in Htrue.
      injection Htrue as Hex. apply existsb_exists in Hex as (m & Hm & His).
      apply list_elem_of_In, list_elem_of_lookup in Hm as [i Hi].
      apply lookup_take_Some in Hi as [Hi Hlt].
      destruct minLevel; try done. cbn in His. apply String.eqb_eq in His. subst.
      exists s, i, j. split_and!; try done. lia.
    + intros (m & i & j & -> & Hi & Hj & Hle).
      rewrite (Hin j level Hj). f_equal.
      apply existsb_exists. exists m. split.
      * apply list_elem_of_In, list_elem_of_lookup. exists i.
        apply lookup_take_Some. split; [done | lia].
      * cbn. apply String.eqb_refl.
  - intros Hl Hno. apply list_elem_of_lookup in Hl as [j Hj].
    rewrite (Hin j level Hj). f_equal.
    destruct (existsb _ _) eqn:Hex; [|done].
    apply existsb_exists in Hex as (m & Hm & His).
    destruct minLevel; try done. cbn in His. apply String.eqb_eq in His. subst.
    exfalso. apply (Hno s eq_refl).
    apply list_elem_of_In, list_elem_of_lookup in Hm as [i Hi].
    apply lookup_take_Some in Hi as [Hi _].
    apply list_elem_of_lookup. by exists i.
  - intros Hl. by rewrite Hout.
Qed.

(** X11: the logger writes at a level exactly when [SAILS_LOG_LEVEL] is one
    of the five levels and the level is that one or a later one of the
    list; with any other [SAILS_LOG_LEVEL] every method is the empty
    function, and a name outside the list has no method. *)
Theorem logger_threshold :
  forall (minLevel : JsVal) (level : string),
    (obj_get (methods minLevel) level = JBool true <->
     exists m i j, minLevel = JStr m /\ LEVELS !! i = Some m /\
                   LEVELS !! j = Some level /\ (i <= j)%nat) /\
    (level ∈ LEVELS -> (forall m, minLevel = JStr m -> m ∉ LEVELS) ->
     obj_get (methods minLevel) level = JBool false) /\
    (level ∉ LEVELS -> obj_get (methods minLevel) level = JUndefined).
Proof.
  intros minLevel level. apply methods_for_threshold. compute_done.
Qed.

(** ** The URL of the CSRF token *)

Lemma starts_with_slashes (s : string) :
  starts_with "//" s = true -> starts_with "/" s = true.
Proof.
  destruct s as [|c s]; [done|]. cbn [starts_with].
  intros [-> _]%andb_true_iff. done.
Qed.

(** X12: the URL the REST adapter builds for the CSRF token is never
    relative: it starts with a slash, or with [http://] or [https://]. *)
Theorem csrfTokenUrl_is_rooted :
  forall a : Adapter,
    starts_with "/" (built_url a) || starts_with "http://" (built_url a)
    || starts_with "https://" (built_url a) = true.
Proof.
  intros a. unfold built_url. cbv zeta.
  destruct (has_origin _) eqn:Ho; cbn [negb].
  - unfold has_origin in Ho.
    apply orb_true_iff in Ho as [[Ho%starts_with_slashes|Ho]%orb_true_iff|Ho];
      rewrite Ho; by rewrite ?orb_true_r.
  - done.
Qed.

Lemma starts_with_slash (s : string) :
  starts_with "/" s = true ->
  String.eqb (charAt0 s) "/" = true /\ s = "/" +:+ strip_slash s.
Proof.
  destruct s as [|c p]; [done|]. cbn [starts_with]. rewrite andb_true_r.
  intros <-%Ascii.eqb_eq. done.
Qed.

(** X13: with a [csrfTokenPath] that starts with a slash the namespace plays
    no part in the URL, and without a host the URL is the path itself. *)
Theorem absolute_token_path_skips_namespace :
  forall a : Adapter,
    starts_with "/" (csrfTokenPath a) = true ->
    (forall ns,
       built_url {| host := host a; namespace := ns;
                    csrfTokenPath := csrfTokenPath a;
                    _csrfTokenUrl := _csrfTokenUrl a |}
       = built_url a) /\
    (truthy (host a) = false ->
     has_origin (strip_slash (csrfTokenPath a)) = false ->
     built_url a = csrfTokenPath a).
Proof.
  intros a [Hc Hp]%starts_with_slash. unfold built_url.
  cbn [csrfTokenPath host namespace]. rewrite Hc.
  split; [done|]. intros Hh Ho. cbn [List.filter]. rewrite Hh. cbn [truthy].
  destruct (String.eqb_spec (strip_slash (csrfTokenPath a)) "") as [E|Hne];
    cbn [negb join foldl joined to_string].
  - rewrite Hp, E. done.
  - rewrite Ho. cbn [negb]. symmetry. exact Hp.
Qed.

Lemma absolute_token_path_skips_namespace_witness :
  built_url {| host := JUndefined; namespace := JStr "api/v1";
               csrfTokenPath := "/csrfToken"; _csrfTokenUrl := JUndefined |}
  = "/csrfToken".
Proof.
  refine (proj2 (absolute_token_path_skips_namespace
                   {| host := JUndefined; namespace := JStr "api/v1";
                      csrfTokenPath := "/csrfToken"; _csrfTokenUrl := JUndefined |}
                   _) _ _); reflexivity.
Defined.

(** X14: the socket adapter asks for the token at a path that starts with a
    slash, the [csrfTokenPath] itself when it has one; without a host, and
    with a path that starts with a slash or without a namespace, the REST
    adapter asks at that same path. *)
Theorem socket_token_path_agrees_with_rest :
  forall a : Adapter,
    starts_with "/" (socket_token_path (csrfTokenPath a)) = true /\
    (starts_with "/" (csrfTokenPath a) = true ->
     socket_token_path (csrfTokenPath a) = csrfTokenPath a) /\
    (truthy (host a) = false ->
     String.eqb (charAt0 (csrfTokenPath a)) "/" = true
     \/ truthy (namespace a) = false ->
     has_origin (strip_slash (csrfTokenPath a)) = false ->
     built_url a = socket_token_path (csrfTokenPath a)).
Proof.
  intros a. split_and!.
  - done.
  - intros [_ Hp]%starts_with_slash. symmetry. exact Hp.
  - intros Hh Hns Ho. unfold built_url, socket_token_path. cbv zeta.
    assert (List.filter truthy
              [host a;
               if String.eqb (charAt0 (csrfTokenPath a)) "/" then JNull
               else namespace a;
               JStr (strip_slash (csrfTokenPath a))]
            = List.filter truthy [JStr (strip_slash (csrfTokenPath a))]) as ->.
    { cbn [List.filter]. rewrite Hh.
      destruct (String.eqb (charAt0 (csrfTokenPath a)) "/"); [done|].
      destruct Hns as [|Hns]; [done|]. by rewrite Hns. }
    cbn [List.filter truthy].
    destruct (String.eqb_spec (strip_slash (csrfTokenPath a)) "") as [->|Hne];
      cbn [negb join foldl joined to_string]; [done|].
    by rewrite Ho.
Qed.

Lemma socket_token_path_agrees_with_rest_witness :
  built_url {| host := JUndefined; namespace := JUndefined;
               csrfTokenPath := "csrfToken"; _csrfTokenUrl := JUndefined |}
  = socket_token_path "csrfToken".
Proof.
  refine (proj2 (proj2 (socket_token_path_agrees_with_rest
                          {| host := JUndefined; namespace := JUndefined;
                             csrfTokenPath := "csrfToken";
                             _csrfTokenUrl := JUndefined |})) _ _ _);
    [reflexivity | by right | reflexivity].
Defined.

Import SailsSocketService SailsAdapter SailsAjax.

(** ** Requests and the CSRF token *)

Lemma drain_empty toLowerCase (w : World) (tokenObject token : JsVal) :
  reactions w = [] ->
  get tokenObject "_csrf" = Some token ->
  truthy token = false ->
  let n := length (promises w) in
  let error := JStr "Got an empty CSRF token from the server!" in
  drain toLowerCase
    (fetch_settles n (Fulfilled tokenObject)
       (set__csrfTokenLoadingPromise (Some (n + 3)%nat)
       (set_reactions (reactions w ++ [OnToken n (n + 1); OnFetchError (n + 1) (n + 2);
                                       OnFetchDone (n + 2) (n + 3)])
          (set_promises (promises w ++ [None; None; None; None])
             (set_fetches (fetches w ++ [n])
                (set_csrfToken JNull w))))))
  = set__csrfTokenLoadingPromise None
      (set_reactions []
         (set_promises (promises w ++ [Some (Fulfilled token); Some (Rejected error);
                                       Some (Fulfilled error); Some (Fulfilled error)])
            (set_actions (actions w ++ [("didLoadCSRF", [JNull; error])])
               (set_fetches (fetches w ++ [n])
                  (set_csrfToken JNull w))))).
Proof.
  intros Hr Hg Ht n error. subst n error. destruct w. wsimpl. subst.
  unfold fetch_settles. wsimpl.
  rewrite bool_decide_eq_true_2 by (apply elem_of_app; right; by left).
  unfold token_of. rewrite Hg.
  rewrite settle_pending by (wsimpl; apply list_lookup_middle; done).
  unfold drain. wsimpl. cbn [app length]. table.
  run_tick. rewrite Ht. cbn [negb]. wsimpl. table. wsimpl.
  run_tick. run_tick. cbn [Nat.iter].
  reflexivity.
Qed.

(** X15: a token request that answers with an empty token counts as a
    failure: the token stays cleared, [didLoadCSRF] is scheduled with the
    message as its error, the promise the callers share is resolved with
    that message, and the next call starts a new request. *)
Theorem empty_token_is_a_failure :
  forall (toLowerCase : string -> string) (w : World) (force tokenObject token : JsVal),
    useCSRF w = true ->
    truthy (csrfToken w) = false ->
    _csrfTokenLoadingPromise w = None ->
    reactions w = [] ->
    get tokenObject "_csrf" = Some token ->
    truthy token = false ->
    let error := JStr "Got an empty CSRF token from the server!" in
    let p := (fetchCSRFToken force w).1 in
    let w2 := drain toLowerCase
                (fetch_settles (length (promises w)) (Fulfilled tokenObject)
                   (fetchCSRFToken force w).2) in
    csrfToken w2 = JNull /\
    _csrfTokenLoadingPromise w2 = None /\
    settled_of p w2 = Some (Fulfilled error) /\
    actions w2 = actions w ++ [("didLoadCSRF", [JNull; error])] /\
    forall force',
      fetches (fetchCSRFToken force' w2).2 = fetches w2 ++ [length (promises w2)].
Proof.
  intros tl w force tokenObject token Hu Ht Hl Hr Hg Hempty error p w2.
  subst p w2. rewrite fetch_start; [|done|by rewrite Ht, orb_true_r|done].
  cbv zeta. cbn [fst snd].
  rewrite (drain_empty tl w tokenObject token) by done.
  split_and!.
  - by destruct w.
  - by destruct w.
  - unfold settled_of. destruct w. wsimpl. table. done.
  - by destruct w.
  - intros force'. rewrite fetch_start.
    + by destruct w.
    + by destruct w.
    + destruct w. wsimpl. apply orb_true_r.
    + by destruct w.
Qed.

Lemma empty_token_is_a_failure_witness :
  csrfToken
    (drain (fun s => s)
       (fetch_settles 0 (Fulfilled (JObj [("_csrf", JStr "")]))
          (fetchCSRFToken JUndefined (init true)).2))
  = JNull.
Proof.
  exact (proj1 (empty_token_is_a_failure (fun s => s) (init true) JUndefined
                  (JObj [("_csrf", JStr "")]) (JStr "")
                  eq_refl eq_refl eq_refl eq_refl eq_refl eq_refl)).
Defined.

(** X16: a forced fetch drops the cached token at once, before the server
    has answered; the callers that come meanwhile share its promise, and
    when the request fails the adapter is left without a token. *)
Theorem forced_fetch_drops_cached_token :
  forall (toLowerCase : string -> string) (w : World) (force error : JsVal),
    useCSRF w = true ->
    truthy force = true ->
    _csrfTokenLoadingPromise w = None ->
    reactions w = [] ->
    let p := (fetchCSRFToken force w).1 in
    let w1 := (fetchCSRFToken force w).2 in
    let w2 := drain toLowerCase
                (fetch_settles (length (promises w)) (Rejected error) w1) in
    csrfToken w1 = JNull /\
    fetches w1 = fetches w ++ [length (promises w)] /\
    (forall force', fetchCSRFToken force' w1 = (p, w1)) /\
    csrfToken w2 = JNull.
Proof.
  intros tl w force error Hu Hf Hl Hr p w1 w2.
  subst p w1 w2. rewrite fetch_start; [|done|by rewrite Hf|done].
  cbv zeta. cbn [fst snd].
  rewrite (drain_failure tl w error) by done.
  split_and!.
  - by destruct w.
  - by destruct w.
  - intros force'. apply fetch_joins.
    + by destruct w.
    + destruct w. wsimpl. apply orb_true_r.
    + by destruct w.
  - by destruct w.
Qed.

Lemma forced_fetch_drops_cached_token_witness :
  csrfToken (fetchCSRFToken (JBool true)
               (set_csrfToken (JStr "abcdefgh012345") (init true))).2
  = JNull.
Proof.
  exact (proj1 (forced_fetch_drops_cached_token (fun s => s)
                  (set_csrfToken (JStr "abcdefgh012345") (init true))
                  (JBool true) JNull eq_refl eq_refl eq_refl eq_refl)).
Defined.

Section AjaxProperties.

Variable toUpperCase : string -> string.
Variable toLowerCase : string -> string.

Abbreviation ajax := (SailsAjax.ajax toUpperCase).

Lemma ajax_other (w : World) (url : JsVal) (method : string)
    (options : option Options) :
  toUpperCase method <> "GET" ->
  ajax url method options w
  = (AwaitsToken (fetchCSRFToken JUndefined (data_object options w).2).1
       url (toUpperCase method) (data_object options w).1,
     (fetchCSRFToken JUndefined (data_object options w).2).2).
Proof.
  intros Hm. unfold SailsAjax.ajax.
  destruct (String.eqb_spec (toUpperCase method) "GET"); [done|]. cbn [negb].
  destruct (data_object options w) as [d w0]. cbn [fst snd].
  by destruct (fetchCSRFToken JUndefined w0).
Qed.

Lemma data_object_frame (options : option Options) (w : World) :
  exists h, (data_object options w).2 = set_heap h w /\
    (given_data options = None -> h !! (data_object options w).1 = Some []) /\
    (forall d, given_data options = Some d ->
       (data_object options w).1 = d /\ h = heap w).
Proof.
  unfold data_object. destruct (given_data options) as [d|]; cbn [fst snd].
  - exists (heap w). split_and!; [by destruct w|done|]. by intros ? [= <-].
  - eexists. split_and!; [done| |done]. intros _. apply lookup_insert_eq.
Qed.

(** X17: a request needs no token when its method reads GET in upper
    case, or when [useCSRF] is off.  The GET goes to [_request] at once with
    the data it was given, and the adapter is left as it was; the other
    waits for a promise that is already resolved, starts no token request,
    and its data, a new empty object when none was given, then goes to
    [_request] untouched. *)
Theorem requests_that_need_no_token :
  forall (w : World) (url : JsVal) (method : string) (options : option Options),
    (toUpperCase method = "GET" ->
     ajax url method options w
     = (Requested {| request_url := url; request_method := "GET";
                     request_data := given_data options |}, w)) /\
    (toUpperCase method <> "GET" ->
     useCSRF w = false ->
     let w1 := (ajax url method options w).2 in
     exists p d,
       (ajax url method options w).1 = AwaitsToken p url (toUpperCase method) d /\
       settled_of p w1 = Some (Fulfilled JNull) /\
       fetches w1 = fetches w /\
       (given_data options = None -> heap w1 !! d = Some []) /\
       (forall d', given_data options = Some d' -> d = d' /\ heap w1 = heap w) /\
       ajax_resume url (toUpperCase method) d w1
       = (Returns {| request_url := url; request_method := toUpperCase method;
                     request_data := Some d |}, w1)).
Proof.
  intros w url method options. split.
  { intros Hm. unfold SailsAjax.ajax. by rewrite Hm. }
  intros Hm Hu w1. subst w1.
  rewrite ajax_other by done. cbn [fst snd].
  destruct (data_object_frame options w) as (h & Hw0 & Hnew & Hold).
  rewrite Hw0. rewrite fetch_skips by (left; by destruct w).
  eexists _, _. split; [reflexivity|]. cbn [new_promise fst snd].
  split_and!.
  - unfold settled_of. destruct w. wsimpl.
    by rewrite lookup_app_r, Nat.sub_diag by lia.
  - by destruct w.
  - intros Hn. specialize (Hnew Hn). by destruct w.
  - intros d' Hd. destruct (Hold d' Hd) as [-> ->]. by destruct w.
  - unfold ajax_resume, checkCSRF. destruct w. wsimpl. by subst.
Qed.

(** X18: with [useCSRF] on and no token, a request that is not a GET waits
    for the token; when the token request fails, the promise it waits for
    is resolved all the same, [checkCSRF] then throws and [_request] is
    never called. *)
Theorem token_failure_blocks_request :
  forall (w : World) (url : JsVal) (method : string) (options : option Options)
         (error : JsVal),
    useCSRF w = true ->
    truthy (csrfToken w) = false ->
    _csrfTokenLoadingPromise w = None ->
    reactions w = [] ->
    toUpperCase method <> "GET" ->
    let w1 := (ajax url method options w).2 in
    let w2 := drain toLowerCase
                (fetch_settles (length (promises w)) (Rejected error) w1) in
    exists p d,
      (ajax url method options w).1 = AwaitsToken p url (toUpperCase method) d /\
      fetches w1 = fetches w ++ [length (promises w)] /\
      settled_of p w1 = None /\
      settled_of p w2 = Some (Fulfilled error) /\
      ajax_resume url (toUpperCase method) d w2
      = (Throws (ErrorMsg "CSRF Token not fetched yet."), w2).
Proof.
  intros w url method options error Hu Ht Hl Hr Hm w1 w2. subst w1 w2.
  rewrite ajax_other by done. cbn [fst snd].
  destruct (data_object_frame options w) as (h & Hw0 & _).
  rewrite Hw0.
  rewrite fetch_start;
    [|by destruct w|destruct w; wsimpl; subst; by rewrite Ht|by destruct w].
  cbv zeta. cbn [fst snd].
  replace (length (promises w)) with (length (promises (set_heap h w)))
    by (by destruct w).
  rewrite (drain_failure toLowerCase (set_heap h w) error) by (by destruct w).
  eexists _, _. split; [reflexivity|]. split_and!.
  - by destruct w.
  - unfold settled_of. destruct w. wsimpl. table. done.
  - unfold settled_of. destruct w. wsimpl. table. done.
  - unfold ajax_resume, checkCSRF. destruct w. wsimpl. by subst.
Qed.

(** X19: with [useCSRF] on, once the token has been fetched [checkCSRF]
    writes it into the data of the waiting request as [_csrf], leaving the
    other properties as they are, and the request goes to [_request]. *)
Theorem token_success_signs_request :
  forall (w : World) (url : JsVal) (method : string) (options : option Options)
         (tokenObject token : JsVal),
    useCSRF w = true ->
    truthy (csrfToken w) = false ->
    _csrfTokenLoadingPromise w = None ->
    reactions w = [] ->
    toUpperCase method <> "GET" ->
    get tokenObject "_csrf" = Some token ->
    truthy token = true ->
    let w1 := (ajax url method options w).2 in
    let w2 := drain toLowerCase
                (fetch_settles (length (promises w)) (Fulfilled tokenObject) w1) in
    exists p d,
      (ajax url method options w).1 = AwaitsToken p url (toUpperCase method) d /\
      settled_of p w2 = Some (Fulfilled token) /\
      forall o, heap w1 !! d = Some o ->
        exists w3,
          ajax_resume url (toUpperCase method) d w2
          = (Returns {| request_url := url; request_method := toUpperCase method;
                        request_data := Some d |}, w3) /\
          heap w3 !! d = Some (obj_set o "_csrf" token) /\
          obj_get (obj_set o "_csrf" token) "_csrf" = token /\
          (forall k, k <> "_csrf" ->
             obj_get (obj_set o "_csrf" token) k = obj_get o k).
Proof.
  intros w url method options tokenObject token Hu Ht Hl Hr Hm Hg Htok w1 w2.
  subst w1 w2.
  rewrite ajax_other by done. cbn [fst snd].
  destruct (data_object_frame options w) as (h & Hw0 & _).
  rewrite Hw0.
  rewrite fetch_start;
    [|by destruct w|destruct w; wsimpl; subst; by rewrite Ht|by destruct w].
  cbv zeta. cbn [fst snd].
  replace (length (promises w)) with (length (promises (set_heap h w)))
    by (by destruct w).
  rewrite (drain_success toLowerCase (set_heap h w) tokenObject token)
    by (try done; by destruct w).
  eexists _, _. split; [reflexivity|]. split.
  - unfold settled_of. destruct w. wsimpl. table. done.
  - intros o Ho. unfold ajax_resume, checkCSRF.
    destruct w. wsimpl. subst. rewrite Htok. cbn [negb].
    wsimpl. rewrite Ho. eexists. split; [reflexivity|]. wsimpl.
    split_and!.
    + apply lookup_insert_eq.
    + apply obj_get_set_eq.
    + intros k Hk. apply obj_get_set_ne. congruence.
Qed.

End AjaxProperties.

Lemma requests_that_need_no_token_witness :
  SailsAjax.ajax (fun s => s) (JStr "/users") "GET" None (init true)
  = (Requested {| request_url := JStr "/users"; request_method := "GET";
                  request_data := None |}, init true).
Proof.
  exact (proj1 (requests_that_need_no_token (fun s => s) (init true)
                  (JStr "/users") "GET" None) eq_refl).
Defined.

Lemma token_failure_blocks_request_witness :
  exists p d,
    (SailsAjax.ajax (fun s => s) (JStr "/users") "POST" None (init true)).1
    = AwaitsToken p (JStr "/users") "POST" d.
Proof.
  destruct (token_failure_blocks_request (fun s => s) (fun s => s) (init true)
              (JStr "/users") "POST" None JNull
              eq_refl eq_refl eq_refl eq_refl ltac:(discriminate))
    as (p & d & H & _).
  by exists p, d.
Defined.

Lemma token_success_signs_request_witness :
  exists p d,
    (SailsAjax.ajax (fun s => s) (JStr "/users") "PUT" None (init true)).1
    = AwaitsToken p (JStr "/users") "PUT" d.
Proof.
  destruct (token_success_signs_request (fun s => s) (fun s => s) (init true)
              (JStr "/users") "PUT" None
              (JObj [("_csrf", JStr "abcdefgh012345")]) (JStr "abcdefgh012345")
              eq_refl eq_refl eq_refl eq_refl ltac:(discriminate) eq_refl eq_refl)
    as (p & d & H & _).
  by exists p, d.
Defined.


Import SailsSocketService SailsAdapter SailsStore.

(** ** What ajaxError makes of a response *)

(** X20: [ajaxError] calls the [ajaxError] of the parent class first: where
    the parent class has none, as the [RESTAdapter] of
    [@ember-data/adapter/rest], it throws a TypeError whatever the response
    is.  It throws a TypeError of its own when the payload is [null] or
    [undefined], or has [errors] without [invalidAttributes].  Where the
    parent class returns an error, a payload with [errors] and well-formed
    [invalidAttributes] gives an [InvalidError] built from them, any other
    truthy payload a generic [Error] that holds it, and the error of the
    parent class comes back exactly for the payloads [false], [0] and the
    empty string. *)
Theorem ajaxError_edge_payloads :
  forall (JSON_parse : string -> option JsVal) (parent : option JsVal)
         (responseText : JsVal),
    let data := default responseText (JSON_parse (to_string responseText)) in
    (parent = None ->
     ajaxError JSON_parse parent responseText = Throws TypeError) /\
    (data = JUndefined \/ data = JNull ->
     ajaxError JSON_parse parent responseText = Throws TypeError) /\
    (truthy (prop data "errors") = true ->
     prop data "invalidAttributes" = JUndefined
     \/ prop data "invalidAttributes" = JNull ->
     ajaxError JSON_parse parent responseText = Throws TypeError) /\
    (forall error, parent = Some error ->
       (truthy (prop data "errors") = true ->
        forall ia, get data "invalidAttributes" = Some (JObj ia) ->
          well_shaped ia ->
          ajaxError JSON_parse parent responseText
          = Returns (InvalidError (attribute_messages <$> ia))) /\
       (truthy (prop data "errors") = false -> truthy data = true ->
        ajaxError JSON_parse parent responseText = Returns (GenericError data)) /\
       (forall e,
          ajaxError JSON_parse parent responseText = Returns (ParentError e) <->
          e = error /\ (data = JBool false \/ data = JNum 0 \/ data = JStr ""))).
Proof.
  intros parse parent responseText data. unfold ajaxError.
  assert (match parse (to_string responseText) with
          | Some d => d
          | None => responseText
          end = data) as ->.
  { subst data. by destruct (parse _). }
  clearbody data. split_and!.
  - by intros ->.
  - destruct parent; [|done]. by intros [-> | ->].
  - destruct parent; [|done].
    unfold prop. destruct (get data "errors") as [errors|] eqn:He; [|done].
    cbn [default from_option Datatypes.id]. intros -> Hia.
    unfold formatError.
    destruct (get data "invalidAttributes") as [ia|]; [|done].
    cbn [default from_option Datatypes.id] in Hia.
    by destruct Hia as [-> | ->].
  - intros error ->. split_and!.
    + unfold prop. destruct (get data "errors") as [errors|] eqn:He; [|done].
      cbn [default from_option Datatypes.id]. intros -> ia Hia Hws.
      by rewrite (formatError_well_shaped _ ia).
    + unfold prop. destruct (get data "errors") as [errors|] eqn:He.
      * cbn [default from_option Datatypes.id]. by intros -> ->.
      * by destruct data.
    + intros e. split.
      * destruct data as [| |[]|n|s| |o]; cbn [get truthy]; try done.
        -- intros [= <-]. split; [done | by left].
        -- destruct (Z.eqb_spec n 0) as [->|]; [|done].
           intros [= <-]. split; [done | right; by left].
        -- destruct (String.eqb_spec s "") as [->|]; [|done].
           intros [= <-]. split; [done | by do 2 right].
        -- destruct (truthy (obj_get o "errors")); [|done].
           by destruct (formatError (JObj o)).
      * by intros [-> [-> | [-> | ->]]].
Qed.

Lemma ajaxError_edge_payloads_witness :
  ajaxError (fun _ => Some (JObj [("errors", JStr "E_UNKNOWN")])) None (JStr "{...}")
  = Throws TypeError.
Proof.
  exact (proj1 (ajaxError_edge_payloads
                  (fun _ => Some (JObj [("errors", JStr "E_UNKNOWN")])) None
                  (JStr "{...}")) eq_refl).
Defined.

(** ** Listening for the messages of a model *)

Lemma listenFor_again (event : string) (s : State) :
  listenFor event (Some true) (listenFor event (Some true) s).2
  = (false, (listenFor event (Some true) s).2).
Proof.
  unfold listenFor. cbn [default from_option Datatypes.id].
  case_bool_decide as Hin.
  { destruct (_listeners s !! event) as [b|] eqn:E; cbn [snd]; by rewrite E. }
  destruct (_listeners s !! event) as [b|] eqn:E; cbn [snd].
  - by rewrite E.
  - destruct (isConnected s) eqn:Hc; cbn [snd].
    + assert (_listeners (with_raw (addEventListener (LMessage event))
                 (set__listeners (<[event:=true]> (_listeners s)) s)) !! event
              = Some true) as ->; [|done].
      unfold with_raw, raw_of. destruct s as [? ? ? ? ? [[[]]|]]; cbn;
        apply lookup_insert_eq.
    + assert (_listeners (set__listeners (<[event:=false]> (_listeners s)) s) !! event
              = Some false) as ->; [|done].
      destruct s. cbn. apply lookup_insert_eq.
Qed.

Lemma listenFor_registers (event : string) (s : State) :
  event ∉ inherited ->
  _listeners s !! event = None ->
  (listenFor event (Some true) s).1 = true /\
  is_Some (_listeners (listenFor event (Some true) s).2 !! event).
Proof.
  intros Hout Hnew. unfold listenFor. cbn [default from_option Datatypes.id].
  rewrite Hnew, bool_decide_eq_false_2 by done.
  destruct (isConnected s); cbn [fst snd]; (split; [done|]).
  - unfold with_raw, raw_of. destruct s as [? ? ? ? ? [[[]]|]]; cbn;
      rewrite lookup_insert_eq; by eexists.
  - destruct s. cbn. rewrite lookup_insert_eq. by eexists.
Qed.

Section Listening.

Variable camelize : string -> string.
Variable toLowerCase : string -> string.
Variable modelFor : string -> string.
Variable usesSocket : string -> bool.

Abbreviation listenToSocket := (_listenToSocket camelize toLowerCase modelFor).
Abbreviation normalizeResponse :=
  (SailsStore.normalizeResponse camelize toLowerCase modelFor usesSocket).

Lemma listen_twice (w : World) (model : string) :
  listenToSocket model (listenToSocket model w).2
  = (Returns tt, (listenToSocket model w).2).
Proof.
  pose proof (listenFor_again (toLowerCase (camelize model)) (sailsSocket w))
    as Hagain.
  unfold _listenToSocket at 2 3.
  destruct (listenFor (toLowerCase (camelize model)) (Some true) (sailsSocket w))
    as [changed socket] eqn:Hfirst.
  cbn [snd] in Hagain.
  assert (forall W, sailsSocket W = socket ->
            listenToSocket model W = (Returns tt, W)) as Hsame.
  { intros W HW. unfold _listenToSocket. rewrite HW, Hagain.
    destruct W. wsimpl. by subst. }
  destruct changed; cbn [notice snd]; apply Hsame; by destruct w.
Qed.

Lemma listen_world (w : World) (model : string) :
  (listenToSocket model w).2
  = set_sailsSocket
      (listenFor (toLowerCase (camelize model)) (Some true) (sailsSocket w)).2 w.
Proof.
  unfold _listenToSocket.
  by destruct (listenFor _ _ _) as [[] socket]; cbn [notice snd].
Qed.

Lemma listen_first (w : World) (model : string) :
  toLowerCase (camelize model) ∉ inherited ->
  _listeners (sailsSocket w) !! toLowerCase (camelize model) = None ->
  (listenToSocket model w).1 = Throws TypeError /\
  is_Some (_listeners (sailsSocket (listenToSocket model w).2)
           !! toLowerCase (camelize model)).
Proof.
  intros Hout Hnew.
  destruct (listenFor_registers _ _ Hout Hnew) as [Hchanged Hreg].
  unfold _listenToSocket.
  destruct (listenFor (toLowerCase (camelize model)) (Some true) (sailsSocket w))
    as [changed socket].
  cbn [fst snd] in *. subst changed. cbn [notice fst snd].
  split; [done | by destruct w].
Qed.

(** X21: [_listenToSocket] attaches no handler: the [notice] it calls
    before its [socket.on] calls is defined nowhere.  The first call for a
    model whose event the socket service does not know registers the event
    with the service and throws a TypeError; where the service knows the
    event already the call returns at once, and so does every later call
    for the model, changing nothing. *)
Theorem listenToSocket_attaches_nothing :
  forall (w : World) (model : string),
    let ev := toLowerCase (camelize model) in
    handlers (listenToSocket model w).2 = handlers w /\
    (ev ∉ inherited ->
     _listeners (sailsSocket w) !! ev = None ->
     (listenToSocket model w).1 = Throws TypeError /\
     is_Some (_listeners (sailsSocket (listenToSocket model w).2) !! ev)) /\
    (is_Some (_listeners (sailsSocket w) !! ev) ->
     listenToSocket model w = (Returns tt, w)) /\
    listenToSocket model (listenToSocket model w).2
    = (Returns tt, (listenToSocket model w).2).
Proof.
  intros w model ev. subst ev. split_and!.
  - unfold _listenToSocket. destruct (listenFor _ _ _) as [[] socket];
      cbn [notice snd]; by destruct w.
  - apply listen_first.
  - apply listen_known.
  - apply listen_twice.
Qed.

(** X22: the serializer looks at the adapter of a model once.  The first
    [normalizeResponse] for a model writes into its cache whether the
    adapter is the socket adapter and calls [_listenToSocket]: it throws a
    TypeError when the adapter is another one, which has no such method,
    and also with the socket adapter when the socket service does not know
    the event of the model yet.  Every later one for that model goes
    straight on, touching neither the adapter nor the cache. *)
Theorem normalizeResponse_asks_once :
  forall (modelName : string) (st : option (gmap string bool) * World),
    default ∅ st.1 !! modelName = None ->
    let ev := toLowerCase (camelize modelName) in
    let first := normalizeResponse modelName st in
    first.2.1 = Some (<[modelName := usesSocket modelName]> (default ∅ st.1)) /\
    (usesSocket modelName = false ->
     first.1 = Throws TypeError /\ first.2.2 = st.2) /\
    (usesSocket modelName = true ->
     (first.1, first.2.2) = listenToSocket modelName st.2 /\
     (ev ∉ inherited -> _listeners (sailsSocket st.2) !! ev = None ->
      first.1 = Throws TypeError) /\
     (is_Some (_listeners (sailsSocket st.2) !! ev) ->
      first.1 = Returns tt /\ first.2.2 = st.2)) /\
    normalizeResponse modelName first.2 = (Returns tt, first.2).
Proof.
  intros modelName [cache w] Hnew ev first. subst first ev.
  unfold SailsStore.normalizeResponse. cbn [fst snd] in *. rewrite Hnew.
  destruct (usesSocket modelName) eqn:Hu.
  - pose proof (listen_first w modelName) as Hfirst.
    pose proof (listen_known camelize toLowerCase modelFor w modelName) as Hknown.
    destruct (listenToSocket modelName w) as [[[]|t] w'] eqn:Hl;
      cbn [fst snd default from_option Datatypes.id] in *;
      (split_and!; [done|done| |by rewrite lookup_insert_eq]);
      intros _; (split_and!; [done| |]).
    + intros Hout Hn. by destruct (Hfirst Hout Hn).
    + intros Hs. by injection (Hknown Hs) as ->.
    + intros Hout Hn. by destruct (Hfirst Hout Hn).
    + intros Hs. by specialize (Hknown Hs).
  - cbn [fst snd default from_option Datatypes.id].
    split_and!; [done|done|done|by rewrite lookup_insert_eq].
Qed.

End Listening.

Lemma normalizeResponse_asks_once_witness :
  (SailsStore.normalizeResponse (fun s => s) (fun s => s) (fun s => s)
     (fun _ => true) "user" (None, init false)).1
  = Throws TypeError.
Proof.
  refine (proj1 (proj2 (proj1 (proj2 (proj2
            (normalizeResponse_asks_once (fun s => s) (fun s => s)
               (fun s => s) (fun _ => true) "user"
               (None, init false) eq_refl))) eq_refl)) _ _);
    [compute_done | reflexivity].
Defined.
Import SailsSocketService SailsAdapter SailsSerializer SailsStore.

(** ** Batches of subscriptions *)

Lemma NoDup_keys_set (o : Obj) (k : string) (v : JsVal) :
  NoDup (keys o) -> NoDup (keys (obj_set o k v)).
Proof.
  induction o as [|[k0 v0] o IH]; cbn [obj_set keys map fst].
  - intros _. apply NoDup_singleton.
  - fold (keys o). intros [Hfresh Hnd]%NoDup_cons.
    destruct (String.eqb_spec k0 k) as [->|Hk]; cbn [keys map fst].
    + fold (keys o). by apply NoDup_cons.
    + fold (keys (obj_set o k v)). apply NoDup_cons. split; [|by apply IH].
      rewrite keys_set. naive_solver.
Qed.

Lemma Forall_obj_set (P : string * JsVal -> Prop) (o : Obj) (k : string) (v : JsVal) :
  Forall P o -> P (k, v) -> Forall P (obj_set o k v).
Proof.
  intros Ho Hv. induction Ho as [|[k0 v0] o H0 Ho IH]; cbn [obj_set].
  - by constructor.
  - destruct (String.eqb_spec k0 k) as [->|Hk]; by constructor.
Qed.

Lemma obj_get_elem (o : Obj) (k : string) :
  obj_get o k <> JUndefined -> (k, obj_get o k) ∈ o.
Proof.
  induction o as [|[k0 v0] o IH]; cbn [obj_get]; [done|].
  destruct (String.eqb_spec k0 k) as [->|Hk]; intros H.
  - by left.
  - right. by apply IH.
Qed.

Section Batches.

Variable camelize : string -> string.
Variable toLowerCase : string -> string.
Variable modelFor : string -> string.
Variable shouldSubscribe : string -> RecordId -> bool.

Abbreviation accepted := (SailsStore.accepted shouldSubscribe).
Abbreviation scheduled := (SailsStore.scheduled camelize shouldSubscribe).
Abbreviation asks_for := (SailsStore.asks_for camelize shouldSubscribe).
Abbreviation schedule_all := (SailsStore.schedule_all camelize shouldSubscribe).
Abbreviation plain := (SailsStore.plain camelize).
Abbreviation listened := (SailsStore.listened camelize toLowerCase).

Lemma sub_object_keys (subs : Obj) (key s : string) :
  s ∈ keys (sub_object subs key) <-> holds subs key s.
Proof.
  unfold sub_object, holds. destruct (obj_get subs key) eqn:E.
  all: try (split; [by intros ?%elem_of_nil | by intros (? & ? & ?)]).
  split; [by eexists | by intros (? & [= <-] & ?)].
Qed.

Lemma scheduled_holds (subs : Obj) (call : string * RecordId) (key s : string) :
  holds (scheduled subs call) key s <-> holds subs key s \/ asks_for key s call.
Proof.
  unfold SailsStore.scheduled, SailsStore.asks_for.
  destruct (SailsStore.accepted _ call); [|naive_solver].
  destruct (decide (camelize call.1 = key)) as [<-|Hne].
  - unfold holds at 1. rewrite obj_get_set_eq. split.
    + intros (ids & [= <-] & [Hin|Hin]%keys_set).
      * left. by apply sub_object_keys.
      * by right.
    + intros H. eexists. split; [done|]. apply keys_set.
      destruct H as [H|(_ & _ & H)]; [left; by apply sub_object_keys | by right].
  - unfold holds. rewrite obj_get_set_ne by done. naive_solver.
Qed.

Lemma scheduled_well_formed (subs : Obj) (call : string * RecordId) :
  well_formed subs -> well_formed (scheduled subs call).
Proof.
  intros [Hnd Hall]. unfold SailsStore.scheduled.
  destruct (SailsStore.accepted _ call); [|done]. split.
  - by apply NoDup_keys_set.
  - apply Forall_obj_set; [done|]. eexists. split; [done|].
    apply NoDup_keys_set. unfold sub_object.
    destruct (obj_get subs (camelize call.1)) eqn:E; try apply NoDup_nil_2.
    rewrite Forall_forall in Hall.
    destruct (Hall (camelize call.1, JObj fields)) as (ids & [= <-] & Hids); [|done].
    rewrite <- E. apply obj_get_elem. by rewrite E.
Qed.

Lemma folded_holds (calls : list (string * RecordId)) (subs : Obj) (key s : string) :
  holds (foldl scheduled subs calls) key s
  <-> holds subs key s \/ exists call, call ∈ calls /\ asks_for key s call.
Proof.
  revert subs. induction calls as [|call calls IH]; intros subs; cbn [foldl].
  - split; [by left | intros [?|(? & ?%elem_of_nil & _)]; done].
  - rewrite IH, scheduled_holds. split.
    + intros [[H|H]|(c & Hin & H)]; [by left | right..].
      * exists call. split; [by left | done].
      * exists c. split; [by right | done].
    + intros [H|(c & [->|Hin]%elem_of_cons & H)].
      * by do 2 left.
      * left. by right.
      * right. by exists c.
Qed.

Lemma folded_well_formed (calls : list (string * RecordId)) (subs : Obj) :
  well_formed subs -> well_formed (foldl scheduled subs calls).
Proof.
  revert subs. induction calls as [|call calls IH]; intros subs H; [done|].
  cbn [foldl]. by apply IH, scheduled_well_formed.
Qed.

Lemma sub_object_zero (subs : Obj) (call : string * RecordId) :
  Forall (fun kv => forall ids, kv.2 = JObj ids -> Forall (fun e => e.2 = JNum 0) ids)
         subs ->
  id_to_string call.2 ∉ inherited ->
  truthy_at (sub_object subs (camelize call.1)) (id_to_string call.2) = false.
Proof.
  intros Hall Hid. rewrite truthy_at_plain by done. unfold sub_object.
  destruct (obj_get subs (camelize call.1)) eqn:E; try done.
  rewrite Forall_forall in Hall.
  assert (Forall (fun e => e.2 = JNum 0) fields) as Hz.
  { apply (Hall (camelize call.1, JObj fields)); [|done].
    rewrite <- E. apply obj_get_elem. by rewrite E. }
  clear E. induction Hz as [|[k v] ids Hv _ IH]; [done|]. cbn [obj_get].
  cbn in Hv. subst v. by destruct (String.eqb k (id_to_string call.2)).
Qed.

(** The values of the scheduled subscriptions are all [0]. *)
Abbreviation zeroes :=
  (Forall (fun kv : string * JsVal =>
             forall ids, kv.2 = JObj ids -> Forall (fun e => e.2 = JNum 0) ids)).

Lemma scheduled_zeroes (subs : Obj) (call : string * RecordId) :
  zeroes subs -> zeroes (scheduled subs call).
Proof.
  intros Hall. unfold SailsStore.scheduled.
  destruct (SailsStore.accepted _ call); [|done].
  apply Forall_obj_set; [done|]. cbn [snd]. intros ids [= <-].
  apply Forall_obj_set; [|done]. unfold sub_object.
  destruct (obj_get subs (camelize call.1)) eqn:E; try by constructor.
  rewrite Forall_forall in Hall.
  apply (Hall (camelize call.1, JObj fields)); [|done].
  rewrite <- E. apply obj_get_elem. by rewrite E.
Qed.

Lemma schedule_step (w : World) (call : string * RecordId) :
  zeroes (default [] (_scheduledSubscriptions w)) ->
  id_to_string call.2 ∉ inherited ->
  _scheduleSubscribe camelize shouldSubscribe call.1 call.2 w
  = if accepted call
    then set_debounced (Some 50%nat)
           (set__scheduledSubscriptions
              (Some (scheduled (default [] (_scheduledSubscriptions w)) call)) w)
    else w.
Proof.
  intros Hz Hid.
  unfold _scheduleSubscribe, SailsStore.scheduled, SailsStore.accepted.
  destruct (truthy (id_val call.2) && shouldSubscribe call.1 call.2); [|done].
  by rewrite sub_object_zero.
Qed.

Lemma folded_rejected (calls : list (string * RecordId)) (subs : Obj) :
  existsb accepted calls = false -> foldl scheduled subs calls = subs.
Proof.
  induction calls as [|call calls IH]; [done|]. cbn [existsb foldl].
  intros [Ha Hrest]%orb_false_iff. unfold SailsStore.scheduled at 2.
  rewrite Ha. by apply IH.
Qed.

Lemma schedule_all_spec (calls : list (string * RecordId)) (w : World) :
  zeroes (default [] (_scheduledSubscriptions w)) ->
  Forall plain calls ->
  schedule_all calls w
  = if existsb accepted calls
    then set_debounced (Some 50%nat)
           (set__scheduledSubscriptions
              (Some (foldl scheduled (default [] (_scheduledSubscriptions w)) calls))
              w)
    else w.
Proof.
  revert w. induction calls as [|call calls IH]; intros w Hz Hplain; [done|].
  apply Forall_cons in Hplain as [(_ & Hid & _) Hplain].
  unfold SailsStore.schedule_all. cbn [foldl existsb].
  fold (schedule_all calls (_scheduleSubscribe camelize shouldSubscribe call.1 call.2 w)).
  rewrite schedule_step by done.
  destruct (SailsStore.accepted shouldSubscribe call) eqn:Ha; cbn [orb].
  - rewrite IH; [| |done].
    + replace (_scheduledSubscriptions
                 (set_debounced (Some 50%nat)
                    (set__scheduledSubscriptions
                       (Some (scheduled (default [] (_scheduledSubscriptions w)) call))
                       w)))
        with (Some (scheduled (default [] (_scheduledSubscriptions w)) call))
        by (by destruct w).
      cbn [default from_option Datatypes.id].
      destruct (existsb _ calls) eqn:Hrest; [by destruct w|].
      rewrite folded_rejected by done. by destruct w.
    + replace (_scheduledSubscriptions
                 (set_debounced (Some 50%nat)
                    (set__scheduledSubscriptions
                       (Some (scheduled (default [] (_scheduledSubscriptions w)) call))
                       w)))
        with (Some (scheduled (default [] (_scheduledSubscriptions w)) call))
        by (by destruct w).
      by apply scheduled_zeroes.
  - rewrite IH by done. unfold SailsStore.scheduled. by rewrite Ha.
Qed.

Lemma scheduled_keys (subs : Obj) (call : string * RecordId) (k : string) :
  k ∈ keys (scheduled subs call) -> k ∈ keys subs \/ camelize call.1 = k.
Proof.
  unfold SailsStore.scheduled. destruct (SailsStore.accepted _ call); [|by left].
  intros [?|?]%keys_set; [by left | by right].
Qed.

Lemma folded_keys (calls : list (string * RecordId)) (subs : Obj) (k : string) :
  k ∈ keys (foldl scheduled subs calls) ->
  k ∈ keys subs \/ exists call, call ∈ calls /\ camelize call.1 = k.
Proof.
  revert subs. induction calls as [|call calls IH]; intros subs; cbn [foldl].
  - by left.
  - intros [[?|?]%scheduled_keys|(c & Hin & Hc)]%IH.
    + by left.
    + right. exists call. split; [by left | done].
    + right. exists c. split; [by right | done].
Qed.

(** The loop of [_subscribeScheduled] over models the socket service
    listens for already. *)
Lemma listen_all (data rest pl : Obj) (w : World) :
  NoDup (keys data) ->
  rest ⊆ data ->
  NoDup (keys rest) ->
  (forall k, k ∈ keys rest -> k ∉ keys pl) ->
  (forall k, k ∈ keys rest ->
     is_Some (_listeners (sailsSocket w) !! toLowerCase (camelize k))) ->
  foldl (collect camelize toLowerCase modelFor data) (Returns pl, w) (keys rest)
  = (Returns (pl ++ payload_of rest), w).
Proof.
  intros Hnd. revert pl.
  induction rest as [|[k v] rest IH]; intros pl Hsub Hndr Hfresh Hknown.
  - cbn. by rewrite app_nil_r.
  - cbn [keys map fst foldl collect]. fold (keys rest).
    apply NoDup_cons in Hndr as [Hk Hndr].
    rewrite (obj_get_elem_of data k v); [|done|apply Hsub; left].
    rewrite obj_set_fresh by (apply Hfresh; left).
    rewrite listen_known by (apply Hknown; left).
    rewrite IH.
    + unfold payload_of. rewrite fmap_cons, <- app_assoc. done.
    + intros x Hx. apply Hsub. by right.
    + done.
    + intros k' Hk'. unfold keys. rewrite map_app. cbn [map fst].
      intros [Hin|Hin%list_elem_of_singleton]%elem_of_app.
      * apply (Hfresh k'); [by right | done].
      * subst k'. by apply Hk.
    + intros k' Hk'. apply Hknown. by right.
Qed.

Lemma flush_batch (w : World) (data : Obj) (m : string) :
  _scheduledSubscriptions w = Some data ->
  NoDup (keys data) ->
  (forall k, k ∈ keys data ->
     is_Some (_listeners (sailsSocket w) !! toLowerCase (camelize k))) ->
  reactions w = [] ->
  subscribeMethod w = JStr m ->
  truthy (subscribeMethod w) = true ->
  truthy (subscribeEndpoint w) = true ->
  useCSRF w = false ->
  drain toLowerCase
    (_subscribeScheduled camelize toLowerCase modelFor (set_debounced None w)).2
  = set_outbox (outbox w ++ [{| call_method := toLowerCase m;
                                call_url := subscribeEndpoint w;
                                call_data := payload_of data |}])
      (set_reactions []
         (set_promises (promises w ++ [Some (Fulfilled JNull)])
            (set_heap (<[fresh (dom (heap w)) := payload_of data]> (heap w))
               (set__scheduledSubscriptions None
                  (set_debounced None w))))).
Proof.
  intros Hs Hnd Hknown Hr Hm Htm Hte Hu.
  unfold _subscribeScheduled.
  replace (_scheduledSubscriptions (set_debounced None w))
    with (Some data) by (by destruct w).
  cbv zeta.
  rewrite (listen_all data data []); [|done..| |by destruct w].
  2: { intros k _. apply not_elem_of_nil. }
  cbn [app].
  replace (truthy (subscribeEndpoint (set_debounced None w))) with true
    by (by destruct w).
  replace (truthy (subscribeMethod (set_debounced None w))) with true
    by (by destruct w).
  cbn [andb]. rewrite fetch_skips by (destruct w; wsimpl; tauto).
  unfold new_promise. cbn [fst snd].
  unfold drain. destruct w. wsimpl. subst. cbn [app length].
  rewrite Nat.iter_succ_r.
  erewrite tick_first;
    [ | reflexivity
      | unfold settled_of; wsimpl; cbn [source];
        rewrite list_lookup_middle by done; reflexivity ].
  cbn [react Nat.iter]. unfold checkCSRF, socket_request. wsimpl.
  cbn [negb]. wsimpl. rewrite lookup_insert_eq.
  cbn [default from_option Datatypes.id]. reflexivity.
Qed.

Lemma obj_get_payload (data : Obj) (key : string) :
  obj_get (payload_of data) key
  = if bool_decide (key ∈ keys data) then id_list (obj_get data key)
    else JUndefined.
Proof.
  induction data as [|[k v] data IH]; [done|].
  unfold payload_of. rewrite fmap_cons. cbn [obj_get fst snd keys map].
  fold (keys data) (payload_of data).
  destruct (String.eqb_spec k key) as [->|Hk].
  - by rewrite bool_decide_eq_true_2 by left.
  - rewrite IH. destruct (decide (key ∈ keys data)).
    + rewrite (bool_decide_eq_true_2 (key ∈ keys data)) by done.
      by rewrite (bool_decide_eq_true_2 (key ∈ k :: keys data)) by (by right).
    + rewrite (bool_decide_eq_false_2 (key ∈ keys data)) by done.
      rewrite (bool_decide_eq_false_2 (key ∈ k :: keys data)); [done|].
      intros [?|?]%elem_of_cons; congruence.
Qed.

Lemma elem_of_keys_get (o : Obj) (k : string) :
  k ∈ keys o -> (k, obj_get o k) ∈ o.
Proof.
  induction o as [|[k0 v0] o IH]; cbn [obj_get keys map fst].
  - by intros ?%elem_of_nil.
  - fold (keys o). destruct (String.eqb_spec k0 k) as [->|Hk]; [by left|].
    intros [?|Hin]%elem_of_cons; [congruence|]. right. by apply IH.
Qed.

Lemma payload_lists (data : Obj) (key s : string) :
  well_formed data ->
  lists (payload_of data) key s <-> holds data key s.
Proof.
  intros [Hnd Hall]. unfold lists, holds. rewrite obj_get_payload.
  destruct (decide (key ∈ keys data)) as [Hin|Hout].
  - rewrite bool_decide_eq_true_2 by done.
    apply elem_of_keys_get in Hin. rewrite Forall_forall in Hall.
    destruct (Hall _ Hin) as (ids & Hv & _). cbn [snd] in Hv. rewrite Hv.
    unfold id_list. cbn [own_entries default from_option Datatypes.id]. split.
    + intros (l & [= <-] & Hs). exists ids. split; [done|].
      apply list_elem_of_fmap in Hs as (s' & [= <-] & Hs). done.
    + intros (ids' & [= <-] & Hs). eexists. split; [done|].
      apply list_elem_of_fmap. by exists s.
  - rewrite bool_decide_eq_false_2 by done. rewrite obj_get_absent by done.
    split; [by intros (? & ? & _) | by intros (? & ? & _)].
Qed.

Lemma payload_distinct (data : Obj) (key : string) (l : list JsVal) :
  well_formed data -> obj_get (payload_of data) key = JArr l -> NoDup l.
Proof.
  intros [Hnd Hall]. rewrite obj_get_payload.
  destruct (decide (key ∈ keys data)) as [Hin|Hout].
  - rewrite bool_decide_eq_true_2 by done.
    apply elem_of_keys_get in Hin. rewrite Forall_forall in Hall.
    destruct (Hall _ Hin) as (ids & Hv & Hids). cbn [snd] in Hv. rewrite Hv.
    unfold id_list. cbn [own_entries default from_option Datatypes.id].
    intros [= <-]. apply NoDup_fmap_2; [|done]. by intros ? ? [= ?].
  - by rewrite bool_decide_eq_false_2 by done.
Qed.

(** What becomes of a batch of calls once the wait is over. *)
Lemma batch_goes_out (w : World) (calls : list (string * RecordId)) (m : string)
    (final : nat) :
  (50 <= final)%nat ->
  debounced w = None ->
  _scheduledSubscriptions w = None ->
  reactions w = [] ->
  subscribeMethod w = JStr m ->
  truthy (subscribeMethod w) = true ->
  truthy (subscribeEndpoint w) = true ->
  useCSRF w = false ->
  existsb accepted calls = true ->
  Forall plain calls ->
  Forall (listened w) calls ->
  let w1 := schedule_all calls w in
  let w2 := drain toLowerCase (elapse camelize toLowerCase modelFor final w1) in
  outbox w1 = outbox w /\
  exists payload,
    outbox w2 = outbox w ++ [{| call_method := toLowerCase m;
                                call_url := subscribeEndpoint w;
                                call_data := payload |}] /\
    (forall key s, lists payload key s <->
                   exists call, call ∈ calls /\ asks_for key s call) /\
    (forall key l, obj_get payload key = JArr l -> NoDup l) /\
    _scheduledSubscriptions w2 = None /\
    debounced w2 = None.
Proof.
  intros Hfinal Hd Hs Hr Hm Htm Hte Hu Hsome Hplain Hlistened w1 w2. subst w2 w1.
  rewrite schedule_all_spec by (try done; rewrite Hs; constructor).
  rewrite Hsome, Hs. cbn [default from_option Datatypes.id].
  set (data := foldl scheduled [] calls).
  assert (well_formed data) as Hwf.
  { apply folded_well_formed. split; [apply NoDup_nil_2 | constructor]. }
  split; [by destruct w|].
  set (w1 := set_debounced (Some 50%nat)
               (set__scheduledSubscriptions (Some data) w)).
  assert (elapse camelize toLowerCase modelFor final w1
          = (_subscribeScheduled camelize toLowerCase modelFor
               (set_debounced None w1)).2) as ->.
  { unfold elapse.
    replace (debounced w1) with (Some 50%nat) by (by destruct w).
    by destruct (Nat.leb_spec 50 final) as [_|]; [|lia]. }
  assert (forall k, k ∈ keys data ->
            is_Some (_listeners (sailsSocket w1) !! toLowerCase (camelize k)))
    as Hknown.
  { intros k [?%elem_of_nil|(call & Hin & <-)]%folded_keys; [done|].
    rewrite Forall_forall in Hlistened.
    replace (sailsSocket w1) with (sailsSocket w) by (by destruct w).
    by apply Hlistened. }
  pose proof (flush_batch w1 data m) as Heq.
  rewrite Heq; [|by destruct w|apply Hwf|done|by destruct w..].
  exists (payload_of data). split_and!.
  - by destruct w.
  - intros key s. rewrite payload_lists by done. subst data.
    rewrite folded_holds. split; [|by right].
    by intros [(ids & Hget & _)|H].
  - intros key l. by apply payload_distinct.
  - by destruct w.
  - by destruct w.
Qed.

(** X23: however many calls of [_scheduleSubscribe] come before the wait
    is over, for whatever models and identifiers, one request goes out for
    all of them; its payload lists under each camelized model name the
    identifiers of the calls that went through, each once, and nothing
    else. *)
Theorem subscriptions_are_batched_without_duplicates :
  forall (w : World) (calls : list (string * RecordId)) (m : string) (final : nat),
    (50 <= final)%nat ->
    debounced w = None ->
    _scheduledSubscriptions w = None ->
    reactions w = [] ->
    subscribeMethod w = JStr m ->
    truthy (subscribeMethod w) = true ->
    truthy (subscribeEndpoint w) = true ->
    useCSRF w = false ->
    existsb accepted calls = true ->
    Forall plain calls ->
    Forall (listened w) calls ->
    let w1 := schedule_all calls w in
    let w2 := drain toLowerCase (elapse camelize toLowerCase modelFor final w1) in
    outbox w1 = outbox w /\
    exists payload,
      outbox w2 = outbox w ++ [{| call_method := toLowerCase m;
                                  call_url := subscribeEndpoint w;
                                  call_data := payload |}] /\
      (forall key s, lists payload key s <->
                     exists call, call ∈ calls /\ asks_for key s call) /\
      (forall key l, obj_get payload key = JArr l -> NoDup l) /\
      _scheduledSubscriptions w2 = None /\
      debounced w2 = None.
Proof. intros. by apply batch_goes_out. Qed.

Section Pushing.

Variable usesSocket : string -> bool.

Abbreviation push :=
  (SailsStore.push camelize modelFor shouldSubscribe usesSocket).
Abbreviation subscribe :=
  (SailsStore.subscribe camelize modelFor shouldSubscribe usesSocket).
Abbreviation pushed_calls := (SailsStore.pushed_calls modelFor usesSocket).

Lemma push_schedules (rs : list (option Instance)) (w : World) :
  foldl (subscribe_pushed camelize modelFor shouldSubscribe usesSocket) w rs
  = schedule_all (pushed_calls rs) w.
Proof.
  revert w. induction rs as [|r rs IH]; intros w; [done|].
  cbn [foldl]. rewrite IH. unfold SailsStore.pushed_calls. cbn [omap list_omap].
  unfold subscribe_pushed at 1.
  destruct r as [[[id|] name]|]; cbn [instance_id instance_modelName]; try done.
  destruct (truthy (id_val id)), (usesSocket name); done.
Qed.

Lemma subscribe_schedules (type : string) (ids : list RecordId) (w : World) :
  foldl (fun w id => _scheduleSubscribe camelize shouldSubscribe type id w) w ids
  = schedule_all ((fun id => (type, id)) <$> ids) w.
Proof. revert w. induction ids as [|id ids IH]; intros w; [done|]. cbn. apply IH. Qed.

(** X24: the store's [push] asks for a subscription to each record it was
    handed back that is not [null], has a truthy [id] and whose adapter is
    the socket adapter, and to no other; once the wait is over one request
    carries them all, each identifier once under the camelized name of its
    model. *)
Theorem pushed_records_are_subscribed :
  forall (w : World) (res : option Instance + list (option Instance))
         (m : string) (final : nat),
    (50 <= final)%nat ->
    debounced w = None ->
    _scheduledSubscriptions w = None ->
    reactions w = [] ->
    subscribeMethod w = JStr m ->
    truthy (subscribeMethod w) = true ->
    truthy (subscribeEndpoint w) = true ->
    useCSRF w = false ->
    existsb accepted (pushed_calls (as_array res)) = true ->
    Forall plain (pushed_calls (as_array res)) ->
    Forall (listened w) (pushed_calls (as_array res)) ->
    let w1 := push res w in
    let w2 := drain toLowerCase (elapse camelize toLowerCase modelFor final w1) in
    outbox w1 = outbox w /\
    exists payload,
      outbox w2 = outbox w ++ [{| call_method := toLowerCase m;
                                  call_url := subscribeEndpoint w;
                                  call_data := payload |}] /\
      (forall key s,
         lists payload key s <->
         exists r id,
           Some r ∈ as_array res /\ instance_id r = Some id /\
           usesSocket (instance_modelName r) = true /\
           asks_for key s (modelFor (instance_modelName r), id)) /\
      (forall key l, obj_get payload key = JArr l -> NoDup l).
Proof.
  intros w res m final Hfinal Hd Hs Hr Hm Htm Hte Hu Hsome Hplain Hlistened w1 w2.
  subst w2 w1. unfold SailsStore.push. rewrite push_schedules.
  destruct (batch_goes_out w (pushed_calls (as_array res)) m final)
    as (Hout & payload & Hsent & Hlists & Hdistinct & _); try done.
  split; [done|]. exists payload. split_and!; try done.
  intros key s. rewrite Hlists. unfold SailsStore.pushed_calls. split.
  - intros (call & (r & Hin & Hcall)%list_elem_of_omap & Hask).
    destruct r as [[[id|] name]|]; cbn [instance_id instance_modelName] in *;
      try done.
    destruct (truthy (id_val id)) eqn:Ht; [|done].
    destruct (usesSocket name) eqn:Hsock; [|done].
    cbn [andb] in Hcall. simplify_eq. eexists _, id. by split_and!.
  - intros ([rid name] & id & Hin & Hid & Hsock & Hask).
    cbn [instance_id instance_modelName] in *. subst rid.
    eexists. split; [|done]. apply list_elem_of_omap.
    eexists. split; [done|]. cbn [instance_id instance_modelName].
    destruct Hask as (Hacc & _). unfold SailsStore.accepted in Hacc.
    cbn [fst snd] in Hacc.
    apply andb_true_iff in Hacc as [-> _]. by rewrite Hsock.
Qed.

(** X25: the store's [subscribe] takes one identifier as a list of one; on
    a model of the socket adapter it asks for each identifier in turn, and
    once the wait is over one request lists under the camelized model name
    those that went through, each once; on a model of another adapter it
    throws at the first identifier. *)
Theorem store_subscribe_is_batched :
  forall (w : World) (type : string) (ids : RecordId + list RecordId)
         (m : string) (final : nat),
    (usesSocket (modelFor type) = false -> as_array ids <> [] ->
     subscribe type ids w = Throws TypeError) /\
    (usesSocket (modelFor type) = true ->
     (50 <= final)%nat ->
     debounced w = None ->
     _scheduledSubscriptions w = None ->
     reactions w = [] ->
     subscribeMethod w = JStr m ->
     truthy (subscribeMethod w) = true ->
     truthy (subscribeEndpoint w) = true ->
     useCSRF w = false ->
     existsb (fun id => accepted (modelFor type, id)) (as_array ids) = true ->
     Forall (fun id => plain (modelFor type, id)) (as_array ids) ->
     is_Some (_listeners (sailsSocket w)
              !! toLowerCase (camelize (camelize (modelFor type)))) ->
     exists w1 payload,
       subscribe type ids w = Returns w1 /\
       outbox w1 = outbox w /\
       outbox (drain toLowerCase (elapse camelize toLowerCase modelFor final w1))
       = outbox w ++ [{| call_method := toLowerCase m;
                         call_url := subscribeEndpoint w;
                         call_data := payload |}] /\
       (forall key s,
          lists payload key s <->
          key = camelize (modelFor type) /\
          exists id, id ∈ as_array ids /\ accepted (modelFor type, id) = true /\
                     id_to_string id = s) /\
       (forall key l, obj_get payload key = JArr l -> NoDup l)).
Proof.
  intros w type ids m final. unfold SailsStore.subscribe. split.
  - intros -> Hne. by destruct (as_array ids).
  - intros -> Hfinal Hd Hs Hr Hm Htm Hte Hu Hsome Hplain Hlistened.
    rewrite subscribe_schedules.
    destruct (batch_goes_out w ((fun id => (modelFor type, id)) <$> as_array ids)
                m final)
      as (Hout & payload & Hsent & Hlists & Hdistinct & _); try done.
    3: { by apply Forall_fmap, Forall_forall. }
    2: { by apply Forall_fmap. }
    { clear -Hsome. induction (as_array ids) as [|id l IH]; [done|].
      cbn [existsb fmap list_fmap] in *.
      apply orb_true_iff in Hsome as [->|H]; [done|].
      rewrite IH by done. apply orb_true_r. }
    eexists _, payload. split_and!; try done.
    intros key s. rewrite Hlists. split.
    + intros (call & (id & -> & Hin)%list_elem_of_fmap & Hacc & Hkey & Hid).
      cbn [fst snd] in *. split; [done|]. by exists id.
    + intros (-> & id & Hin & Hacc & Hid).
      exists (modelFor type, id). split.
      * apply list_elem_of_fmap. by exists id.
      * by split_and!.
Qed.

End Pushing.

Abbreviation same_request := (SailsAdapter.same_request shouldSubscribe).
Abbreviation pending := (SailsAdapter.pending camelize).
Abbreviation window :=
  (SailsAdapter.window camelize toLowerCase modelFor shouldSubscribe).
Abbreviation subscribeScheduled :=
  (_subscribeScheduled camelize toLowerCase modelFor).

(** What the flush of one pending identifier comes to when the socket
    service does not know the event of the model. *)
Lemma flush_throws (w : World) (modelName sid : string) :
  _scheduledSubscriptions w = Some (pending modelName sid) ->
  toLowerCase (camelize (camelize modelName)) ∉ inherited ->
  _listeners (sailsSocket w) !! toLowerCase (camelize (camelize modelName)) = None ->
  subscribeScheduled (set_debounced None w)
  = (Throws TypeError,
     set_sailsSocket
       (listenFor (toLowerCase (camelize (camelize modelName))) (Some true)
          (sailsSocket w)).2
       (set__scheduledSubscriptions None (set_debounced None w))).
Proof.
  intros Hs Hout Hnew. unfold _subscribeScheduled.
  replace (_scheduledSubscriptions (set_debounced None w))
    with (Some (pending modelName sid)) by (by destruct w).
  unfold SailsAdapter.pending. cbn [keys map fst foldl collect].
  set (w0 := set__scheduledSubscriptions None (set_debounced None w)).
  pose proof (listen_first camelize toLowerCase modelFor w0 (camelize modelName))
    as Hfirst.
  pose proof (listen_world camelize toLowerCase modelFor w0 (camelize modelName))
    as Hworld.
  destruct (_listenToSocket camelize toLowerCase modelFor (camelize modelName) w0)
    as [r w'].
  cbn [fst snd] in *. destruct Hfirst as [-> _]; [done|by destruct w|].
  subst w'. by destruct w.
Qed.

(** X26: the first batch of subscriptions for a model is lost.  When the
    wait is over on an adapter whose socket service does not know the event
    of the model yet, [_subscribeScheduled] throws a TypeError in its loop
    (at the [notice] of [_listenToSocket]): nothing is sent, no token is
    asked for, no handler is attached, and the scheduled subscriptions are
    gone.  The service knows the event from then on, and the same calls
    made again are sent in one request. *)
Theorem first_batch_for_a_model_is_lost :
  forall (w : World) (modelName sid m : string)
         (calls : list (nat * RecordId)) (final : nat),
    calls <> [] ->
    Forall (same_request modelName sid) calls ->
    sid ∉ inherited ->
    camelize modelName ∉ inherited ->
    toLowerCase (camelize (camelize modelName)) ∉ inherited ->
    _listeners (sailsSocket w) !! toLowerCase (camelize (camelize modelName))
    = None ->
    (50 <= final)%nat ->
    debounced w = None ->
    _scheduledSubscriptions w = None ->
    reactions w = [] ->
    subscribeMethod w = JStr m ->
    truthy (subscribeMethod w) = true ->
    truthy (subscribeEndpoint w) = true ->
    useCSRF w = false ->
    let round (v : World) :=
      drain toLowerCase
        (elapse camelize toLowerCase modelFor final (window modelName calls v)) in
    (subscribeScheduled (set_debounced None (window modelName calls w))).1
    = Throws TypeError /\
    outbox (round w) = outbox w /\
    fetches (round w) = fetches w /\
    handlers (round w) = handlers w /\
    _scheduledSubscriptions (round w) = None /\
    debounced (round w) = None /\
    outbox (round (round w))
    = outbox w ++ [{| call_method := toLowerCase m;
                      call_url := subscribeEndpoint w;
                      call_data := [(camelize modelName, JArr [JStr sid])] |}].
Proof.
  intros w modelName sid m calls final Hne Hall Hsid Hkey Hev Hnew Hfinal Hd Hs
    Hr Hm Htm Hte Hu round.
  set (ev := toLowerCase (camelize (camelize modelName))) in *.
  assert (forall v, debounced v = None -> _scheduledSubscriptions v = None ->
            elapse camelize toLowerCase modelFor final (window modelName calls v)
            = (subscribeScheduled
                 (set_debounced None
                    (set_debounced (Some 50%nat)
                       (set__scheduledSubscriptions
                          (Some (pending modelName sid)) v)))).2) as Hround.
  { intros v Hdv Hsv. rewrite (window_opens _ _ _ _ v modelName sid calls) by done.
    unfold elapse.
    replace (debounced (set_debounced _ _)) with (Some 50%nat) by (by destruct v).
    by destruct (Nat.leb_spec 50 final) as [_|]; [|lia]. }
  set (w1 := set_debounced (Some 50%nat)
               (set__scheduledSubscriptions (Some (pending modelName sid)) w)).
  assert (subscribeScheduled (set_debounced None w1)
          = (Throws TypeError,
             set_sailsSocket (listenFor ev (Some true) (sailsSocket w)).2
               (set__scheduledSubscriptions None (set_debounced None w1))))
    as Hflush.
  { rewrite (flush_throws w1 modelName sid); [|by destruct w..].
    by destruct w. }
  set (w2 := set_sailsSocket (listenFor ev (Some true) (sailsSocket w)).2
               (set__scheduledSubscriptions None (set_debounced None w1))) in *.
  assert (round w = w2) as Hw2.
  { subst round. cbv beta. rewrite Hround by done. fold w1. rewrite Hflush.
    cbn [snd]. unfold drain.
    replace (reactions w2) with (@nil Reaction) by (by destruct w). done. }
  split.
  { rewrite (window_opens _ _ _ _ w modelName sid calls) by done.
    fold w1. by rewrite Hflush. }
  rewrite Hw2. split_and!; try (by destruct w).
  subst round. cbv beta. rewrite Hround by (by destruct w).
  destruct (flush_sends_once camelize toLowerCase modelFor shouldSubscribe
              (set_debounced (Some 50%nat)
                 (set__scheduledSubscriptions (Some (pending modelName sid)) w2))
              modelName sid m)
    as (Hout & _); [by destruct w| | by destruct w.. | |].
  - destruct (listenFor_registers ev (sailsSocket w) Hev Hnew) as [_ Hreg].
    by destruct w.
  - left. by destruct w.
  - rewrite Hout.
    replace (useCSRF (set_debounced _ _)) with false by (by destruct w).
    by destruct w.
Qed.

End Batches.

Lemma subscriptions_are_batched_without_duplicates_witness :
  let w := set_sailsSocket
             (set__listeners {[ "user" := false; "post" := false ]}
                SailsSocketService.init)
             (init false) in
  outbox (SailsStore.schedule_all (fun s => s) (fun _ _ => true)
            [("user", IdNum 5); ("user", IdStr "5"); ("post", IdNum 1);
             ("user", IdNum 0)] w)
  = [].
Proof.
  intros w.
  refine (proj1 (subscriptions_are_batched_without_duplicates (fun s => s)
                   (fun s => s) (fun s => s) (fun _ _ => true) w
                   [("user", IdNum 5); ("user", IdStr "5"); ("post", IdNum 1);
                    ("user", IdNum 0)] "POST" 50
                   _ _ _ _ _ _ _ _ _ _ _)); try reflexivity.
  - repeat constructor; cbn; compute_done.
  - repeat constructor; by eexists.
Defined.

Lemma pushed_records_are_subscribed_witness :
  let w := set_sailsSocket
             (set__listeners {[ "user" := false ]} SailsSocketService.init)
             (init false) in
  outbox (SailsStore.push (fun s => s) (fun s => s) (fun _ _ => true)
            (fun _ => true)
            (inr [Some {| instance_id := Some (IdNum 5);
                          instance_modelName := "user" |};
                  None;
                  Some {| instance_id := None; instance_modelName := "user" |}])
            w)
  = [].
Proof.
  intros w.
  refine (proj1 (pushed_records_are_subscribed (fun s => s)
                   (fun s => s) (fun s => s) (fun _ _ => true) (fun _ => true)
                   w
                   (inr [Some {| instance_id := Some (IdNum 5);
                                 instance_modelName := "user" |};
                         None;
                         Some {| instance_id := None;
                                 instance_modelName := "user" |}])
                   "POST" 50 _ _ _ _ _ _ _ _ _ _ _)); try reflexivity.
  - repeat constructor; cbn; compute_done.
  - repeat constructor; by eexists.
Defined.

Lemma store_subscribe_is_batched_witness :
  SailsStore.subscribe (fun s => s) (fun s => s) (fun _ _ => true)
    (fun _ => false) "user" (inl (IdNum 5)) (init false)
  = Throws TypeError.
Proof.
  refine (proj1 (store_subscribe_is_batched (fun s => s) (fun s => s)
                   (fun s => s) (fun _ _ => true) (fun _ => false)
                   (init false) "user" (inl (IdNum 5)) "POST" 50) _ _);
    [reflexivity | discriminate].
Defined.

Lemma first_batch_for_a_model_is_lost_witness :
  (_subscribeScheduled (fun s => s) (fun s => s) (fun s => s)
     (set_debounced None
        (window (fun s => s) (fun s => s) (fun s => s) (fun _ _ => true)
           "user" [(0%nat, IdNum 5)] (init false)))).1
  = Throws TypeError.
Proof.
  refine (proj1 (first_batch_for_a_model_is_lost (fun s => s) (fun s => s)
                   (fun s => s) (fun _ _ => true) (init false)
                   "user" "5" "POST" [(0%nat, IdNum 5)] 50
                   _ _ _ _ _ _ _ _ _ _ _ _ _ _)); try reflexivity.
  - discriminate.
  - repeat constructor; cbn; lia.
  - compute_done.
  - compute_done.
  - compute_done.
Defined.
